(** * arango-unix-proxy: the path matcher, the body peeker and the two
    access policies, embedded from [proxy_common.go], the read-only policy
    file and the read-write policy file.

    Go strings and byte slices are byte sequences; both are modelled as
    [list ascii] (one [ascii] per byte).  A [string] literal is read as
    such a byte sequence through a coercion. *)

From Stdlib Require Import List Ascii String ZArith Bool Lia Arith.
From Stdlib Require Import DecimalString.
Import ListNotations.

Local Open Scope string_scope.
Local Open Scope Z_scope.
Local Open Scope list_scope.

Set Implicit Arguments.

(* ================================================================== *)
(** ** Go strings *)

Definition gostring := list ascii.

Definition lit (s : string) : list ascii := list_ascii_of_string s.
Coercion lit : string >-> list.

(** [len(s)] *)
Definition len (s : gostring) : Z := Z.of_nat (List.length s).

Definition byte_eqb (a b : ascii) : bool := Ascii.eqb a b.

Fixpoint gostring_eqb (a b : gostring) : bool :=
  match a, b with
  | [], [] => true
  | x :: a', y :: b' => byte_eqb x y && gostring_eqb a' b'
  | _, _ => false
  end.

(** [strings.HasPrefix(s, prefix)] *)
Fixpoint HasPrefix (s prefix : gostring) {struct prefix} : bool :=
  match prefix, s with
  | [], _ => true
  | p :: prefix', c :: s' => byte_eqb c p && HasPrefix s' prefix'
  | _ :: _, [] => false
  end.

(** [strings.Index(s, substr)]: the index of the first occurrence, or -1. *)
Fixpoint Index (s substr : gostring) : Z :=
  if HasPrefix s substr then 0
  else match s with
       | [] => -1
       | _ :: s' => let i := Index s' substr in
                    if i <? 0 then -1 else i + 1
       end.

(** [strings.Contains(s, substr)] is [Index(s, substr) >= 0]. *)
Definition Contains (s substr : gostring) : bool := 0 <=? Index s substr.

(** The slice expressions [s[:i]] and [s[i:]]. *)
Definition slice_to (s : gostring) (i : Z) : gostring := firstn (Z.to_nat i) s.
Definition slice_from (s : gostring) (i : Z) : gostring := skipn (Z.to_nat i) s.

(** The byte [s[i]]; the callers below only index inside the string. *)
Definition byte_at (s : gostring) (i : Z) : option ascii := nth_error s (Z.to_nat i).

(** The double quote character, and Go's [%q] on a string made of plain
    letters: the string between double quotes. *)
Definition dquote : gostring := ["034"%char].
Definition Sprintf_q (s : gostring) : gostring := dquote ++ s ++ dquote.

(** [%d] *)
Definition Sprintf_d (z : Z) : gostring :=
  lit (NilZero.string_of_int (Z.to_int z)).

(* ================================================================== *)
(** ** Regular expressions, as used by [regexp.MustCompile] *)

Module Regexp.

Inductive t : Type :=
| Void : t
| Empty : t
| Class : (ascii -> bool) -> t
| Seq : t -> t -> t
| Or : t -> t -> t
| Star : t -> t.

Definition Byte (c : ascii) : t := Class (byte_eqb c).
Definition Opt (r : t) : t := Or Empty r.
Definition Plus (r : t) : t := Seq r (Star r).

Fixpoint Lit (s : gostring) : t :=
  match s with
  | [] => Empty
  | c :: s' => Seq (Byte c) (Lit s')
  end.

(** The words of a regular expression. *)
Inductive In : t -> gostring -> Prop :=
| in_empty : In Empty []
| in_class f c : f c = true -> In (Class f) [c]
| in_seq r1 r2 w1 w2 : In r1 w1 -> In r2 w2 -> In (Seq r1 r2) (w1 ++ w2)
| in_or_l r1 r2 w : In r1 w -> In (Or r1 r2) w
| in_or_r r1 r2 w : In r2 w -> In (Or r1 r2) w
| in_star_nil r : In (Star r) []
| in_star_cons r w1 w2 : In r w1 -> In (Star r) w2 -> In (Star r) (w1 ++ w2).

(** Matching by derivatives. *)
Fixpoint nullable (r : t) : bool :=
  match r with
  | Void => false
  | Empty => true
  | Class _ => false
  | Seq r1 r2 => nullable r1 && nullable r2
  | Or r1 r2 => nullable r1 || nullable r2
  | Star _ => true
  end.

Fixpoint deriv (c : ascii) (r : t) : t :=
  match r with
  | Void => Void
  | Empty => Void
  | Class f => if f c then Empty else Void
  | Seq r1 r2 =>
      if nullable r1 then Or (Seq (deriv c r1) r2) (deriv c r2)
      else Seq (deriv c r1) r2
  | Or r1 r2 => Or (deriv c r1) (deriv c r2)
  | Star r1 => Seq (deriv c r1) (Star r1)
  end.

(** A pattern of the form [^...$] matches a string when the whole string
    is a word of the expression between the anchors. *)
Fixpoint MatchString (r : t) (s : gostring) : bool :=
  match s with
  | [] => nullable r
  | c :: s' => MatchString (deriv c r) s'
  end.

End Regexp.

(* ================================================================== *)
(** ** proxy_common.go: constants and the cursor pattern *)

Definition MaxBodyPeekSize : Z := 16 * 1024 * 1024.

Definition in_range (lo hi c : ascii) : bool :=
  (nat_of_ascii lo <=? nat_of_ascii c)%nat && (nat_of_ascii c <=? nat_of_ascii hi)%nat.

(** The character class [[a-zA-Z0-9_-]]; also the test of the loop over
    [dbName] in [HasAPIPathPrefix]. *)
Definition isDBNameChar (c : ascii) : bool :=
  in_range "a" "z" c || in_range "A" "Z" c || in_range "0" "9" c
  || byte_eqb c "_" || byte_eqb c "-".

Definition isDigit (c : ascii) : bool := in_range "0" "9" c.

(** [^(/_db/[a-zA-Z0-9_-]+)?/_api/cursor(?:/[0-9]+)?$] *)
Definition cursorPathRegexp : Regexp.t :=
  Regexp.Seq (Regexp.Opt (Regexp.Seq (Regexp.Lit "/_db/") (Regexp.Plus (Regexp.Class isDBNameChar))))
    (Regexp.Seq (Regexp.Lit "/_api/cursor")
       (Regexp.Opt (Regexp.Seq (Regexp.Lit "/") (Regexp.Plus (Regexp.Class isDigit))))).

Definition IsCursorPath (path : gostring) : bool :=
  Regexp.MatchString cursorPathRegexp path.

(* ================================================================== *)
(** ** path/filepath.Clean (Unix)

    [Clean] works element by element: empty elements and [.] are dropped,
    [..] removes the element written before it when there is one to remove,
    is dropped at the root of a rooted path, and is kept at the head of a
    relative one; the elements kept are joined with single slashes. *)

Module Filepath.

Definition isSlash (c : ascii) : bool := byte_eqb c "/".

(** [strings.Split(s, "/")] *)
Fixpoint elements (s : gostring) : list gostring :=
  match s with
  | [] => [[]]
  | c :: s' =>
      if isSlash c then [] :: elements s'
      else match elements s' with
           | e :: es => (c :: e) :: es
           | [] => [[c]]
           end
  end.

(** [strings.Join(elems, "/")] *)
Fixpoint join (elems : list gostring) : gostring :=
  match elems with
  | [] => []
  | [e] => e
  | e :: rest => e ++ "/" ++ join rest
  end.

(** One turn of the loop of [Clean]; [out] holds the elements written so
    far, the last one first. *)
Definition cleanStep (rooted : bool) (out : list gostring) (e : gostring)
  : list gostring :=
  if gostring_eqb e "" then out
  else if gostring_eqb e "." then out
  else if gostring_eqb e ".." then
    match out with
    | top :: out' =>
        if negb (gostring_eqb top "..") then out'
        else if rooted then out else e :: out
    | [] => if rooted then out else [e]
    end
  else e :: out.

Definition Clean (path : gostring) : gostring :=
  match path with
  | [] => "."
  | c :: _ =>
      let rooted := isSlash c in
      let out := fold_left (cleanStep rooted) (elements path) [] in
      if rooted then "/" ++ join (rev out)
      else match out with
           | [] => "."
           | _ => join (rev out)
           end
  end.

End Filepath.

(* ================================================================== *)
(** ** proxy_common.go: the path matcher *)

(** [matchesAPIPath]: [path] starts with [apiPath] at a path boundary. *)
Definition matchesAPIPath (path apiPath : gostring) : bool :=
  if negb (HasPrefix path apiPath) then false
  else if len path =? len apiPath then true
  else match byte_at path (len apiPath) with
       | Some nextChar => byte_eqb nextChar "/" || byte_eqb nextChar "?"
       | None => false
       end.

(** [HasAPIPathPrefix].  The loop over [dbName] ranges over runes; a byte
    outside ASCII decodes to a rune outside the class, so testing every
    byte gives the same verdict. *)
Definition HasAPIPathPrefix (fullPath apiPath : gostring) : bool :=
  let cleanPath := Filepath.Clean fullPath in
  let cleanPath :=
    if negb (HasPrefix cleanPath "/") then "/" ++ cleanPath else cleanPath in
  if Contains fullPath ".." then false
  else if matchesAPIPath cleanPath apiPath then true
  else if HasPrefix cleanPath "/_db/" then
    let rest := slice_from cleanPath 5 in
    let slashIdx := Index rest "/" in
    if 0 <? slashIdx then
      let dbName := slice_to rest slashIdx in
      let validDB := forallb isDBNameChar dbName in
      if validDB then
        let pathAfterDB := slice_from rest slashIdx in
        if matchesAPIPath pathAfterDB apiPath then true else false
      else false
    else false
  else false.

(* ================================================================== *)
(** ** proxy_common.go: the request, its body and the body peeker *)

(** An [error] value, by its message. *)
Definition error := gostring.

(** The inbound body stream: the bytes still to be read, then either the
    end of the stream or a read failure. *)
Record Stream : Type := mkStream {
  pending : gostring;
  failure : option error;
  closed : bool
}.

Definition Close (b : Stream) : Stream :=
  mkStream b.(pending) b.(failure) true.

Record Request : Type := mkRequest {
  Method : gostring;
  Path : gostring;       (* r.URL.Path *)
  RawQuery : gostring    (* r.URL.RawQuery *)
}.

Inductive PeekResult : Type :=
| PeekOk (body : gostring)
| PeekErr (err : error).

(** [type BodyPeeker func(limit int64) ([]byte, error)]: a closure; the
    variables it captures are the state [St] it is run on. *)
Definition BodyPeeker (St : Type) : Type := Z -> St -> PeekResult * St.

(** [type AllowFunc]: a function of the request and a [BodyPeeker] that
    returns an error; [None] is the nil error. *)
Definition AllowFunc : Type :=
  forall St : Type, Request -> BodyPeeker St -> St -> option error * St.

(** The locals of [ServeHTTP] captured by [bodyReader], with [r.Body]
    ([None] when it is nil). *)
Record PeekState : Type := mkPeekState {
  cachedBody : gostring;
  bodyConsumed : bool;
  Body : option Stream
}.

(** The first [n] bytes of [data] (all of it when shorter) and the rest. *)
Fixpoint readUpTo (n : Z) (data : gostring) : gostring * gostring :=
  match data with
  | [] => ([], [])
  | c :: data' =>
      if n <=? 0 then ([], data)
      else let (got, left) := readUpTo (n - 1) data' in (c :: got, left)
  end.

(** [buf.ReadFrom(&io.LimitedReader{R: body, N: n})]: the buffer, the
    error of [ReadFrom], the count [lr.N] left afterwards, and the stream.
    The limited reader stops asking the stream once [N] reaches 0, so a
    failure at the end of the stream is met only when fewer than [n] bytes
    were there. *)
Definition ReadFromLimited (body : Stream) (n : Z)
  : gostring * option error * Z * Stream :=
  let (buf, left) := readUpTo n body.(pending) in
  let lrN := n - len buf in
  let err := if lrN <=? 0 then None else body.(failure) in
  (buf, err, lrN, mkStream left body.(failure) body.(closed)).

Definition exceedsError (effectiveLimit : Z) : error :=
  "request body exceeds inspection limit (" ++ Sprintf_d effectiveLimit ++ " bytes)".

(** The closure [bodyReader] of [ServeHTTP]. *)
Definition bodyReader : BodyPeeker PeekState := fun limit st =>
  if st.(bodyConsumed) then (PeekOk st.(cachedBody), st)
  else match st.(Body) with
  | None => (PeekOk [], mkPeekState st.(cachedBody) true None)
  | Some body =>
      let effectiveLimit :=
        if (limit <=? 0) || (MaxBodyPeekSize <? limit) then MaxBodyPeekSize
        else limit in
      match ReadFromLimited body (effectiveLimit + 1) with
      | (buf, Some err, lrN, body') =>
          (PeekErr err, mkPeekState st.(cachedBody) true (Some (Close body')))
      | (buf, None, lrN, body') =>
          if lrN <=? 0 then
            (PeekErr (exceedsError effectiveLimit),
             mkPeekState st.(cachedBody) true (Some (Close body')))
          else
            (PeekOk buf, mkPeekState buf true (Some (Close body')))
      end
  end.

(** [buildUpstreamURL] *)
Definition buildUpstreamURL (r : Request) : gostring :=
  "http://arangodb" ++ r.(Path) ++
  (if negb (gostring_eqb r.(RawQuery) []) then "?" ++ r.(RawQuery) else []).

(** The body handed to the upstream request: the cached snapshot replayed,
    or the inbound stream passed through. *)
Inductive UpstreamBody : Type :=
| Replay (snapshot : gostring)
| PassThrough (body : option Stream).

Record UpstreamRequest : Type := mkUpstream {
  uMethod : gostring;
  uURL : gostring;
  uBody : UpstreamBody;
  uContentLength : option Z   (* [Some n] where ServeHTTP assigns it *)
}.

(** What [ServeHTTP] does with a request, up to the call of [p.client.Do]. *)
Inductive Served : Type :=
| ErrorReply (status : Z) (message : gostring)
| Dispatched (req : UpstreamRequest).

Definition StatusForbidden : Z := 403.
Definition StatusInternalServerError : Z := 500.

(* ================================================================== *)
(** ** A reference decoder for [json.Unmarshal] into the payload struct

    [AllowReadOnly] decodes the body into a struct with one string field
    tagged [query].  The policies below take the decoder as a parameter;
    this one serves the closed examples.  It checks the whole input against
    the JSON grammar, then reads the members of a top-level object: a
    member named [query] (letter case ignored, as [encoding/json] does)
    sets the field when its value is a string, leaves it when the value is
    [null], and is a type error otherwise.  Bytes outside ASCII inside a
    string are kept as they are. *)

Module Json.

Local Unset Elimination Schemes.
Inductive value : Type :=
| Null
| Boolean (b : bool)
| Number
| Str (s : gostring)
| Arr (elems : list value)
| Obj (members : list (gostring * value)).
Local Set Elimination Schemes.

Definition byteZ (c : ascii) : Z := Z.of_nat (nat_of_ascii c).
Definition zbyte (z : Z) : ascii := ascii_of_nat (Z.to_nat z).

Definition isSpace (c : ascii) : bool :=
  byte_eqb c " " || byte_eqb c "009" || byte_eqb c "010" || byte_eqb c "013".

Fixpoint skipSpace (s : gostring) : gostring :=
  match s with
  | c :: s' => if isSpace c then skipSpace s' else s
  | [] => []
  end.

Definition hexval (c : ascii) : option Z :=
  if in_range "0" "9" c then Some (byteZ c - 48)
  else if in_range "a" "f" c then Some (byteZ c - 87)
  else if in_range "A" "F" c then Some (byteZ c - 55)
  else None.

(** Four hex digits. *)
Definition hex4 (s : gostring) : option (Z * gostring) :=
  match s with
  | a :: b :: c :: d :: s' =>
      match hexval a, hexval b, hexval c, hexval d with
      | Some x, Some y, Some z, Some w => Some (((x * 16 + y) * 16 + z) * 16 + w, s')
      | _, _, _, _ => None
      end
  | _ => None
  end.

Definition utf8 (cp : Z) : gostring :=
  if cp <? 128 then [zbyte cp]
  else if cp <? 2048 then [zbyte (192 + cp / 64); zbyte (128 + cp mod 64)]
  else if cp <? 65536 then
    [zbyte (224 + cp / 4096); zbyte (128 + (cp / 64) mod 64); zbyte (128 + cp mod 64)]
  else
    [zbyte (240 + cp / 262144); zbyte (128 + (cp / 4096) mod 64);
     zbyte (128 + (cp / 64) mod 64); zbyte (128 + cp mod 64)].

Definition replacementChar : Z := 65533.

(** The text of a string literal after its opening quote: the decoded
    bytes and what follows the closing quote. *)
Fixpoint stringBody (fuel : nat) (s : gostring) : option (gostring * gostring) :=
  match fuel with
  | O => None
  | S fuel' =>
      match s with
      | [] => None
      | c :: s' =>
          if byte_eqb c "034" then Some ([], s')
          else if byteZ c <? 32 then None
          else if byte_eqb c "\" then
            match s' with
            | e :: s'' =>
                let simple (b : ascii) :=
                  match stringBody fuel' s'' with
                  | Some (t, r) => Some (b :: t, r)
                  | None => None
                  end in
                if byte_eqb e "034" then simple "034"%char
                else if byte_eqb e "\" then simple "\"%char
                else if byte_eqb e "/" then simple "/"%char
                else if byte_eqb e "b" then simple "008"%char
                else if byte_eqb e "f" then simple "012"%char
                else if byte_eqb e "n" then simple "010"%char
                else if byte_eqb e "r" then simple "013"%char
                else if byte_eqb e "t" then simple "009"%char
                else if byte_eqb e "u" then
                  match hex4 s'' with
                  | None => None
                  | Some (cp, r) =>
                      let plain (cp' : Z) (r' : gostring) :=
                        match stringBody fuel' r' with
                        | Some (t, r'') => Some (utf8 cp' ++ t, r'')
                        | None => None
                        end in
                      if (55296 <=? cp) && (cp <? 56320) then
                        match r with
                        | b1 :: b2 :: r1 =>
                            if byte_eqb b1 "\" && byte_eqb b2 "u" then
                              match hex4 r1 with
                              | Some (lo, r2) =>
                                  if (56320 <=? lo) && (lo <? 57344)
                                  then plain (65536 + (cp - 55296) * 1024 + (lo - 56320)) r2
                                  else plain replacementChar r
                              | None => plain replacementChar r
                              end
                            else plain replacementChar r
                        | _ => plain replacementChar r
                        end
                      else if (56320 <=? cp) && (cp <? 57344) then plain replacementChar r
                      else plain cp r
                  end
                else None
            | [] => None
            end
          else
            match stringBody fuel' s' with
            | Some (t, r) => Some (c :: t, r)
            | None => None
            end
      end
  end.

Fixpoint digits (s : gostring) : gostring :=
  match s with
  | c :: s' => if isDigit c then digits s' else s
  | [] => []
  end.

Definition digits1 (s : gostring) : option gostring :=
  match s with
  | c :: s' => if isDigit c then Some (digits s') else None
  | [] => None
  end.

(** A number: an optional minus sign, an integer part without leading
    zeros, an optional fraction and an optional exponent; what follows
    it is returned. *)
Definition number (s : gostring) : option gostring :=
  let s1 := match s with c :: s' => if byte_eqb c "-" then s' else s | [] => s end in
  let int :=
    match s1 with
    | c :: s' => if byte_eqb c "0" then Some s'
                 else if isDigit c then Some (digits s') else None
    | [] => None
    end in
  match int with
  | None => None
  | Some s2 =>
      let frac :=
        match s2 with
        | c :: s' => if byte_eqb c "." then digits1 s' else Some s2
        | [] => Some s2
        end in
      match frac with
      | None => None
      | Some s3 =>
          match s3 with
          | c :: s' =>
              if byte_eqb c "e" || byte_eqb c "E" then
                match s' with
                | g :: s'' =>
                    if byte_eqb g "+" || byte_eqb g "-" then digits1 s'' else digits1 s'
                | [] => None
                end
              else Some s3
          | [] => Some s3
          end
      end
  end.

Definition keyword (w : gostring) (v : value) (s : gostring) : option (value * gostring) :=
  if HasPrefix s w then Some (v, skipn (List.length w) s) else None.

(** A value, with the white space before it. *)
Fixpoint parseValue (fuel : nat) (s : gostring) {struct fuel} : option (value * gostring) :=
  match fuel with
  | O => None
  | S fuel' =>
      match skipSpace s with
      | [] => None
      | c :: s' =>
          if byte_eqb c "{" then
            match skipSpace s' with
            | d :: s'' =>
                if byte_eqb d "}" then Some (Obj [], s'')
                else match parseMembers fuel' s' with
                     | Some (ms, r) => Some (Obj ms, r)
                     | None => None
                     end
            | [] => None
            end
          else if byte_eqb c "[" then
            match skipSpace s' with
            | d :: s'' =>
                if byte_eqb d "]" then Some (Arr [], s'')
                else match parseElements fuel' s' with
                     | Some (vs, r) => Some (Arr vs, r)
                     | None => None
                     end
            | [] => None
            end
          else if byte_eqb c "034" then
            match stringBody (S (List.length s')) s' with
            | Some (t, r) => Some (Str t, r)
            | None => None
            end
          else if byte_eqb c "t" then keyword "true" (Boolean true) (c :: s')
          else if byte_eqb c "f" then keyword "false" (Boolean false) (c :: s')
          else if byte_eqb c "n" then keyword "null" Null (c :: s')
          else match number (c :: s') with
               | Some r => Some (Number, r)
               | None => None
               end
      end
  end
(** The members of an object after its brace, up to the closing brace. *)
with parseMembers (fuel : nat) (s : gostring) {struct fuel}
  : option (list (gostring * value) * gostring) :=
  match fuel with
  | O => None
  | S fuel' =>
      match skipSpace s with
      | q :: s1 =>
          if byte_eqb q "034" then
            match stringBody (S (List.length s1)) s1 with
            | Some (key, s2) =>
                match skipSpace s2 with
                | colon :: s3 =>
                    if byte_eqb colon ":" then
                      match parseValue fuel' s3 with
                      | Some (v, s4) =>
                          match skipSpace s4 with
                          | d :: s5 =>
                              if byte_eqb d "}" then Some ([(key, v)], s5)
                              else if byte_eqb d "," then
                                match parseMembers fuel' s5 with
                                | Some (ms, r) => Some ((key, v) :: ms, r)
                                | None => None
                                end
                              else None
                          | [] => None
                          end
                      | None => None
                      end
                    else None
                | [] => None
                end
            | None => None
            end
          else None
      | [] => None
      end
  end
(** The elements of an array after its bracket, up to the closing one. *)
with parseElements (fuel : nat) (s : gostring) {struct fuel}
  : option (list value * gostring) :=
  match fuel with
  | O => None
  | S fuel' =>
      match parseValue fuel' s with
      | Some (v, s1) =>
          match skipSpace s1 with
          | d :: s2 =>
              if byte_eqb d "]" then Some ([v], s2)
              else if byte_eqb d "," then
                match parseElements fuel' s2 with
                | Some (vs, r) => Some (v :: vs, r)
                | None => None
                end
              else None
          | [] => None
          end
      | None => None
      end
  end.

(** The whole input is one value between optional white space. *)
Definition parse (s : gostring) : option value :=
  match parseValue (S (List.length s)) s with
  | Some (v, r) => match skipSpace r with [] => Some v | _ => None end
  | None => None
  end.

Definition lowerByte (c : ascii) : ascii :=
  if in_range "A" "Z" c then ascii_of_nat (nat_of_ascii c + 32) else c.

Definition isQueryKey (key : gostring) : bool :=
  gostring_eqb (map lowerByte key) "query".

(** Decoding the members in order: the field so far and whether a type
    error was recorded. *)
Fixpoint decodeMembers (ms : list (gostring * value)) (query : gostring) (typeErr : bool)
  : gostring * bool :=
  match ms with
  | [] => (query, typeErr)
  | (key, v) :: ms' =>
      if isQueryKey key then
        match v with
        | Str s => decodeMembers ms' s typeErr
        | Null => decodeMembers ms' query typeErr
        | _ => decodeMembers ms' query true
        end
      else decodeMembers ms' query typeErr
  end.

(** [Some q]: [json.Unmarshal] returned no error and left [q] in
    [payload.Query]. *)
Definition unmarshalQuery (body : gostring) : option gostring :=
  match parse body with
  | Some (Obj ms) =>
      let (q, typeErr) := decodeMembers ms [] false in
      if typeErr then None else Some q
  | Some Null => Some []
  | _ => None
  end.

End Json.

(** The body [{"query": q}] for a query text without quotes or
    backslashes. *)
Definition queryPayload (q : gostring) : gostring :=
  "{" ++ dquote ++ "query" ++ dquote ++ ": " ++ dquote ++ q ++ dquote ++ "}".

(* ================================================================== *)
(** ** The policies and the handler *)

Definition MethodGet : gostring := "GET".
Definition MethodHead : gostring := "HEAD".
Definition MethodPost : gostring := "POST".
Definition MethodPut : gostring := "PUT".
Definition MethodPatch : gostring := "PATCH".
Definition MethodDelete : gostring := "DELETE".
Definition MethodOptions : gostring := "OPTIONS".

(** The keys of the map [ForbiddenAQLKeywords]. *)
Definition ForbiddenAQLKeywords : list gostring :=
  [lit "INSERT"; lit "UPDATE"; lit "UPSERT"; lit "REMOVE"; lit "REPLACE";
   lit "TRUNCATE"; lit "DROP"].

(** The lookup [_, forbidden := ForbiddenAQLKeywords[token]]. *)
Definition isForbidden (token : gostring) : bool :=
  existsb (gostring_eqb token) ForbiddenAQLKeywords.

Definition forbiddenKeywordsList : list gostring :=
  [lit "INSERT"; lit "UPDATE"; lit "UPSERT"; lit "REMOVE"; lit "REPLACE";
   lit "TRUNCATE"; lit "DROP"].

Definition AllowedRWAPIPaths : list gostring :=
  [lit "/_api/document"; lit "/_api/collection"; lit "/_api/index"; lit "/_api/import"].

(** [strings.FieldsFunc(s, f)]: the maximal runs of bytes that do not
    satisfy [f]; [field] is the run being read.  The function of
    [AllowReadOnly] holds of every rune outside ASCII, so going byte by byte
    gives the fields Go gives. *)
Fixpoint fieldsFrom (f : ascii -> bool) (s field : gostring) : list gostring :=
  match s with
  | [] => match field with [] => [] | _ => [field] end
  | c :: s' =>
      if f c then
        match field with
        | [] => fieldsFrom f s' []
        | _ => field :: fieldsFrom f s' []
        end
      else fieldsFrom f s' (field ++ [c])
  end.

Definition FieldsFunc (s : gostring) (f : ascii -> bool) : list gostring :=
  fieldsFrom f s [].

(** [func(r rune) bool { return r < 'A' || r > 'Z' }] *)
Definition notUpperLetter (r : ascii) : bool :=
  (nat_of_ascii r <? nat_of_ascii "A")%nat || (nat_of_ascii "Z" <? nat_of_ascii r)%nat.

Definition isASCII (s : gostring) : bool :=
  forallb (fun c => (nat_of_ascii c <? 128)%nat) s.

Definition upperByte (c : ascii) : ascii :=
  if in_range "a" "z" c then ascii_of_nat (nat_of_ascii c - 32) else c.

Definition notPermitted (method path : gostring) : error :=
  "method " ++ method ++ " not permitted on " ++ path.

(** The peeker of the tests that returns no content. *)
Definition emptyBodyPeeker : BodyPeeker unit := fun _ st => (PeekOk [], st).

(** The peeker of the tests that returns the given content. *)
Definition mockBodyPeeker (body : gostring) : BodyPeeker unit :=
  fun _ st => (PeekOk body, st).

(** Stand-ins, for the closed examples, for what the policies take from
    Go's standard library.  The examples use ASCII strings only, for which
    [strings.ToUpper] never leaves ASCII. *)
Definition asciiToUpper (s : gostring) : gostring := map upperByte s.

(** [http.NewRequestWithContext] fails on a method that is not a token and
    on a URL that does not parse: one with a control character or with a
    malformed percent escape before the query. *)
Definition isTokenChar (c : ascii) : bool :=
  in_range "a" "z" c || in_range "A" "Z" c || in_range "0" "9" c
  || existsb (byte_eqb c) (lit "!#$%&'*+-.^_`|~").

Definition isHex (c : ascii) : bool :=
  in_range "0" "9" c || in_range "a" "f" c || in_range "A" "F" c.

Fixpoint badEscape (s : gostring) : bool :=
  match s with
  | [] => false
  | c :: s' =>
      if byte_eqb c "?" then false
      else if byte_eqb c "%" then
        match s' with
        | a :: b :: _ => negb (isHex a && isHex b) || badEscape s'
        | _ => true
        end
      else badEscape s'
  end.

Definition isControl (c : ascii) : bool :=
  (nat_of_ascii c <? 32)%nat || (nat_of_ascii c =? 127)%nat.

Definition referenceNewRequestFails (method url : gostring) : bool :=
  negb (negb (gostring_eqb method []) && forallb isTokenChar method)
  || existsb isControl url || badEscape url.

(* ================================================================== *)
(** ** proxy_common.go: headers *)

(** [http.Header], a map from keys to lists of values, as an association
    list without repeated keys.  A loop over the map takes the entries in
    the order of the list, which stands for any order. *)
Definition Header : Type := list (gostring * list gostring).

(** [h[key]] *)
Definition index (h : Header) (key : gostring) : list gostring :=
  match find (fun kv => gostring_eqb (fst kv) key) h with
  | Some kv => snd kv
  | None => []
  end.

Definition hasKey (h : Header) (key : gostring) : bool :=
  existsb (fun kv => gostring_eqb (fst kv) key) h.

(** [delete(h, key)] *)
Definition delete (h : Header) (key : gostring) : Header :=
  filter (fun kv => negb (gostring_eqb (fst kv) key)) h.

(** [h[key] = append(h[key], value)] *)
Fixpoint appendAt (h : Header) (key value : gostring) : Header :=
  match h with
  | [] => [(key, [value])]
  | (k, vs) :: h' =>
      if gostring_eqb k key then (k, vs ++ [value]) :: h'
      else (k, vs) :: appendAt h' key value
  end.

Definition lowerByte (c : ascii) : ascii :=
  if in_range "A" "Z" c then ascii_of_nat (nat_of_ascii c + 32) else c.

(** The loop of [textproto.canonicalMIMEHeaderKey]: upper case for the
    first letter and for a letter after a dash, lower case elsewhere. *)
Fixpoint canonicalCase (upper : bool) (a : gostring) : gostring :=
  match a with
  | [] => []
  | c :: a' =>
      let c' := if upper then upperByte c else lowerByte c in
      c' :: canonicalCase (byte_eqb c' "-") a'
  end.

(** [http.CanonicalHeaderKey], which is [textproto.CanonicalMIMEHeaderKey]:
    a key with a byte that is no token character comes back as it is. *)
Definition CanonicalHeaderKey (s : gostring) : gostring :=
  if forallb isTokenChar s then canonicalCase true s else s.

(** The methods of [http.Header] the code calls. *)
Definition Values (h : Header) (key : gostring) : list gostring :=
  index h (CanonicalHeaderKey key).

Definition Del (h : Header) (key : gostring) : Header :=
  delete h (CanonicalHeaderKey key).

Definition Add (h : Header) (key value : gostring) : Header :=
  appendAt h (CanonicalHeaderKey key) value.

(** [strings.Split(s, sep)] for a separator of one byte. *)
Fixpoint Split (s : gostring) (sep : ascii) : list gostring :=
  match s with
  | [] => [[]]
  | c :: s' =>
      if byte_eqb c sep then [] :: Split s' sep
      else match Split s' sep with
           | e :: es => (c :: e) :: es
           | [] => [[c]]
           end
  end.

Definition hopByHopHeaders : list gostring :=
  [lit "Connection"; lit "Proxy-Connection"; lit "Keep-Alive"; lit "TE"; lit "Trailer";
   lit "Transfer-Encoding"; lit "Upgrade"].

(** [cloneHeader]: a new map with a copy of every list of values. *)
Definition cloneHeader (src : Header) : Header :=
  map (fun kv => (fst kv, firstn (List.length (snd kv)) (snd kv))) src.

Section Headers.

(** [strings.TrimSpace], which removes the white space of Unicode at both
    ends, is a parameter here. *)
Variable TrimSpace : gostring -> gostring.

(** The body of the inner loop of [stripHopHeaders]. *)
Definition stripToken (header : Header) (token : gostring) : Header :=
  let headerName := TrimSpace token in
  if gostring_eqb headerName "" then header
  else Del header (CanonicalHeaderKey headerName).

(** [stripHopHeaders].  The values of Connection are read before anything
    is deleted. *)
Definition stripHopHeaders (header : Header) : Header :=
  let connectionValues := Values header "Connection" in
  let header :=
    fold_left (fun h value => fold_left stripToken (Split value ",") h)
              connectionValues header in
  fold_left Del hopByHopHeaders header.

(** [copyHeaders], returning what [dst] has become.  The first loop
    deletes from the map it ranges over: an entry deleted before the loop
    reaches it is not produced. *)
Definition copyHeaders (dst src : Header) : Header :=
  let cleaned := stripHopHeaders (cloneHeader src) in
  let dst :=
    fold_left (fun d key => if hasKey d key then Del d key else d) (map fst dst) dst in
  fold_left (fun d kv => fold_left (fun d value => Add d (fst kv) value) (snd kv) d)
            cleaned dst.

(** The keys the two loops of [stripHopHeaders] delete. *)
Definition nominatedKeys (header : Header) : list gostring :=
  map (fun token => CanonicalHeaderKey (CanonicalHeaderKey (TrimSpace token)))
      (filter (fun token => negb (gostring_eqb (TrimSpace token) ""))
              (flat_map (fun value => Split value ",") (Values header "Connection"))).

Definition strippedKeys (header : Header) : list gostring :=
  nominatedKeys header ++ map CanonicalHeaderKey hopByHopHeaders.

End Headers.

(** Every key is in canonical form. *)
Definition canonicalKeys (h : Header) : Prop :=
  forall key, In key (map fst h) -> CanonicalHeaderKey key = key.

(** [strings.TrimSpace] on a string whose ends are in ASCII. *)
Definition isASCIISpace (c : ascii) : bool :=
  existsb (fun n => (nat_of_ascii c =? n)%nat) [9; 10; 11; 12; 13; 32]%nat.

Fixpoint trimLeft (s : gostring) : gostring :=
  match s with
  | [] => []
  | c :: s' => if isASCIISpace c then trimLeft s' else s
  end.

Definition asciiTrimSpace (s : gostring) : gostring :=
  rev (trimLeft (rev (trimLeft s))).

(** [LogRequests]: the line logged for a request. *)
Definition loggedPath (r : Request) : gostring :=
  if negb (gostring_eqb (RawQuery r) "") then Path r ++ "?<redacted>" else Path r.

Definition loggedLine (r : Request) : gostring :=
  Method r ++ " " ++ loggedPath r.

Section Proxy.

(** What the code takes from Go's standard library and is not spelled
    out here:
    - [unicodeToUpper s] is [strings.Map(unicode.ToUpper, s)], the path
      [strings.ToUpper] takes when [s] has a byte outside ASCII;
    - [jsonUnmarshalQuery body] is [json.Unmarshal(body, &payload)]:
      [Some q] when it returns no error, [q] being [payload.Query];
    - [newRequestFails method url] tells whether
      [http.NewRequestWithContext] returns an error. *)
Variable unicodeToUpper : gostring -> gostring.
Variable jsonUnmarshalQuery : gostring -> option gostring.
Variable newRequestFails : gostring -> gostring -> bool.

(** A proof depends on the parameters its statement mentions. *)
Local Set Default Proof Using "Type".

(** [strings.ToUpper] *)
Definition ToUpper (s : gostring) : gostring :=
  if isASCII s then map upperByte s else unicodeToUpper s.

(** The loop over the tokens of the query text. *)
Definition scanQuery (query : gostring) : option error :=
  let upper := ToUpper query in
  let tokens := FieldsFunc upper notUpperLetter in
  match find isForbidden tokens with
  | Some token =>
      Some ("forbidden keyword " ++ Sprintf_q token ++ " detected in AQL")
  | None => None
  end.

(** The fallback: the scan of the raw body. *)
Definition scanRawBody (body : gostring) : option error :=
  let upper := ToUpper body in
  match find (fun keyword => Contains upper keyword) forbiddenKeywordsList with
  | Some keyword =>
      Some ("forbidden keyword " ++ Sprintf_q keyword ++ " detected in request body")
  | None => None
  end.

(** What [AllowReadOnly] does with the body it peeked. *)
Definition inspectCursorBody (body : gostring) : option error :=
  match jsonUnmarshalQuery body with
  | Some query =>
      if negb (gostring_eqb query []) then scanQuery query
      else scanRawBody body
  | None => scanRawBody body
  end.

Definition AllowReadOnly : AllowFunc := fun St r peek st =>
  let method := r.(Method) in
  if gostring_eqb method MethodGet || gostring_eqb method MethodHead
     || gostring_eqb method MethodOptions
  then (None, st)
  else if gostring_eqb method MethodPost then
    if IsCursorPath r.(Path) then
      match peek (128 * 1024) st with
      | (PeekErr err, st') => (Some err, st')
      | (PeekOk body, st') => (inspectCursorBody body, st')
      end
    else (Some (notPermitted method r.(Path)), st)
  else if gostring_eqb method MethodDelete then
    if IsCursorPath r.(Path) then (None, st)
    else (Some (notPermitted method r.(Path)), st)
  else (Some (notPermitted method r.(Path)), st).

Definition AllowReadWrite : AllowFunc := fun St r peek st =>
  match AllowReadOnly r peek st with
  | (None, st') => (None, st')
  | (Some _, st') =>
      let path := r.(Path) in
      let method := r.(Method) in
      if gostring_eqb method MethodPost then
        if IsCursorPath path then (None, st')
        else if existsb (fun apiPath => HasAPIPathPrefix path apiPath) AllowedRWAPIPaths
        then (None, st')
        else (Some (notPermitted method path), st')
      else if gostring_eqb method MethodPut || gostring_eqb method MethodPatch
              || gostring_eqb method MethodDelete then
        if existsb (fun apiPath => HasAPIPathPrefix path apiPath)
             [lit "/_api/document"; lit "/_api/collection"; lit "/_api/index"]
        then (None, st')
        else (Some (notPermitted method path), st')
      else (Some (notPermitted method path), st')
  end.

(** The locals when [ServeHTTP] starts: [var cachedBody []byte] and
    [bodyConsumed := false]. *)
Definition initialState (body : option Stream) : PeekState :=
  mkPeekState [] false body.

(** [ServeHTTP], for a request [r] whose body is [body]: the reply or the
    upstream request, and the locals at that point. *)
Definition ServeHTTP (allowFunc : AllowFunc) (r : Request) (body : option Stream)
  : Served * PeekState :=
  match allowFunc PeekState r bodyReader (initialState body) with
  | (Some err, st) =>
      let st' :=
        match st.(Body) with
        | Some b =>
            if negb st.(bodyConsumed)
            then mkPeekState st.(cachedBody) st.(bodyConsumed) (Some (Close b))
            else st
        | None => st
        end in
      (ErrorReply StatusForbidden err, st')
  | (None, st) =>
      let upstreamBody :=
        if st.(bodyConsumed) then Replay st.(cachedBody)
        else PassThrough st.(Body) in
      let upstreamURL := buildUpstreamURL r in
      if newRequestFails r.(Method) upstreamURL then
        (ErrorReply StatusInternalServerError "failed to build upstream request", st)
      else
        (Dispatched
           (mkUpstream r.(Method) upstreamURL upstreamBody
              (if st.(bodyConsumed) then Some (len st.(cachedBody)) else None)),
         st)
  end.

(** The verdict of a policy in the setting of the tests: a request with
    the given method and path, and a peeker that returns the given body. *)
Definition readOnlyVerdict (method path body : gostring) : option error :=
  fst (AllowReadOnly (mkRequest method path []) (mockBodyPeeker body) tt).

Definition readWriteVerdict (method path body : gostring) : option error :=
  fst (AllowReadWrite (mkRequest method path []) (mockBodyPeeker body) tt).

(* ================================================================ *)
(** ** The specification's wording, for comparison with the code *)

(** A database name: one or more characters of [[A-Za-z0-9_-]]. *)
Definition validDBName (name : gostring) : Prop :=
  name <> [] /\ forallb isDBNameChar name = true.

(** A name that is empty or has a character outside the class. *)
Definition invalidDBName (name : gostring) : Prop :=
  name = [] \/ existsb (fun c => negb (isDBNameChar c)) name = true.

(** The cursor endpoint of the specification: an optional database
    prefix, [/_api/cursor], an optional [/<digits>], nothing else. *)
Definition cursorSuffix (suffix : gostring) : Prop :=
  suffix = "/_api/cursor" \/
  exists id, suffix = "/_api/cursor/" ++ id /\ id <> [] /\ forallb isDigit id = true.

Definition cursorEndpointShape (path : gostring) : Prop :=
  exists prefix suffix,
    path = prefix ++ suffix /\
    (prefix = [] \/ exists name, prefix = "/_db/" ++ name /\ validDBName name) /\
    cursorSuffix suffix.

(** The path has an element equal to [..]. *)
Definition hasDotDotSegment (path : gostring) : bool :=
  existsb (fun e => gostring_eqb e "..") (Filepath.elements path).

(** The normalized path. *)
Definition normalize (path : gostring) : gostring :=
  let cleanPath := Filepath.Clean path in
  if negb (HasPrefix cleanPath "/") then "/" ++ cleanPath else cleanPath.

(** [path] is [apiPath], or [apiPath] followed by [/] or [?]. *)
Definition atBoundary (path apiPath : gostring) : Prop :=
  path = apiPath \/
  exists t, path = apiPath ++ "/" ++ t \/ path = apiPath ++ "?" ++ t.

(** The contract of [hasAPIPrefix] as the specification words it, for a
    given test [rejected] of the raw path: the normalized path matches
    directly, or after a database prefix whose name is valid and is a
    whole path element. *)
Definition hasAPIPrefixSpec (rejected : gostring -> bool) (path apiPath : gostring)
  : Prop :=
  rejected path = false /\
  (atBoundary (normalize path) apiPath \/
   exists name rest,
     normalize path = "/_db/" ++ name ++ rest /\ validDBName name /\
     HasPrefix rest "/" = true /\ atBoundary rest apiPath).

(** The effective limit of the specification: the limit clamped to the
    ceiling, a limit of zero or less standing for the ceiling. *)
Definition effectiveLimitSpec (limit : Z) : Z :=
  if limit <=? 0 then MaxBodyPeekSize else Z.min limit MaxBodyPeekSize.

(** The limit [bodyReader] computes. *)
Definition effectiveLimitOf (limit : Z) : Z :=
  if (limit <=? 0) || (MaxBodyPeekSize <? limit) then MaxBodyPeekSize else limit.

(** The bytes of the inbound stream not read yet. *)
Definition unread (st : PeekState) : gostring :=
  match st.(Body) with
  | Some b => b.(pending)
  | None => []
  end.

(** A body of the given bytes that reads without failure. *)
Definition wholeBody (data : gostring) : option Stream :=
  Some (mkStream data None false).

(** A maximal run, inside [s], of bytes that are not separators: it is
    not empty, and on each side it meets the end of [s] or a separator. *)
Definition maximalRun (sep : ascii -> bool) (t s : gostring) : Prop :=
  t <> [] /\ forallb (fun c => negb (sep c)) t = true /\
  exists before after,
    s = before ++ t ++ after /\
    (before = [] \/ exists b c, before = b ++ [c] /\ sep c = true) /\
    (after = [] \/ exists c a, after = c :: a /\ sep c = true).

(** A maximal run of letters [A-Z] inside [s]. *)
Definition maximalLetterRun (t s : gostring) : Prop :=
  maximalRun notUpperLetter t s.

(* ================================================================ *)
(** ** Auxiliary notions of the proofs *)

(** The elements [Clean] keeps when there is no [..] to resolve. *)
Definition keptElement (e : gostring) : bool :=
  negb (gostring_eqb e "") && negb (gostring_eqb e ".").

(** The number of slashes of a string. *)
Definition countSlash (s : gostring) : nat := List.length (filter Filepath.isSlash s).

(** A string without a slash. *)
Definition noSlash (s : gostring) : bool :=
  forallb (fun c => negb (byte_eqb c "/")) s.

(** The paths on which PUT, PATCH and DELETE are allowed. *)
Definition modifyAPIPaths : list gostring :=
  [lit "/_api/document"; lit "/_api/collection"; lit "/_api/index"].

Definition onAPIPath (path : gostring) (apiPaths : list gostring) : bool :=
  existsb (fun apiPath => HasAPIPathPrefix path apiPath) apiPaths.

(** What may follow an API path at a boundary. *)
Definition boundaryTail (tail : gostring) : Prop :=
  tail = [] \/ exists x, tail = "/" ++ x \/ tail = "?" ++ x.

(* ================================================================ *)
(** ** The code on the examples of the tests *)

Example cursor_ok : IsCursorPath "/_db/my-db/_api/cursor/999" = true.
Proof. vm_compute. reflexivity. Qed.
Example cursor_bad : IsCursorPath "/_api/cursor/" = false.
Proof. vm_compute. reflexivity. Qed.
Example clean1 : Filepath.Clean "/../a/b/../././/c" = "/a/c".
Proof. vm_compute. reflexivity. Qed.
Example clean2 : Filepath.Clean "a/../.." = "..".
Proof. vm_compute. reflexivity. Qed.
Example clean3 : Filepath.Clean "../../a/b/../c/" = "../../a/c".
Proof. vm_compute. reflexivity. Qed.
Example clean4 : Filepath.Clean "/" = "/" /\ Filepath.Clean "//" = "/" /\ Filepath.Clean "a/" = "a" /\ Filepath.Clean "./" = ".".
Proof. vm_compute. auto. Qed.
Example hp1 : HasAPIPathPrefix "/_db/my-db/_api/index" "/_api/index" = true.
Proof. vm_compute. reflexivity. Qed.
Example hp2 : HasAPIPathPrefix "/_db//_api/document" "/_api/document" = false.
Proof. vm_compute. reflexivity. Qed.
Example hp3 : HasAPIPathPrefix "/_db/x//_api/document" "/_api/document" = true.
Proof. vm_compute. reflexivity. Qed.
Example hp4 : HasAPIPathPrefix "/_api/document/a..b" "/_api/document" = false.
Proof. vm_compute. reflexivity. Qed.
Example ex1 : exceedsError 131072 = "request body exceeds inspection limit (131072 bytes)".
Proof. vm_compute. reflexivity. Qed.

Example json1 : Json.unmarshalQuery (queryPayload "FOR doc IN c RETURN doc") = Some (lit "FOR doc IN c RETURN doc").
Proof. vm_compute. reflexivity. Qed.
Example json2 : Json.unmarshalQuery "not valid json but contains INSERT" = None.
Proof. vm_compute. reflexivity. Qed.
Example json3 : Json.unmarshalQuery ("{" ++ dquote ++ "a" ++ dquote ++ ": [1, 2.5e3, {}, true, null], " ++ dquote ++ "QUERY" ++ dquote ++ " : " ++ dquote ++ "aA\n" ++ dquote ++ " }  ") = Some ["a";"A";"010"]%char.
Proof. vm_compute. reflexivity. Qed.
Example json4 : Json.unmarshalQuery ("{" ++ dquote ++ "query" ++ dquote ++ ": 1}") = None.
Proof. vm_compute. reflexivity. Qed.

(* ================================================================ *)
(** ** Facts about the string functions *)

Lemma byte_eqb_eq (a b : ascii) : byte_eqb a b = true <-> a = b.
Proof. unfold byte_eqb. apply Ascii.eqb_eq. Qed.

Lemma byte_eqb_refl (a : ascii) : byte_eqb a a = true.
Proof. apply byte_eqb_eq. reflexivity. Qed.

Lemma gostring_eqb_eq (a b : gostring) : gostring_eqb a b = true <-> a = b.
Proof.
  revert b. induction a as [|x a IH]; intros [|y b]; simpl; split; intro H;
    try reflexivity; try discriminate.
  - apply andb_true_iff in H. destruct H as [H1 H2].
    apply byte_eqb_eq in H1. apply IH in H2. subst. reflexivity.
  - inversion H; subst. rewrite byte_eqb_refl. simpl. apply IH. reflexivity.
Qed.

Lemma gostring_eqb_refl (a : gostring) : gostring_eqb a a = true.
Proof. apply gostring_eqb_eq. reflexivity. Qed.

Lemma gostring_eqb_neq (a b : gostring) : gostring_eqb a b = false <-> a <> b.
Proof.
  split; intro H.
  - intro E. apply gostring_eqb_eq in E. congruence.
  - destruct (gostring_eqb a b) eqn:E; [|reflexivity].
    apply gostring_eqb_eq in E. contradiction.
Qed.

Lemma HasPrefix_iff (s p : gostring) :
  HasPrefix s p = true <-> exists t, s = p ++ t.
Proof.
  revert s. induction p as [|c p IH]; intros s; simpl.
  - split; [intros _; exists s; reflexivity | reflexivity].
  - destruct s as [|d s].
    + split; [discriminate | intros [t H]; discriminate].
    + rewrite andb_true_iff, byte_eqb_eq, IH. split.
      * intros [-> [t ->]]. exists t. reflexivity.
      * intros [t H]. inversion H; subst. split; [reflexivity | exists t; reflexivity].
Qed.

Lemma HasPrefix_app (p t : gostring) : HasPrefix (p ++ t) p = true.
Proof. apply HasPrefix_iff. exists t. reflexivity. Qed.

(** A non-negative [Index] cuts the string at an occurrence. *)
Lemma Index_found (s sub : gostring) :
  0 <= Index s sub ->
  HasPrefix (slice_from s (Index s sub)) sub = true /\
  len (slice_to s (Index s sub)) = Index s sub.
Proof.
  unfold slice_from, slice_to, len.
  induction s as [|c s IH]; simpl.
  - destruct (HasPrefix [] sub) eqn:E; simpl; [auto | lia].
  - destruct (HasPrefix (c :: s) sub) eqn:E; simpl; [auto|].
    destruct (Index s sub <? 0) eqn:E1; [lia|].
    apply Z.ltb_ge in E1. intros _.
    destruct (IH E1) as [IH1 IH2].
    replace (Z.to_nat (Index s sub + 1)) with (S (Z.to_nat (Index s sub))) by lia.
    simpl. split; [exact IH1 | lia].
Qed.

Lemma Index_at_prefix (s sub : gostring) :
  HasPrefix s sub = true -> Index s sub = 0.
Proof. intro H. destruct s; simpl; rewrite H; reflexivity. Qed.

Lemma Contains_intro (a sub b : gostring) : Contains (a ++ sub ++ b) sub = true.
Proof.
  unfold Contains. apply Z.leb_le.
  induction a as [|c a IH]; simpl.
  - rewrite Index_at_prefix; [lia | apply HasPrefix_app].
  - destruct (HasPrefix (c :: a ++ sub ++ b) sub); [lia|].
    destruct (Index (a ++ sub ++ b) sub <? 0) eqn:E; [|lia].
    apply Z.ltb_lt in E. lia.
Qed.

Lemma Contains_iff (s sub : gostring) :
  Contains s sub = true <-> exists a b, s = a ++ sub ++ b.
Proof.
  split.
  - unfold Contains. intro H. apply Z.leb_le in H.
    destruct (Index_found s sub H) as [H1 _].
    apply HasPrefix_iff in H1. destruct H1 as [t Ht].
    exists (slice_to s (Index s sub)), t.
    rewrite <- Ht. unfold slice_to, slice_from. symmetry. apply firstn_skipn.
  - intros [a [b ->]]. apply Contains_intro.
Qed.

(* ================================================================ *)
(** ** The derivative matcher decides the words of an expression *)

Lemma re_nullable_nil (r : Regexp.t) :
  Regexp.nullable r = true <-> Regexp.In r [].
Proof.
  split.
  - induction r; simpl; intro H; try discriminate.
    + constructor.
    + apply andb_true_iff in H. destruct H as [H1 H2].
      change (@nil ascii) with (@nil ascii ++ []). constructor; auto.
    + apply orb_true_iff in H. destruct H as [H|H].
      * apply Regexp.in_or_l; auto.
      * apply Regexp.in_or_r; auto.
    + constructor.
  - intro H. remember (@nil ascii) as w eqn:Ew.
    induction H; simpl; try reflexivity; try discriminate.
    + apply app_eq_nil in Ew. destruct Ew as [-> ->].
      rewrite IHIn1, IHIn2; auto.
    + rewrite IHIn; auto.
    + rewrite IHIn; auto. apply orb_true_r.
Qed.

Lemma re_star_cons (r : Regexp.t) (c : ascii) (w : gostring) :
  Regexp.In (Regexp.Star r) (c :: w) ->
  exists w1 w2, w = w1 ++ w2 /\ Regexp.In r (c :: w1) /\ Regexp.In (Regexp.Star r) w2.
Proof.
  intro H. remember (Regexp.Star r) as sr eqn:Er. remember (c :: w) as cw eqn:Ew.
  induction H; try discriminate.
  inversion Er; subst r0. clear Er.
  destruct w1 as [|d w1].
  - simpl in Ew. apply IHIn2; auto.
  - simpl in Ew. inversion Ew; subst. exists w1, w2. auto.
Qed.

Lemma re_deriv (c : ascii) (r : Regexp.t) (w : gostring) :
  Regexp.In (Regexp.deriv c r) w <-> Regexp.In r (c :: w).
Proof.
  revert w. induction r as [| |f|r1 IH1 r2 IH2|r1 IH1 r2 IH2|r IH]; intro w; simpl.
  - split; intro H; inversion H.
  - split; intro H; inversion H.
  - destruct (f c) eqn:Ef; split; intro H.
    + inversion H; subst. constructor. exact Ef.
    + inversion H; subst. constructor.
    + inversion H.
    + inversion H; subst. congruence.
  - assert (Hseq : forall v, Regexp.In (Regexp.Seq (Regexp.deriv c r1) r2) v ->
                             Regexp.In (Regexp.Seq r1 r2) (c :: v)).
    { intros v H. inversion H; subst.
      change (c :: w1 ++ w2) with ((c :: w1) ++ w2).
      constructor; [apply IH1|]; assumption. }
    destruct (Regexp.nullable r1) eqn:En; split; intro H.
    + inversion H; subst.
      * apply Hseq. assumption.
      * change (c :: w) with ([] ++ c :: w). constructor.
        -- apply re_nullable_nil. exact En.
        -- apply IH2. assumption.
    + inversion H; subst. destruct w1 as [|d w1]; simpl in *.
      * subst w2. apply Regexp.in_or_r. apply IH2. assumption.
      * match goal with E : _ :: _ = _ :: _ |- _ => inversion E; subst end.
        apply Regexp.in_or_l. constructor; [apply IH1|]; assumption.
    + apply Hseq. assumption.
    + inversion H; subst. destruct w1 as [|d w1]; simpl in *.
      * match goal with H1 : Regexp.In r1 [] |- _ =>
          apply re_nullable_nil in H1; congruence end.
      * match goal with E : _ :: _ = _ :: _ |- _ => inversion E; subst end.
        constructor; [apply IH1|]; assumption.
  - split; intro H; inversion H; subst.
    + apply Regexp.in_or_l. apply IH1. assumption.
    + apply Regexp.in_or_r. apply IH2. assumption.
    + apply Regexp.in_or_l. apply IH1. assumption.
    + apply Regexp.in_or_r. apply IH2. assumption.
  - split; intro H.
    + inversion H; subst.
      change (c :: w1 ++ w2) with ((c :: w1) ++ w2).
      constructor; [apply IH|]; assumption.
    + apply re_star_cons in H. destruct H as [w1 [w2 [-> [H1 H2]]]].
      constructor; [apply IH|]; assumption.
Qed.

Lemma MatchString_iff (r : Regexp.t) (s : gostring) :
  Regexp.MatchString r s = true <-> Regexp.In r s.
Proof.
  revert r. induction s as [|c s IH]; intro r; simpl.
  - apply re_nullable_nil.
  - rewrite IH. apply re_deriv.
Qed.

(** The words of the building blocks of [cursorPathRegexp]. *)

Lemma re_seq_iff (r1 r2 : Regexp.t) (w : gostring) :
  Regexp.In (Regexp.Seq r1 r2) w <->
  exists w1 w2, w = w1 ++ w2 /\ Regexp.In r1 w1 /\ Regexp.In r2 w2.
Proof.
  split.
  - intro H. inversion H; subst. eauto.
  - intros [w1 [w2 [-> [H1 H2]]]]. constructor; assumption.
Qed.

Lemma re_opt_iff (r : Regexp.t) (w : gostring) :
  Regexp.In (Regexp.Opt r) w <-> w = [] \/ Regexp.In r w.
Proof.
  unfold Regexp.Opt. split.
  - intro H. inversion H; subst.
    + match goal with H1 : Regexp.In Regexp.Empty _ |- _ => inversion H1 end. auto.
    + auto.
  - intros [-> | H].
    + apply Regexp.in_or_l. constructor.
    + apply Regexp.in_or_r. assumption.
Qed.

Lemma re_lit_iff (s w : gostring) : Regexp.In (Regexp.Lit s) w <-> w = s.
Proof.
  revert w. induction s as [|c s IH]; intro w; simpl.
  - split; intro H; [inversion H | subst; constructor]; reflexivity.
  - rewrite re_seq_iff. split.
    + intros [w1 [w2 [-> [H1 H2]]]]. apply IH in H2. subst.
      unfold Regexp.Byte in H1. inversion H1; subst.
      match goal with E : byte_eqb _ _ = true |- _ => apply byte_eqb_eq in E; subst end.
      reflexivity.
    + intros ->. exists [c], s. split; [reflexivity|]. split.
      * constructor. apply byte_eqb_refl.
      * apply IH. reflexivity.
Qed.

Lemma re_star_class_iff (f : ascii -> bool) (w : gostring) :
  Regexp.In (Regexp.Star (Regexp.Class f)) w <-> forallb f w = true.
Proof.
  split.
  - intro H. remember (Regexp.Star (Regexp.Class f)) as sr eqn:Er.
    induction H; try discriminate; [reflexivity|].
    inversion Er; subst. inversion H; subst. simpl.
    match goal with E : f _ = true |- _ => rewrite E end. simpl. auto.
  - induction w as [|c w IH]; simpl; intro H.
    + constructor.
    + apply andb_true_iff in H. destruct H as [H1 H2].
      change (c :: w) with ([c] ++ w). constructor; [constructor|]; auto.
Qed.

Lemma re_plus_class_iff (f : ascii -> bool) (w : gostring) :
  Regexp.In (Regexp.Plus (Regexp.Class f)) w <-> w <> [] /\ forallb f w = true.
Proof.
  unfold Regexp.Plus. rewrite re_seq_iff. split.
  - intros [w1 [w2 [-> [H1 H2]]]]. inversion H1; subst.
    apply re_star_class_iff in H2. simpl. split; [discriminate|].
    match goal with E : f _ = true |- _ => rewrite E end. exact H2.
  - intros [Hne H]. destruct w as [|c w]; [contradiction|].
    simpl in H. apply andb_true_iff in H. destruct H as [H1 H2].
    exists [c], w. split; [reflexivity|]. split.
    + constructor. exact H1.
    + apply re_star_class_iff. exact H2.
Qed.

(* ================================================================ *)
(** ** Facts about [Filepath.Clean] and path elements *)

Lemma elements_nonempty (s : gostring) : Filepath.elements s <> [].
Proof.
  destruct s as [|c s]; simpl; [discriminate|].
  destruct (Filepath.isSlash c); [discriminate|].
  destruct (Filepath.elements s); discriminate.
Qed.

(** Every element of a path occurs in it. *)
Lemma element_occurs (s e : gostring) :
  In e (Filepath.elements s) -> exists a b, s = a ++ e ++ b.
Proof.
  revert e. induction s as [|c s IH]; simpl; intros e H.
  - destruct H as [<-|[]]. exists [], []. reflexivity.
  - destruct (Filepath.isSlash c) eqn:Ec.
    + destruct H as [<-|H].
      * exists [], (c :: s). reflexivity.
      * destruct (IH e H) as [a [b ->]]. exists (c :: a), b. reflexivity.
    + destruct (Filepath.elements s) as [|e0 es] eqn:Ee.
      * destruct H as [<-|[]]. exfalso. apply (elements_nonempty s). exact Ee.
      * destruct H as [<-|H].
        -- destruct (IH e0 (or_introl eq_refl)) as [a [b Hs]].
           (* the first element starts the string *)
           assert (Hfirst : exists b', s = e0 ++ b').
           { clear -Ee. revert e0 es Ee. induction s as [|d s IHs]; simpl; intros e0 es Ee.
             - inversion Ee; subst. exists []. reflexivity.
             - destruct (Filepath.isSlash d).
               + inversion Ee; subst. exists (d :: s). reflexivity.
               + destruct (Filepath.elements s) as [|e1 es1] eqn:E1.
                 * inversion Ee; subst. exfalso. apply (elements_nonempty s). exact E1.
                 * inversion Ee; subst. destruct (IHs e1 es eq_refl) as [b' ->].
                   exists b'. reflexivity. }
           destruct Hfirst as [b' ->]. exists [], b'. reflexivity.
        -- destruct (IH e (or_intror H)) as [a [b ->]]. exists (c :: a), b. reflexivity.
Qed.

Lemma dotdot_segment_contains (path : gostring) :
  hasDotDotSegment path = true -> Contains path ".." = true.
Proof.
  unfold hasDotDotSegment. intro H. apply existsb_exists in H.
  destruct H as [e [Hin He]]. apply gostring_eqb_eq in He. subst e.
  apply element_occurs in Hin. destruct Hin as [a [b ->]].
  apply Contains_intro.
Qed.

Lemma cleanStep_plain (rooted : bool) (out : list gostring) (e : gostring) :
  gostring_eqb e ".." = false ->
  Filepath.cleanStep rooted out e = if keptElement e then e :: out else out.
Proof.
  intro H. unfold Filepath.cleanStep, keptElement. rewrite H.
  destruct (gostring_eqb e ""); destruct (gostring_eqb e "."); reflexivity.
Qed.

Lemma clean_fold_plain (rooted : bool) (es : list gostring) (out : list gostring) :
  existsb (fun e => gostring_eqb e "..") es = false ->
  fold_left (Filepath.cleanStep rooted) es out = rev (filter keptElement es) ++ out.
Proof.
  revert out. induction es as [|e es IH]; simpl; intros out H; [reflexivity|].
  apply orb_false_iff in H. destruct H as [He Hes].
  rewrite cleanStep_plain by exact He. rewrite IH by exact Hes.
  destruct (keptElement e); simpl; [|reflexivity].
  rewrite <- app_assoc. reflexivity.
Qed.

(** A rooted path free of [..]: [Clean] joins the elements it keeps. *)
Lemma Clean_rooted_plain (t : gostring) :
  Contains ("/" ++ t) ".." = false ->
  Filepath.Clean ("/" ++ t) = "/" ++ Filepath.join (filter keptElement (Filepath.elements t)).
Proof.
  intro H.
  assert (Hno : existsb (fun e => gostring_eqb e "..") (Filepath.elements ("/" ++ t)) = false).
  { destruct (existsb (fun e => gostring_eqb e "..") (Filepath.elements ("/" ++ t))) eqn:E;
      [|reflexivity].
    apply dotdot_segment_contains in E. congruence. }
  change (lit "/" ++ t) with ("/"%char :: t) in *.
  unfold Filepath.Clean. change (Filepath.isSlash "/") with true. cbv iota.
  rewrite clean_fold_plain by exact Hno.
  rewrite app_nil_r, rev_involutive. reflexivity.
Qed.

(* ================================================================ *)
(** ** The path matcher *)

Lemma byte_at_app (a t : gostring) : byte_at (a ++ t) (len a) = nth_error t 0.
Proof.
  unfold byte_at, len. rewrite Nat2Z.id.
  rewrite nth_error_app2 by lia. rewrite Nat.sub_diag. reflexivity.
Qed.

Lemma len_app (a b : gostring) : len (a ++ b) = len a + len b.
Proof. unfold len. rewrite length_app. lia. Qed.

Lemma len_nonneg (a : gostring) : 0 <= len a.
Proof. unfold len. lia. Qed.

Lemma len_zero (a : gostring) : len a = 0 -> a = [].
Proof. unfold len. destruct a; simpl; [reflexivity | lia]. Qed.

Lemma matchesAPIPath_iff (path apiPath : gostring) :
  matchesAPIPath path apiPath = true <-> atBoundary path apiPath.
Proof.
  unfold matchesAPIPath, atBoundary. split.
  - destruct (HasPrefix path apiPath) eqn:Hp; simpl; [|discriminate].
    apply HasPrefix_iff in Hp. destruct Hp as [t ->].
    rewrite len_app, byte_at_app.
    destruct t as [|c t].
    + intros _. left. apply app_nil_r.
    + destruct (len apiPath + len (c :: t) =? len apiPath) eqn:E.
      { apply Z.eqb_eq in E. unfold len in E. simpl in E. lia. }
      cbn [nth_error]. intro H. right. exists t. apply orb_true_iff in H.
      destruct H as [H|H]; apply byte_eqb_eq in H; subst c; [left | right]; reflexivity.
  - intros [-> | [t [-> | ->]]].
    + rewrite (proj2 (HasPrefix_iff apiPath apiPath)) by (exists []; symmetry; apply app_nil_r).
      simpl. rewrite Z.eqb_refl. reflexivity.
    + rewrite HasPrefix_app. simpl. rewrite len_app, byte_at_app.
      change (lit "/" ++ t) with ("/"%char :: t).
      destruct (len apiPath + len ("/"%char :: t) =? len apiPath); reflexivity.
    + rewrite HasPrefix_app. simpl. rewrite len_app, byte_at_app.
      change (lit "?" ++ t) with ("?"%char :: t).
      destruct (len apiPath + len ("?"%char :: t) =? len apiPath); reflexivity.
Qed.

Lemma dbNameChar_not_slash (c : ascii) : isDBNameChar c = true -> byte_eqb c "/" = false.
Proof.
  intro H. destruct (byte_eqb c "/") eqn:E; [|reflexivity].
  apply byte_eqb_eq in E. subst c. vm_compute in H. discriminate.
Qed.

(** The first slash after a run of bytes without one. *)
Lemma Index_first_slash (name t : gostring) :
  forallb (fun c => negb (byte_eqb c "/")) name = true ->
  Index (name ++ "/" ++ t) "/" = len name.
Proof.
  unfold len. induction name as [|c name IH]; intro H.
  - reflexivity.
  - simpl in H. apply andb_true_iff in H. destruct H as [Hc Hn].
    apply negb_true_iff in Hc. specialize (IH Hn).
    change ((c :: name) ++ lit "/" ++ t) with (c :: (name ++ lit "/" ++ t)).
    cbn [Index]. change (lit "/") with ["/"%char] in *. cbn [HasPrefix].
    rewrite Hc. cbn [andb]. rewrite IH.
    destruct (Z.of_nat (List.length name) <? 0) eqn:E; [apply Z.ltb_lt in E; lia|].
    cbn [List.length]. lia.
Qed.

Lemma validDBName_no_slash (name : gostring) :
  forallb isDBNameChar name = true ->
  forallb (fun c => negb (byte_eqb c "/")) name = true.
Proof.
  intro H. apply forallb_forall. intros c Hc.
  rewrite forallb_forall in H. rewrite dbNameChar_not_slash; auto.
Qed.

Lemma firstn_len_app (a b : gostring) : slice_to (a ++ b) (len a) = a.
Proof.
  unfold slice_to, len. rewrite Nat2Z.id. rewrite firstn_app, Nat.sub_diag.
  simpl. rewrite app_nil_r. apply firstn_all.
Qed.

Lemma skipn_len_app (a b : gostring) : slice_from (a ++ b) (len a) = b.
Proof.
  unfold slice_from, len. rewrite Nat2Z.id. rewrite skipn_app, Nat.sub_diag.
  simpl. rewrite skipn_all. reflexivity.
Qed.

Lemma HasAPIPathPrefix_unfold (path apiPath : gostring) :
  HasAPIPathPrefix path apiPath =
  if Contains path ".." then false
  else if matchesAPIPath (normalize path) apiPath then true
  else if HasPrefix (normalize path) "/_db/" then
    if 0 <? Index (slice_from (normalize path) 5) "/" then
      if forallb isDBNameChar
           (slice_to (slice_from (normalize path) 5)
              (Index (slice_from (normalize path) 5) "/"))
      then matchesAPIPath
             (slice_from (slice_from (normalize path) 5)
                (Index (slice_from (normalize path) 5) "/")) apiPath
      else false
    else false
  else false.
Proof.
  unfold HasAPIPathPrefix, normalize. cbv zeta.
  destruct (Contains path ".."); [reflexivity|].
  destruct (matchesAPIPath _ apiPath); [reflexivity|].
  destruct (HasPrefix _ "/_db/"); [|reflexivity].
  destruct (0 <? _); [|reflexivity].
  destruct (forallb _ _); [|reflexivity].
  destruct (matchesAPIPath _ apiPath); reflexivity.
Qed.

(** [HasAPIPathPrefix] against the contract, the raw path being rejected
    when it has [..] anywhere. *)
Lemma HasAPIPathPrefix_spec (path apiPath : gostring) :
  HasAPIPathPrefix path apiPath = true <->
  hasAPIPrefixSpec (fun p => Contains p "..") path apiPath.
Proof.
  rewrite HasAPIPathPrefix_unfold. unfold hasAPIPrefixSpec.
  destruct (Contains path "..") eqn:Hc.
  { split; [discriminate | intros [H _]; discriminate]. }
  destruct (matchesAPIPath (normalize path) apiPath) eqn:Hm.
  { split; [|reflexivity]. intros _. split; [reflexivity|].
    left. apply matchesAPIPath_iff. exact Hm. }
  split.
  - destruct (HasPrefix (normalize path) "/_db/") eqn:Hp; [|discriminate].
    apply HasPrefix_iff in Hp. destruct Hp as [rest Hrest]. rewrite Hrest.
    change 5 with (len (lit "/_db/")). rewrite skipn_len_app.
    destruct (0 <? Index rest "/") eqn:Hi; [|discriminate].
    apply Z.ltb_lt in Hi.
    destruct (forallb isDBNameChar (slice_to rest (Index rest "/"))) eqn:Hv; [|discriminate].
    destruct (matchesAPIPath (slice_from rest (Index rest "/")) apiPath) eqn:Hm2;
      [|discriminate].
    intros _. split; [reflexivity|]. right.
    destruct (Index_found rest "/" ltac:(lia)) as [Hf Hl].
    exists (slice_to rest (Index rest "/")), (slice_from rest (Index rest "/")).
    split; [|split; [|split]].
    + f_equal. unfold slice_to, slice_from. symmetry. apply firstn_skipn.
    + split; [|exact Hv]. intro E. rewrite E in Hl. change (len []) with 0 in Hl. lia.
    + exact Hf.
    + apply matchesAPIPath_iff. exact Hm2.
  - intros [_ [Hb | [name [rest [Hn [[Hne Hv] [Hs Hb]]]]]]].
    + apply matchesAPIPath_iff in Hb. congruence.
    + rewrite Hn. rewrite HasPrefix_app.
      change 5 with (len (lit "/_db/")). rewrite skipn_len_app.
      apply HasPrefix_iff in Hs. destruct Hs as [t ->].
      rewrite Index_first_slash by (apply validDBName_no_slash; exact Hv).
      assert (Hpos : (0 <? len name) = true).
      { apply Z.ltb_lt. pose proof (len_nonneg name).
        destruct (Z.eq_dec (len name) 0) as [E|E]; [apply len_zero in E; contradiction | lia]. }
      rewrite Hpos. rewrite firstn_len_app, skipn_len_app, Hv.
      apply matchesAPIPath_iff in Hb. rewrite Hb. reflexivity.
Qed.

(* ================================================================ *)
(** ** The cursor endpoint *)

Lemma cursor_suffix_words (w : gostring) :
  Regexp.In (Regexp.Seq (Regexp.Lit "/_api/cursor")
               (Regexp.Opt (Regexp.Seq (Regexp.Lit "/") (Regexp.Plus (Regexp.Class isDigit))))) w
  <-> cursorSuffix w.
Proof.
  unfold cursorSuffix. rewrite re_seq_iff. split.
  - intros [w1 [w2 [-> [H1 H2]]]]. apply re_lit_iff in H1. subst w1.
    apply re_opt_iff in H2. destruct H2 as [-> | H2].
    + left. apply app_nil_r.
    + right. apply re_seq_iff in H2. destruct H2 as [a [id [-> [Ha Hid]]]].
      apply re_lit_iff in Ha. subst a. apply re_plus_class_iff in Hid.
      exists id. split; [reflexivity | exact Hid].
  - intros [-> | [id [-> Hid]]].
    + exists (lit "/_api/cursor"), []. split; [symmetry; apply app_nil_r|]. split.
      * apply re_lit_iff. reflexivity.
      * apply re_opt_iff. left. reflexivity.
    + exists (lit "/_api/cursor"), ("/" ++ id). split; [reflexivity|]. split.
      * apply re_lit_iff. reflexivity.
      * apply re_opt_iff. right. apply re_seq_iff. exists (lit "/"), id.
        split; [reflexivity|]. split; [apply re_lit_iff; reflexivity|].
        apply re_plus_class_iff. exact Hid.
Qed.

Lemma IsCursorPath_shape (path : gostring) :
  IsCursorPath path = true <-> cursorEndpointShape path.
Proof.
  unfold IsCursorPath, cursorEndpointShape, cursorPathRegexp.
  rewrite MatchString_iff, re_seq_iff. split.
  - intros [prefix [suffix [-> [Hp Hs]]]]. exists prefix, suffix.
    split; [reflexivity|]. split; [|apply cursor_suffix_words; exact Hs].
    apply re_opt_iff in Hp. destruct Hp as [-> | Hp]; [left; reflexivity|].
    right. apply re_seq_iff in Hp. destruct Hp as [a [name [-> [Ha Hn]]]].
    apply re_lit_iff in Ha. subst a. apply re_plus_class_iff in Hn.
    exists name. split; [reflexivity | exact Hn].
  - intros [prefix [suffix [-> [Hp Hs]]]]. exists prefix, suffix.
    split; [reflexivity|]. split; [|apply cursor_suffix_words; exact Hs].
    apply re_opt_iff. destruct Hp as [-> | [name [-> Hn]]]; [left; reflexivity|].
    right. apply re_seq_iff. exists (lit "/_db/"), name.
    split; [reflexivity|]. split; [apply re_lit_iff; reflexivity|].
    apply re_plus_class_iff. exact Hn.
Qed.

Lemma countSlash_app (a b : gostring) : countSlash (a ++ b) = (countSlash a + countSlash b)%nat.
Proof. unfold countSlash. rewrite filter_app, length_app. reflexivity. Qed.

Lemma digits_no_slash (id : gostring) : forallb isDigit id = true -> countSlash id = 0%nat.
Proof.
  unfold countSlash. induction id as [|c id IH]; simpl; intro H; [reflexivity|].
  apply andb_true_iff in H. destruct H as [Hc Hid].
  destruct (Filepath.isSlash c) eqn:E.
  - apply byte_eqb_eq in E. subst c. vm_compute in Hc. discriminate.
  - apply IH. exact Hid.
Qed.

Lemma cursorSuffix_slashes (s : gostring) :
  cursorSuffix s -> (2 <= countSlash s <= 3)%nat /\ HasPrefix s "/_api/cursor" = true.
Proof.
  intros [-> | [id [-> [_ Hd]]]].
  - split; [vm_compute; lia | reflexivity].
  - split; [|reflexivity].
    rewrite countSlash_app, (digits_no_slash id Hd).
    change (countSlash (lit "/_api/cursor/")) with 3%nat. lia.
Qed.

(** A cursor suffix does not end another one that starts later. *)
Lemma cursorSuffix_not_nested (mid s s' : gostring) :
  cursorSuffix s -> cursorSuffix s' -> s' = "/" ++ mid ++ s -> False.
Proof.
  intros Hs Hs' E.
  pose proof (cursorSuffix_slashes Hs) as [Hc _].
  assert (Hcount : countSlash s' = (1 + countSlash mid + countSlash s)%nat).
  { rewrite E. rewrite !countSlash_app. reflexivity. }
  pose proof (cursorSuffix_slashes Hs') as [Hc' _].
  destruct Hs' as [-> | [id' [-> [Hne' Hd']]]].
  - change (countSlash (lit "/_api/cursor")) with 2%nat in Hcount. lia.
  - (* the outer suffix ends with a digit *)
    assert (Hs2 : countSlash s = 2%nat).
    { rewrite countSlash_app, (digits_no_slash id' Hd') in Hcount.
      change (countSlash (lit "/_api/cursor/")) with 3%nat in Hcount. lia. }
    destruct Hs as [-> | [id [-> [Hne Hd]]]].
    + apply (f_equal (@rev ascii)) in E.
      rewrite !rev_app_distr in E.
      destruct (rev id') as [|d r] eqn:Er.
      * apply (f_equal (@rev ascii)) in Er. rewrite rev_involutive in Er.
        simpl in Er. contradiction.
      * assert (Hd1 : isDigit d = true).
        { rewrite forallb_forall in Hd'. apply Hd'. apply in_rev. rewrite Er. left. reflexivity. }
        simpl in E. inversion E; subst d. vm_compute in Hd1. discriminate.
    + rewrite countSlash_app, (digits_no_slash id Hd) in Hs2.
      change (countSlash (lit "/_api/cursor/")) with 3%nat in Hs2. lia.
Qed.

Lemma valid_invalid_name (n : gostring) : validDBName n -> invalidDBName n -> False.
Proof.
  intros [Hne Hv] [-> | Hi]; [contradiction|].
  apply existsb_exists in Hi. destruct Hi as [c [Hin Hc]].
  rewrite forallb_forall in Hv. rewrite (Hv c Hin) in Hc. discriminate.
Qed.

(** [IsCursorPath] rejects every path whose database name is not valid. *)
Lemma IsCursorPath_invalid_name (name suffix : gostring) :
  invalidDBName name -> cursorSuffix suffix ->
  IsCursorPath ("/_db/" ++ name ++ suffix) = false.
Proof.
  intros Hi Hs. destruct (IsCursorPath ("/_db/" ++ name ++ suffix)) eqn:E; [|reflexivity].
  exfalso. apply IsCursorPath_shape in E.
  destruct E as [prefix [suffix' [E [Hp Hs']]]].
  pose proof (cursorSuffix_slashes Hs) as [_ Hpre].
  pose proof (cursorSuffix_slashes Hs') as [_ Hpre'].
  destruct Hp as [-> | [n [-> Hn]]].
  - apply HasPrefix_iff in Hpre'. destruct Hpre' as [t ->].
    simpl in E. inversion E.
  - rewrite <- app_assoc in E. apply app_inv_head in E.
    assert (Hsl : HasPrefix suffix "/" = true).
    { apply HasPrefix_iff in Hpre. destruct Hpre as [t ->]. reflexivity. }
    assert (Hsl' : HasPrefix suffix' "/" = true).
    { apply HasPrefix_iff in Hpre'. destruct Hpre' as [t ->]. reflexivity. }
    (* the valid name [n] is a prefix of [name] *)
    assert (Hcut : exists rest, name = n ++ rest).
    { clear Hi Hs Hs' Hpre Hpre'. destruct Hn as [_ Hv].
      revert name E. induction n as [|d n IH]; intros name E.
      - exists name. reflexivity.
      - simpl in Hv. apply andb_true_iff in Hv. destruct Hv as [Hd Hv].
        destruct name as [|c name].
        + simpl in E. apply HasPrefix_iff in Hsl. destruct Hsl as [t ->].
          inversion E; subst d. vm_compute in Hd. discriminate.
        + simpl in E. inversion E; subst d.
          destruct (IH Hv name H1) as [rest ->]. exists rest. reflexivity. }
    destruct Hcut as [rest ->]. rewrite <- app_assoc in E. apply app_inv_head in E.
    destruct rest as [|c rest].
    + rewrite app_nil_r in Hi. exact (valid_invalid_name Hn Hi).
    + apply HasPrefix_iff in Hsl'. destruct Hsl' as [t Ht].
      rewrite Ht in E. simpl in E. inversion E; subst c.
      apply (@cursorSuffix_not_nested rest suffix suffix' Hs Hs').
      rewrite Ht. simpl. f_equal. symmetry. assumption.
Qed.

(* ================================================================ *)
(** ** Database names in [HasAPIPathPrefix] *)

Lemma elements_app_first (w t : gostring) :
  noSlash w = true ->
  Filepath.elements (w ++ t) =
  (w ++ hd [] (Filepath.elements t)) :: tl (Filepath.elements t).
Proof.
  unfold noSlash. induction w as [|c w IH]; intro H.
  - simpl. pose proof (elements_nonempty t).
    destruct (Filepath.elements t); [contradiction | reflexivity].
  - simpl in H. apply andb_true_iff in H. destruct H as [Hc Hw].
    apply negb_true_iff in Hc. simpl. unfold Filepath.isSlash. rewrite Hc.
    rewrite (IH Hw). reflexivity.
Qed.

Lemma elements_name_slash (name t : gostring) :
  noSlash name = true ->
  Filepath.elements (name ++ "/" ++ t) = name :: Filepath.elements t.
Proof.
  intro H. rewrite elements_app_first by exact H. simpl. rewrite app_nil_r. reflexivity.
Qed.

Lemma first_slash_unique (a b x y : gostring) :
  noSlash a = true -> noSlash b = true ->
  a ++ "/" ++ x = b ++ "/" ++ y -> a = b /\ x = y.
Proof.
  intros Ha Hb E.
  pose proof (Index_first_slash a x Ha) as Ia.
  pose proof (Index_first_slash b y Hb) as Ib.
  rewrite E in Ia. rewrite Ia in Ib.
  assert (Hab : a = b).
  { rewrite <- (firstn_len_app a ("/" ++ x)), <- (firstn_len_app b ("/" ++ y)).
    rewrite E, Ib. reflexivity. }
  subst b. apply app_inv_head in E. inversion E. auto.
Qed.

(** After the database prefix, the configured API paths. *)
Lemma configured_api (apiPath : gostring) :
  In apiPath AllowedRWAPIPaths ->
  exists w, apiPath = "/_api/" ++ w /\ noSlash w = true /\
            exists c w', w = c :: w' /\ in_range "a" "z" c = true.
Proof.
  intros [<- | [<- | [<- | [<- | []]]]].
  - exists (lit "document"). repeat split. exists "d"%char, (lit "ocument"). split; reflexivity.
  - exists (lit "collection"). repeat split. exists "c"%char, (lit "ollection"). split; reflexivity.
  - exists (lit "index"). repeat split. exists "i"%char, (lit "ndex"). split; reflexivity.
  - exists (lit "import"). repeat split. exists "i"%char, (lit "mport"). split; reflexivity.
Qed.

Lemma join_cons2 (a b : gostring) (rest : list gostring) :
  Filepath.join (a :: b :: rest) = a ++ "/" ++ Filepath.join (b :: rest).
Proof. reflexivity. Qed.

Lemma join_cons_head (e : gostring) (es : list gostring) :
  exists tail, Filepath.join (e :: es) = e ++ tail.
Proof.
  destruct es as [|e' es].
  - exists []. simpl. symmetry. apply app_nil_r.
  - exists ("/" ++ Filepath.join (e' :: es)). reflexivity.
Qed.

Lemma letter_first_kept (c : ascii) (w : gostring) :
  in_range "a" "z" c = true -> keptElement (c :: w) = true.
Proof.
  intro H. unfold keptElement. change (gostring_eqb (c :: w) "") with false.
  destruct (gostring_eqb (c :: w) ".") eqn:E; [|reflexivity].
  apply gostring_eqb_eq in E. inversion E; subst. vm_compute in H. discriminate.
Qed.

(** [HasAPIPathPrefix] rejects a database prefix whose name is one path
    element and is not valid, for the API paths the policies use. *)
Lemma HasAPIPathPrefix_invalid_name (name suffix apiPath : gostring) :
  In apiPath AllowedRWAPIPaths ->
  invalidDBName name -> noSlash name = true ->
  matchesAPIPath suffix apiPath = true ->
  HasAPIPathPrefix ("/_db/" ++ name ++ suffix) apiPath = false.
Proof.
  intros Hapi Hi Hns Hm.
  destruct (HasAPIPathPrefix ("/_db/" ++ name ++ suffix) apiPath) eqn:E; [|reflexivity].
  exfalso. apply HasAPIPathPrefix_spec in E. destruct E as [Hc Hspec].
  destruct (configured_api Hapi) as [w [-> [Hw [c [w' [-> Hletter]]]]]].
  apply matchesAPIPath_iff in Hm.
  assert (Hsuf : exists t, suffix = "/" ++ "_api/" ++ (c :: w') ++ t).
  { destruct Hm as [-> | [t [-> | ->]]].
    - exists []. rewrite app_nil_r. reflexivity.
    - exists ("/" ++ t). rewrite <- !app_assoc. reflexivity.
    - exists ("?" ++ t). rewrite <- !app_assoc. reflexivity. }
  destruct Hsuf as [t ->]. clear Hm.
  (* the normalized path *)
  assert (Hclean : Filepath.Clean ("/_db/" ++ name ++ "/" ++ "_api/" ++ (c :: w') ++ t) =
                   "/" ++ Filepath.join
                     (filter keptElement
                        (lit "_db" :: name :: lit "_api" ::
                           Filepath.elements ((c :: w') ++ t)))).
  { change (lit "/_db/" ++ name ++ lit "/" ++ lit "_api/" ++ (c :: w') ++ t)
      with ("/" ++ (lit "_db/" ++ name ++ lit "/" ++ lit "_api/" ++ (c :: w') ++ t)) in *.
    rewrite (Clean_rooted_plain _ Hc). f_equal. f_equal. f_equal.
    change (lit "_db/" ++ name ++ lit "/" ++ lit "_api/" ++ (c :: w') ++ t)
      with (lit "_db" ++ lit "/" ++ (name ++ lit "/" ++ lit "_api/" ++ (c :: w') ++ t)).
    rewrite elements_name_slash by reflexivity. f_equal.
    rewrite elements_name_slash by exact Hns. f_equal. }
  rewrite elements_app_first in Hclean by exact Hw.
  set (e0 := hd [] (Filepath.elements t)) in *.
  set (es := tl (Filepath.elements t)) in *.
  cbn [filter] in Hclean.
  change (keptElement (lit "_db")) with true in Hclean.
  change (keptElement (lit "_api")) with true in Hclean.
  change ((c :: w') ++ e0) with (c :: (w' ++ e0)) in Hclean.
  rewrite letter_first_kept in Hclean by exact Hletter.
  destruct (join_cons_head (c :: w' ++ e0) (filter keptElement es)) as [tail Htail].
  destruct (keptElement name) eqn:Hk.
  - (* the name stays in the normalized path *)
    assert (Hn : normalize ("/_db/" ++ name ++ "/" ++ "_api/" ++ (c :: w') ++ t) =
                 "/_db/" ++ name ++ "/" ++ "_api/" ++ (c :: w' ++ e0) ++ tail).
    { unfold normalize. rewrite Hclean. rewrite !join_cons2, Htail.
      change (lit "/" ++ lit "_db" ++ lit "/" ++ name ++ lit "/" ++ lit "_api" ++ lit "/" ++
                (c :: w' ++ e0) ++ tail)
        with ("/"%char :: lit "_db/" ++ name ++ lit "/" ++ lit "_api/" ++ (c :: w' ++ e0) ++ tail).
      reflexivity. }
    rewrite Hn in Hspec. destruct Hspec as [Hb | [name' [rest [En [Hv [Hr Hb]]]]]].
    + destruct Hb as [Hb | [x [Hb | Hb]]]; simpl in Hb; inversion Hb.
    + apply app_inv_head in En. apply HasPrefix_iff in Hr. destruct Hr as [r ->].
      apply first_slash_unique in En;
        [| exact Hns | apply validDBName_no_slash; apply Hv].
      destruct En as [-> _]. exact (valid_invalid_name Hv Hi).
  - (* the name is dropped: the element after it is read as the name *)
    assert (Hn : normalize ("/_db/" ++ name ++ "/" ++ "_api/" ++ (c :: w') ++ t) =
                 "/_db/" ++ "_api" ++ "/" ++ (c :: w' ++ e0) ++ tail).
    { unfold normalize. rewrite Hclean. rewrite !join_cons2, Htail. reflexivity. }
    rewrite Hn in Hspec. destruct Hspec as [Hb | [name' [rest [En [Hv [Hr Hb]]]]]].
    + destruct Hb as [Hb | [x [Hb | Hb]]]; simpl in Hb; inversion Hb.
    + apply app_inv_head in En. apply HasPrefix_iff in Hr. destruct Hr as [r ->].
      apply first_slash_unique in En;
        [| reflexivity | apply validDBName_no_slash; apply Hv].
      destruct En as [_ <-].
      destruct Hb as [Hb | [x [Hb | Hb]]]; simpl in Hb; inversion Hb; subst c;
        vm_compute in Hletter; discriminate.
Qed.

(* ================================================================ *)
(** ** The body peeker *)

Lemma readUpTo_split (n : Z) (data : gostring) :
  fst (readUpTo n data) ++ snd (readUpTo n data) = data.
Proof.
  revert n. induction data as [|c data IH]; intro n; simpl; [reflexivity|].
  destruct (n <=? 0); [reflexivity|].
  specialize (IH (n - 1)). destruct (readUpTo (n - 1) data) as [got left].
  simpl in *. rewrite IH. reflexivity.
Qed.

Lemma readUpTo_len (n : Z) (data : gostring) :
  len (fst (readUpTo n data)) = Z.max 0 (Z.min n (len data)).
Proof.
  unfold len. revert n. induction data as [|c data IH]; intro n.
  - simpl. lia.
  - cbn [readUpTo]. destruct (n <=? 0) eqn:E.
    + apply Z.leb_le in E. simpl. lia.
    + apply Z.leb_gt in E. specialize (IH (n - 1)).
      destruct (readUpTo (n - 1) data) as [got left]. simpl in *. lia.
Qed.

Lemma readUpTo_all (n : Z) (data : gostring) :
  len data < n -> readUpTo n data = (data, []).
Proof.
  unfold len. revert n. induction data as [|c data IH]; intros n H.
  - reflexivity.
  - cbn [readUpTo]. destruct (n <=? 0) eqn:E.
    + apply Z.leb_le in E. simpl in H. lia.
    + rewrite IH; [reflexivity|]. simpl in H. lia.
Qed.

Lemma effectiveLimit_clamped (limit : Z) :
  effectiveLimitOf limit = effectiveLimitSpec limit /\
  0 < effectiveLimitOf limit <= MaxBodyPeekSize.
Proof.
  unfold effectiveLimitOf, effectiveLimitSpec, MaxBodyPeekSize.
  destruct (limit <=? 0) eqn:E1;
    destruct (16 * 1024 * 1024 <? limit) eqn:E2; cbn [orb];
    try apply Z.leb_le in E1; try apply Z.leb_gt in E1;
    try apply Z.ltb_lt in E2; try apply Z.ltb_ge in E2; lia.
Qed.

(** The first call on a body that is there, spelled out. *)
Lemma bodyReader_first (limit : Z) (cached : gostring) (body : Stream) :
  bodyReader limit (mkPeekState cached false (Some body)) =
  let eff := effectiveLimitOf limit in
  let got := fst (readUpTo (eff + 1) body.(pending)) in
  let left := snd (readUpTo (eff + 1) body.(pending)) in
  let after := Some (mkStream left body.(failure) true) in
  if eff + 1 - len got <=? 0 then
    (PeekErr (exceedsError eff), mkPeekState cached true after)
  else match body.(failure) with
       | Some err => (PeekErr err, mkPeekState cached true after)
       | None => (PeekOk got, mkPeekState got true after)
       end.
Proof.
  unfold bodyReader, ReadFromLimited, effectiveLimitOf. cbn [bodyConsumed Body cachedBody].
  destruct (readUpTo _ (pending body)) as [got left]. cbn [fst snd].
  destruct (_ + 1 - len got <=? 0) eqn:E; [reflexivity|].
  destruct (failure body); reflexivity.
Qed.

(** Once the body is consumed, a call returns the cache and changes
    nothing. *)
Lemma bodyReader_consumed (limit : Z) (st : PeekState) :
  bodyConsumed st = true -> bodyReader limit st = (PeekOk (cachedBody st), st).
Proof. intro H. unfold bodyReader. rewrite H. reflexivity. Qed.

(** What a successful first call leaves behind. *)
Lemma bodyReader_ok_state (limit : Z) (st st1 : PeekState) (b : gostring) :
  bodyConsumed st = false -> cachedBody st = [] ->
  bodyReader limit st = (PeekOk b, st1) ->
  bodyConsumed st1 = true /\ cachedBody st1 = b /\
  (b = unread st /\ unread st1 = [] \/ Body st = None /\ b = []).
Proof.
  intros Hc Hnil H. destruct st as [cached consumed body]. simpl in Hc, Hnil.
  subst consumed cached.
  destruct body as [body|].
  - rewrite bodyReader_first in H. cbv zeta in H.
    pose proof (readUpTo_split (effectiveLimitOf limit + 1) (pending body)) as Hsplit.
    pose proof (readUpTo_len (effectiveLimitOf limit + 1) (pending body)) as Hlen.
    destruct (readUpTo (effectiveLimitOf limit + 1) (pending body)) as [got left].
    cbn [fst snd] in *.
    destruct (effectiveLimitOf limit + 1 - len got <=? 0) eqn:E; [discriminate|].
    destruct (failure body); [discriminate|].
    inversion H; subst. split; [reflexivity|]. split; [reflexivity|]. left.
    apply Z.leb_gt in E.
    assert (Hall : len (pending body) < effectiveLimitOf limit + 1) by lia.
    unfold unread. cbn [Body pending].
    assert (b = pending body /\ left = []) as [-> ->].
    { clear -Hsplit Hlen Hall. pose proof (len_nonneg (pending body)).
      assert (len b = len (pending body)) by lia.
      assert (left = []).
      { apply (f_equal len) in Hsplit. rewrite len_app in Hsplit.
        apply len_zero. lia. }
      subst left. rewrite app_nil_r in Hsplit. auto. }
    auto.
  - unfold bodyReader in H. simpl in H. inversion H; subst.
    split; [reflexivity|]. split; [reflexivity|]. right. split; reflexivity.
Qed.

(** What a failed first call leaves behind. *)
Lemma bodyReader_err_state (limit : Z) (st st1 : PeekState) (e : error) :
  bodyConsumed st = false -> bodyReader limit st = (PeekErr e, st1) ->
  bodyConsumed st1 = true /\ cachedBody st1 = cachedBody st.
Proof.
  intros Hc H. destruct st as [cached consumed body]. simpl in Hc. subst consumed.
  destruct body as [body|].
  - rewrite bodyReader_first in H. cbv zeta in H.
    destruct (_ <=? 0); [inversion H; subst; auto|].
    destruct (failure body); inversion H; subst; auto.
  - unfold bodyReader in H. simpl in H. discriminate.
Qed.

(* ================================================================ *)
(** ** [FieldsFunc] yields the maximal runs *)

Lemma all_nonsep_no_sep (sep : ascii -> bool) (l : gostring) (c : ascii) :
  forallb (fun c => negb (sep c)) l = true -> In c l -> sep c = true -> False.
Proof.
  intros H Hin Hc. rewrite forallb_forall in H. specialize (H c Hin).
  rewrite Hc in H. discriminate.
Qed.

Lemma run_of_plain (sep : ascii -> bool) (field t : gostring) :
  forallb (fun c => negb (sep c)) field = true ->
  (maximalRun sep t field <-> field <> [] /\ t = field).
Proof.
  intro Hf. split.
  - intros [Hne [Ht [before [after [E [Hb Ha]]]]]].
    assert (before = []) as ->.
    { destruct Hb as [-> | [b [c [-> Hc]]]]; [reflexivity|]. exfalso.
      apply (all_nonsep_no_sep sep field c Hf); [|exact Hc].
      rewrite E. apply in_or_app. left. apply in_or_app. right. left. reflexivity. }
    assert (after = []) as ->.
    { destruct Ha as [-> | [c [a [-> Hc]]]]; [reflexivity|]. exfalso.
      apply (all_nonsep_no_sep sep field c Hf); [|exact Hc].
      rewrite E. apply in_or_app. right. apply in_or_app. right. left. reflexivity. }
    simpl in E. rewrite app_nil_r in E. subst field. auto.
  - intros [Hne ->]. split; [exact Hne|]. split; [exact Hf|].
    exists [], []. simpl. rewrite app_nil_r. auto.
Qed.

(** The runs of a string cut at its first separator. *)
Lemma run_after_sep (sep : ascii -> bool) (field s t : gostring) (c : ascii) :
  forallb (fun c => negb (sep c)) field = true -> sep c = true ->
  (maximalRun sep t (field ++ c :: s) <->
   (field <> [] /\ t = field) \/ maximalRun sep t s).
Proof.
  intros Hf Hc. split.
  - intros [Hne [Ht [before [after [E [Hb Ha]]]]]].
    apply app_eq_app in E. destruct E as [l [[E1 E2] | [E1 E2]]].
    + (* the run starts inside [field] *)
      assert (before = []) as ->.
      { destruct Hb as [-> | [b [x [-> Hx]]]]; [reflexivity|]. exfalso.
        apply (all_nonsep_no_sep sep field x Hf); [|exact Hx].
        rewrite E1. apply in_or_app. left. apply in_or_app. right. left. reflexivity. }
      simpl in E1. subst l. left.
      apply app_eq_app in E2. destruct E2 as [l2 [[E3 E4] | [E3 E4]]].
      * destruct l2 as [|d l2].
        -- rewrite app_nil_r in E3. subst t. split; [exact Hne | reflexivity].
        -- exfalso. simpl in E4. inversion E4; subst d.
           apply (all_nonsep_no_sep sep t c Ht); [|exact Hc].
           rewrite E3. apply in_or_app. right. left. reflexivity.
      * destruct l2 as [|d l2].
        -- rewrite app_nil_r in E3. subst t. split; [exact Hne | reflexivity].
        -- exfalso. destruct Ha as [-> | [x [a [-> Hx]]]]; [discriminate|].
           inversion E4; subst.
           apply (all_nonsep_no_sep sep (t ++ d :: l2) d Hf); [|exact Hx].
           apply in_or_app. right. left. reflexivity.
    + (* the run starts after [field] *)
      destruct l as [|d l].
      * exfalso. simpl in E2. destruct t as [|x t]; [contradiction|].
        inversion E2; subst x.
        apply (all_nonsep_no_sep sep (c :: t) c Ht); [left; reflexivity | exact Hc].
      * simpl in E2. inversion E2; subst d. right.
        split; [exact Hne|]. split; [exact Ht|].
        exists l, after. split; [reflexivity|]. split; [|exact Ha].
        destruct l as [|y l]; [left; reflexivity|]. right.
        destruct Hb as [-> | [b [x [Eb Hx]]]]; [destruct field; discriminate|].
        destruct (@exists_last _ (y :: l) ltac:(discriminate)) as [l' [z El]].
        exists l', z. split; [exact El|].
        rewrite El in E1. rewrite E1 in Eb.
        change (field ++ c :: l' ++ [z]) with (field ++ (c :: l') ++ [z]) in Eb.
        rewrite app_assoc in Eb. apply app_inj_tail in Eb. destruct Eb as [_ ->]. exact Hx.
  - intros [[Hne ->] | [Hne [Ht [before [after [E [Hb Ha]]]]]]].
    + split; [exact Hne|]. split; [exact Hf|].
      exists [], (c :: s). split; [reflexivity|]. split; [left; reflexivity|].
      right. exists c, s. auto.
    + split; [exact Hne|]. split; [exact Ht|].
      exists (field ++ c :: before), after. split.
      * rewrite E. rewrite <- app_assoc. reflexivity.
      * split; [|exact Ha]. right.
        destruct Hb as [-> | [b [x [-> Hx]]]].
        -- exists field, c. auto.
        -- exists (field ++ c :: b), x. split; [|exact Hx].
           rewrite <- app_assoc. reflexivity.
Qed.

Lemma fieldsFrom_runs (sep : ascii -> bool) (s field t : gostring) :
  forallb (fun c => negb (sep c)) field = true ->
  (In t (fieldsFrom sep s field) <-> maximalRun sep t (field ++ s)).
Proof.
  revert field. induction s as [|c s IH]; intros field Hf.
  - rewrite app_nil_r. rewrite (@run_of_plain sep field t Hf). simpl.
    destruct field as [|x field]; simpl.
    + split; [contradiction | intros [H _]; apply H; reflexivity].
    + split.
      * intros [<- | []]. split; [discriminate | reflexivity].
      * intros [_ ->]. left. reflexivity.
  - cbn [fieldsFrom]. destruct (sep c) eqn:Hc.
    + rewrite (@run_after_sep sep field s t c Hf Hc). rewrite <- (IH [] eq_refl).
      destruct field as [|x field]; simpl.
      * split; [auto | intros [[H _] | H]; [exfalso; apply H; reflexivity | exact H]].
      * split.
        -- intros [<- | H]; [left; split; [discriminate | reflexivity] | right; exact H].
        -- intros [[_ ->] | H]; [left; reflexivity | right; exact H].
    + rewrite IH.
      * rewrite <- app_assoc. reflexivity.
      * rewrite forallb_app, Hf. simpl. rewrite Hc. reflexivity.
Qed.

Lemma FieldsFunc_runs (sep : ascii -> bool) (s t : gostring) :
  In t (FieldsFunc s sep) <-> maximalRun sep t s.
Proof. unfold FieldsFunc. apply (fieldsFrom_runs sep s [] t). reflexivity. Qed.

(* ================================================================ *)
(** ** The read-only policy *)

(** Case analysis on a comparison of strings. *)
Ltac case_eqb a b H :=
  destruct (gostring_eqb a b) eqn:H;
  [apply gostring_eqb_eq in H | apply gostring_eqb_neq in H].

Lemma methods_distinct :
  MethodGet <> MethodPost /\ MethodGet <> MethodDelete /\ MethodHead <> MethodPost /\
  MethodHead <> MethodDelete /\ MethodOptions <> MethodPost /\
  MethodOptions <> MethodDelete /\ MethodPost <> MethodDelete /\
  MethodPut <> MethodGet /\ MethodPut <> MethodHead /\ MethodPut <> MethodOptions /\
  MethodPut <> MethodPost /\ MethodPut <> MethodDelete /\ MethodPut <> MethodPatch /\
  MethodPatch <> MethodGet /\ MethodPatch <> MethodHead /\ MethodPatch <> MethodOptions /\
  MethodPatch <> MethodPost /\ MethodPatch <> MethodDelete.
Proof. repeat split; intro H; vm_compute in H; discriminate. Qed.

(** [AllowReadOnly], branch by branch. *)
Lemma AllowReadOnly_cases (St : Type) (r : Request) (peek : BodyPeeker St) (st : St) :
  ((Method r = MethodGet \/ Method r = MethodHead \/ Method r = MethodOptions) /\
   AllowReadOnly r peek st = (None, st)) \/
  (Method r = MethodDelete /\ IsCursorPath (Path r) = true /\
   AllowReadOnly r peek st = (None, st)) \/
  (Method r = MethodPost /\ IsCursorPath (Path r) = true /\
   AllowReadOnly r peek st =
   match peek (128 * 1024) st with
   | (PeekErr err, st') => (Some err, st')
   | (PeekOk body, st') => (inspectCursorBody body, st')
   end) \/
  (~ (Method r = MethodGet \/ Method r = MethodHead \/ Method r = MethodOptions) /\
   ~ (Method r = MethodDelete /\ IsCursorPath (Path r) = true) /\
   ~ (Method r = MethodPost /\ IsCursorPath (Path r) = true) /\
   AllowReadOnly r peek st = (Some (notPermitted (Method r) (Path r)), st)).
Proof.
  pose proof methods_distinct as D.
  unfold AllowReadOnly.
  case_eqb (Method r) MethodGet G; [left; auto|].
  case_eqb (Method r) MethodHead Hd; [left; auto|].
  case_eqb (Method r) MethodOptions Op; [left; auto|].
  cbn [orb].
  case_eqb (Method r) MethodPost P.
  - destruct (IsCursorPath (Path r)) eqn:C.
    + right. right. left. auto.
    + right. right. right. repeat split; try tauto; intros [_ ?]; congruence.
  - case_eqb (Method r) MethodDelete Dl.
    + destruct (IsCursorPath (Path r)) eqn:C.
      * right. left. auto.
      * right. right. right. repeat split; try tauto; intros [_ ?]; congruence.
    + right. right. right. repeat split; tauto.
Qed.

(** When the read-only policy allows. *)
Lemma AllowReadOnly_allows
  (St : Type) (r : Request) (peek : BodyPeeker St) (st : St) :
  fst (AllowReadOnly r peek st) = None ->
  (Method r = MethodGet \/ Method r = MethodHead \/ Method r = MethodOptions) \/
  (Method r = MethodDelete /\ IsCursorPath (Path r) = true) \/
  (Method r = MethodPost /\ IsCursorPath (Path r) = true /\
   exists body, fst (peek (128 * 1024) st) = PeekOk body /\
                inspectCursorBody body = None).
Proof.
  destruct (AllowReadOnly_cases r peek st)
    as [[Hm E] | [[Hm [Hc E]] | [[Hm [Hc E]] | [N1 [N2 [N3 E]]]]]]; rewrite E; cbn [fst].
  - tauto.
  - tauto.
  - intro H. right. right. split; [exact Hm|]. split; [exact Hc|].
    destruct (peek (128 * 1024) st) as [[body|err] st']; simpl in *.
    + exists body. auto.
    + discriminate.
  - discriminate.
Qed.

(** C1.  The read-only policy allows a request exactly when the method is
    GET, HEAD or OPTIONS (whatever the path), or the method is DELETE and
    the path is a cursor endpoint, or the method is POST, the path is a
    cursor endpoint, and the body, peeked with a limit of 128 KiB, is
    there and passes the keyword check.  For every other combination of
    method and path it denies, the state of the peeker is untouched, and
    the reason is "method M not permitted on P" with the method and the
    path of the request. *)
Theorem C1_AllowReadOnly_decision
  (St : Type) (r : Request) (peek : BodyPeeker St) (st : St) :
  (fst (AllowReadOnly r peek st) = None <->
     (Method r = MethodGet \/ Method r = MethodHead \/ Method r = MethodOptions) \/
     (Method r = MethodDelete /\ IsCursorPath (Path r) = true) \/
     (Method r = MethodPost /\ IsCursorPath (Path r) = true /\
      exists body, fst (peek 131072 st) = PeekOk body /\
                   inspectCursorBody body = None)) /\
  (~ (Method r = MethodGet \/ Method r = MethodHead \/ Method r = MethodOptions) ->
   ~ (Method r = MethodDelete /\ IsCursorPath (Path r) = true) ->
   ~ (Method r = MethodPost /\ IsCursorPath (Path r) = true) ->
   AllowReadOnly r peek st =
     (Some ("method " ++ Method r ++ " not permitted on " ++ Path r), st)).
Proof.
  pose proof methods_distinct as D.
  change 131072 with (128 * 1024).
  destruct (AllowReadOnly_cases r peek st)
    as [[Hm E] | [[Hm [Hc E]] | [[Hm [Hc E]] | [N1 [N2 [N3 E]]]]]]; rewrite E.
  - split; [|tauto]. simpl. tauto.
  - split; [|tauto]. simpl. tauto.
  - split; [|tauto]. split.
    + intro H. right. right. split; [exact Hm|]. split; [exact Hc|].
      destruct (peek (128 * 1024) st) as [[body|err] st']; simpl in *.
      * exists body. auto.
      * discriminate.
    + intros [H | [[H _] | [_ [_ [body [Hb Hi]]]]]].
      * exfalso. rewrite Hm in H. destruct H as [H | [H | H]];
          symmetry in H; tauto.
      * exfalso. rewrite Hm in H. tauto.
      * destruct (peek (128 * 1024) st) as [[body'|err] st']; simpl in *.
        -- inversion Hb; subst. exact Hi.
        -- discriminate.
  - split; [|intros; reflexivity]. simpl. split; [discriminate | tauto].
Qed.

(* ================================================================ *)
(** ** The keyword check *)

Lemma isForbidden_iff (t : gostring) :
  isForbidden t = true <-> In t ForbiddenAQLKeywords.
Proof.
  unfold isForbidden. rewrite existsb_exists. split.
  - intros [k [Hin Hk]]. apply gostring_eqb_eq in Hk. subst. exact Hin.
  - intro H. exists t. split; [exact H | apply gostring_eqb_refl].
Qed.

Lemma scanQuery_denies (query : gostring) :
  scanQuery query <> None <->
  exists t, In t (FieldsFunc (ToUpper query) notUpperLetter) /\
            In t ForbiddenAQLKeywords.
Proof.
  unfold scanQuery.
  destruct (find isForbidden (FieldsFunc (ToUpper query) notUpperLetter)) as [t|] eqn:E.
  - split; [|discriminate]. intros _. apply find_some in E. destruct E as [Hin Hf].
    exists t. split; [exact Hin | apply isForbidden_iff; exact Hf].
  - split; [intro H; contradiction|]. intros [t [Hin Hf]]. exfalso.
    apply isForbidden_iff in Hf. rewrite (find_none _ _ E t Hin) in Hf. discriminate.
Qed.

Lemma scanQuery_reason (query : gostring) (reason : error) :
  scanQuery query = Some reason ->
  exists k, In k (FieldsFunc (ToUpper query) notUpperLetter) /\
            In k ForbiddenAQLKeywords /\
            reason = "forbidden keyword " ++ dquote ++ k ++ dquote ++ " detected in AQL".
Proof.
  unfold scanQuery.
  destruct (find isForbidden (FieldsFunc (ToUpper query) notUpperLetter)) as [t|] eqn:E;
    [|discriminate].
  intro H. inversion H; subst. apply find_some in E. destruct E as [Hin Hf].
  exists t. split; [exact Hin|]. split; [apply isForbidden_iff; exact Hf|].
  unfold Sprintf_q. rewrite <- !app_assoc. reflexivity.
Qed.

Lemma scanRawBody_denies (body : gostring) :
  scanRawBody body <> None <->
  exists k, In k ForbiddenAQLKeywords /\ Contains (ToUpper body) k = true.
Proof.
  unfold scanRawBody.
  destruct (find (fun keyword => Contains (ToUpper body) keyword) forbiddenKeywordsList)
    as [k|] eqn:E.
  - split; [|discriminate]. intros _. apply find_some in E. exists k. exact E.
  - split; [intro H; contradiction|]. intros [k [Hin Hk]]. exfalso.
    rewrite (find_none _ _ E k Hin) in Hk. discriminate.
Qed.

Lemma scanRawBody_reason (body : gostring) (reason : error) :
  scanRawBody body = Some reason ->
  exists k, In k ForbiddenAQLKeywords /\ Contains (ToUpper body) k = true /\
            reason = "forbidden keyword " ++ dquote ++ k ++ dquote ++
                     " detected in request body".
Proof.
  unfold scanRawBody.
  destruct (find (fun keyword => Contains (ToUpper body) keyword) forbiddenKeywordsList)
    as [k|] eqn:E; [|discriminate].
  intro H. inversion H; subst. apply find_some in E. destruct E as [Hin Hk].
  exists k. split; [exact Hin|]. split; [exact Hk|].
  unfold Sprintf_q. rewrite <- !app_assoc. reflexivity.
Qed.

Lemma inspect_structured (body query : gostring) :
  jsonUnmarshalQuery body = Some query -> query <> [] ->
  inspectCursorBody body = scanQuery query.
Proof.
  intros H Hne. unfold inspectCursorBody. rewrite H.
  destruct (gostring_eqb query []) eqn:E; [|reflexivity].
  apply gostring_eqb_eq in E. contradiction.
Qed.

Lemma inspect_fallback (body : gostring) :
  jsonUnmarshalQuery body = None \/ jsonUnmarshalQuery body = Some [] ->
  inspectCursorBody body = scanRawBody body.
Proof.
  unfold inspectCursorBody. intros [-> | ->]; reflexivity.
Qed.

(** C5.  The keyword check of the read-only policy on the body of a POST
    to a cursor endpoint.  When the body decodes as JSON with a non-empty
    [query] text, the text is put in upper case and cut into its maximal
    runs of letters A-Z, and the request is denied exactly when one of
    these tokens is one of INSERT, UPDATE, UPSERT, REMOVE, REPLACE,
    TRUNCATE, DROP; the reason names that token.  When decoding fails or
    leaves the query empty, the whole body is put in upper case and the
    request is denied exactly when it contains one of the keywords
    anywhere; the reason names that keyword.  The verdict depends on the
    text only through its upper-case form, so every spelling of a keyword
    in lower or mixed case is treated as the upper-case one, and a keyword
    inside a longer identifier such as updatedAt is not a token. *)
Theorem C5_keyword_check (body : gostring) :
  (forall (St : Type) (r : Request) (peek : BodyPeeker St) (st st' : St),
      Method r = MethodPost -> IsCursorPath (Path r) = true ->
      peek 131072 st = (PeekOk body, st') ->
      AllowReadOnly r peek st = (inspectCursorBody body, st')) /\
  (forall query, jsonUnmarshalQuery body = Some query -> query <> [] ->
      (forall t, In t (FieldsFunc (ToUpper query) notUpperLetter) <->
                 maximalLetterRun t (ToUpper query)) /\
      (inspectCursorBody body <> None <->
         exists t, maximalLetterRun t (ToUpper query) /\ In t ForbiddenAQLKeywords) /\
      (forall reason, inspectCursorBody body = Some reason ->
         exists k, maximalLetterRun k (ToUpper query) /\ In k ForbiddenAQLKeywords /\
                   reason = "forbidden keyword " ++ dquote ++ k ++ dquote ++
                            " detected in AQL")) /\
  (jsonUnmarshalQuery body = None \/ jsonUnmarshalQuery body = Some [] ->
      (inspectCursorBody body <> None <->
         exists k, In k ForbiddenAQLKeywords /\ Contains (ToUpper body) k = true) /\
      (forall reason, inspectCursorBody body = Some reason ->
         exists k, In k ForbiddenAQLKeywords /\ Contains (ToUpper body) k = true /\
                   reason = "forbidden keyword " ++ dquote ++ k ++ dquote ++
                            " detected in request body")) /\
  (forall q q', ToUpper q = ToUpper q' ->
      scanQuery q = scanQuery q' /\ scanRawBody q = scanRawBody q') /\
  (forall q, isASCII q = true -> ToUpper q = map upperByte q) /\
  scanQuery "FOR doc IN collection RETURN doc.updatedAt" = None /\
  scanQuery "iNsErT {x:1} INTO coll" = scanQuery "INSERT {x:1} INTO coll" /\
  scanQuery "insert {x:1} INTO coll" =
    Some ("forbidden keyword " ++ dquote ++ "INSERT" ++ dquote ++ " detected in AQL").
Proof.
  clear newRequestFails.
  split; [|split; [|split; [|split; [|split; [|split; [|split]]]]]].
  - intros St r peek st st' Hm Hc Hp.
    pose proof methods_distinct as D.
    destruct (AllowReadOnly_cases r peek st)
      as [[Hm' E] | [[Hm' [Hc' E]] | [[Hm' [Hc' E]] | [N1 [N2 [N3 E]]]]]].
    + exfalso. rewrite Hm in Hm'. destruct Hm' as [H | [H | H]]; symmetry in H; tauto.
    + exfalso. rewrite Hm in Hm'. tauto.
    + rewrite E. change (128 * 1024) with 131072. rewrite Hp. reflexivity.
    + exfalso. apply N3. auto.
  - intros query Hq Hne. rewrite (inspect_structured Hq Hne). split; [|split].
    + intro t. apply FieldsFunc_runs.
    + rewrite scanQuery_denies. split; intros [t [H1 H2]]; exists t; split; auto;
        apply FieldsFunc_runs; exact H1.
    + intros reason H. apply scanQuery_reason in H. destruct H as [k [H1 [H2 H3]]].
      exists k. split; [apply FieldsFunc_runs; exact H1 | auto].
  - intro H. rewrite (inspect_fallback H). split.
    + apply scanRawBody_denies.
    + apply scanRawBody_reason.
  - intros q q' H. unfold scanQuery, scanRawBody. rewrite H. auto.
  - intros q H. unfold ToUpper. rewrite H. reflexivity.
  - reflexivity.
  - reflexivity.
  - reflexivity.
Qed.

(* ================================================================ *)
(** ** The read-write policy *)

Lemma AllowReadWrite_allows (St : Type) (r : Request) (peek : BodyPeeker St) (st : St) :
  fst (AllowReadWrite r peek st) = None <->
  fst (AllowReadOnly r peek st) = None \/
  (Method r = MethodPost /\
   (IsCursorPath (Path r) = true \/ onAPIPath (Path r) AllowedRWAPIPaths = true)) \/
  ((Method r = MethodPut \/ Method r = MethodPatch \/ Method r = MethodDelete) /\
   onAPIPath (Path r) modifyAPIPaths = true).
Proof.
  clear newRequestFails.
  unfold AllowReadWrite, onAPIPath, modifyAPIPaths.
  destruct (AllowReadOnly r peek st) as [[e|] st']; cbn [fst]; [|tauto].
  case_eqb (Method r) MethodPost P.
  - destruct (IsCursorPath (Path r)); cbn [fst]; [tauto|].
    destruct (existsb _ AllowedRWAPIPaths); cbn [fst]; [tauto|].
    split; [discriminate|]. rewrite P.
    intros [H | [[_ [H | H]] | [[H | [H | H]] _]]];
      try discriminate; vm_compute in H; discriminate.
  - case_eqb (Method r) MethodPut Pu; [|case_eqb (Method r) MethodPatch Pa;
                                         [|case_eqb (Method r) MethodDelete Dl]];
      cbn [orb].
    + destruct (existsb _ _); cbn [fst]; [tauto|].
      split; [discriminate|]. intros [H | [[H _] | [_ H]]]; try discriminate; tauto.
    + destruct (existsb _ _); cbn [fst]; [tauto|].
      split; [discriminate|]. intros [H | [[H _] | [_ H]]]; try discriminate; tauto.
    + destruct (existsb _ _); cbn [fst]; [tauto|].
      split; [discriminate|]. intros [H | [[H _] | [_ H]]]; try discriminate; tauto.
    + cbn [fst]. split; [discriminate|].
      intros [H | [[H _] | [[H | [H | H]] _]]]; try discriminate; tauto.
Qed.

(** A denial of the read-write policy has the reason of the read-only
    one. *)
Lemma AllowReadWrite_reason (St : Type) (r : Request) (peek : BodyPeeker St) (st : St) :
  fst (AllowReadWrite r peek st) = None \/
  fst (AllowReadWrite r peek st) = Some (notPermitted (Method r) (Path r)).
Proof.
  unfold AllowReadWrite.
  destruct (AllowReadOnly r peek st) as [[e|] st']; [|left; reflexivity].
  destruct (gostring_eqb (Method r) MethodPost).
  - destruct (IsCursorPath (Path r)); [left; reflexivity|].
    destruct (existsb _ _); [left | right]; reflexivity.
  - destruct (_ || _); [|right; reflexivity].
    destruct (existsb _ _); [left | right]; reflexivity.
Qed.

Lemma admin_not_cursor (path : gostring) :
  HasPrefix path "/_admin/" = true -> IsCursorPath path = false.
Proof.
  intro H. apply HasPrefix_iff in H. destruct H as [t ->].
  destruct (IsCursorPath ("/_admin/" ++ t)) eqn:E; [|reflexivity]. exfalso.
  apply IsCursorPath_shape in E. destruct E as [prefix [suffix [E [Hp Hs]]]].
  destruct Hp as [-> | [n [-> _]]].
  - apply cursorSuffix_slashes in Hs. destruct Hs as [_ Hs].
    apply HasPrefix_iff in Hs. destruct Hs as [x ->]. simpl in E. inversion E.
  - simpl in E. inversion E.
Qed.

Lemma admin_no_api (path apiPath : gostring) :
  HasPrefix path "/_admin/" = true -> In apiPath AllowedRWAPIPaths ->
  HasAPIPathPrefix path apiPath = false.
Proof.
  intros H Hapi. apply HasPrefix_iff in H. destruct H as [t ->].
  destruct (HasAPIPathPrefix ("/_admin/" ++ t) apiPath) eqn:E; [|reflexivity]. exfalso.
  apply HasAPIPathPrefix_spec in E. destruct E as [Hc Hspec].
  destruct (configured_api Hapi) as [w [-> _]].
  assert (Hn : exists tail, normalize ("/_admin/" ++ t) = "/_admin" ++ tail).
  { unfold normalize.
    change (lit "/_admin/" ++ t) with ("/" ++ (lit "_admin" ++ lit "/" ++ t)) in *.
    rewrite (Clean_rooted_plain _ Hc).
    rewrite elements_name_slash by reflexivity. cbn [filter].
    change (keptElement (lit "_admin")) with true. cbv iota.
    destruct (join_cons_head (lit "_admin") (filter keptElement (Filepath.elements t)))
      as [tail ->].
    exists tail. reflexivity. }
  destruct Hn as [tail Hn]. rewrite Hn in Hspec.
  destruct Hspec as [Hb | [name [rest [En _]]]].
  - destruct Hb as [Hb | [x [Hb | Hb]]]; simpl in Hb; inversion Hb.
  - simpl in En. inversion En.
Qed.

Lemma admin_on_no_api (path : gostring) (apiPaths : list gostring) :
  HasPrefix path "/_admin/" = true -> incl apiPaths AllowedRWAPIPaths ->
  onAPIPath path apiPaths = false.
Proof.
  intros H Hincl. unfold onAPIPath.
  destruct (existsb _ apiPaths) eqn:E; [|reflexivity]. exfalso.
  apply existsb_exists in E. destruct E as [api [Hin Hp]].
  rewrite (admin_no_api path H (Hincl api Hin)) in Hp. discriminate.
Qed.

(** C2, amended.  The read-write policy allows every request the
    read-only policy allows.  Beyond that it allows POST on every cursor
    endpoint, whatever the body, and on the paths [HasAPIPathPrefix]
    accepts for /_api/document, /_api/collection, /_api/index and
    /_api/import (with or without a database prefix), and it allows PUT,
    PATCH and DELETE on the paths accepted for /_api/document,
    /_api/collection and /_api/index; nothing else is allowed.  PUT on
    /_api/import is denied, and on a path under /_admin/ every method
    other than GET, HEAD and OPTIONS is denied. *)
Theorem C2_AllowReadWrite_decision
  (St : Type) (r : Request) (peek : BodyPeeker St) (st : St) :
  (fst (AllowReadOnly r peek st) = None -> fst (AllowReadWrite r peek st) = None) /\
  (fst (AllowReadWrite r peek st) = None <->
     fst (AllowReadOnly r peek st) = None \/
     (Method r = MethodPost /\
      (IsCursorPath (Path r) = true \/
       existsb (fun apiPath => HasAPIPathPrefix (Path r) apiPath)
         [lit "/_api/document"; lit "/_api/collection"; lit "/_api/index";
          lit "/_api/import"] = true)) \/
     ((Method r = MethodPut \/ Method r = MethodPatch \/ Method r = MethodDelete) /\
      existsb (fun apiPath => HasAPIPathPrefix (Path r) apiPath)
        [lit "/_api/document"; lit "/_api/collection"; lit "/_api/index"] = true)) /\
  HasAPIPathPrefix "/_db/mydb/_api/import" "/_api/import" = true /\
  (forall q, fst (AllowReadWrite (mkRequest MethodPut "/_api/import" q) peek st) =
             Some (lit "method PUT not permitted on /_api/import")) /\
  (HasPrefix (Path r) "/_admin/" = true ->
   Method r <> MethodGet -> Method r <> MethodHead -> Method r <> MethodOptions ->
   fst (AllowReadWrite r peek st) =
     Some ("method " ++ Method r ++ " not permitted on " ++ Path r)).
Proof.
  clear newRequestFails.
  pose proof (AllowReadWrite_allows r peek st) as Hiff.
  split; [|split; [|split; [|split]]].
  - intro H. apply Hiff. left. exact H.
  - exact Hiff.
  - vm_compute. reflexivity.
  - intro q. vm_compute. reflexivity.
  - intros Ha NG NH NO.
    destruct (AllowReadWrite_reason r peek st) as [H | H]; [|exact H].
    exfalso. apply Hiff in H.
    pose proof (admin_not_cursor _ Ha) as Hc.
    destruct H as [H | [[_ [H | H]] | [_ H]]].
    + apply (AllowReadOnly_allows r peek st) in H.
      destruct H as [[H | [H | H]] | [[_ H] | [_ [H _]]]]; congruence.
    + congruence.
    + rewrite (@admin_on_no_api (Path r) AllowedRWAPIPaths Ha (incl_refl _)) in H.
      discriminate.
    + rewrite (@admin_on_no_api (Path r) modifyAPIPaths Ha) in H; [discriminate|].
      intros x Hx. simpl in Hx. simpl. tauto.
Qed.

(* ================================================================ *)
(** ** The peeker and the handler *)

(** C7.  On its first call the body peeker takes at most
    effectiveLimit + 1 bytes from the stream, where effectiveLimit is the
    requested limit clamped to the ceiling of 16 MiB, a limit of zero or
    less standing for the ceiling.  A body longer than the effective limit
    makes that first call fail; a body of exactly the effective limit that
    reads without failure makes it succeed and return every byte. *)
Theorem C7_peek_limit (limit : Z) (body : Stream) :
  let st := initialState (Some body) in
  let eff := effectiveLimitOf limit in
  (eff = if limit <=? 0 then 16777216 else Z.min limit 16777216) /\
  len (unread st) - len (unread (snd (bodyReader limit st))) <= eff + 1 /\
  (eff < len (pending body) ->
   fst (bodyReader limit st) = PeekErr (exceedsError eff)) /\
  (len (pending body) = eff -> failure body = None ->
   fst (bodyReader limit st) = PeekOk (pending body)).
Proof.
  cbv zeta. unfold initialState. rewrite bodyReader_first. cbv zeta.
  pose proof (effectiveLimit_clamped limit) as [Hspec Hrange].
  pose proof (readUpTo_split (effectiveLimitOf limit + 1) (pending body)) as Hsplit.
  pose proof (readUpTo_len (effectiveLimitOf limit + 1) (pending body)) as Hlen.
  pose proof (len_nonneg (pending body)) as Hnn.
  destruct (readUpTo (effectiveLimitOf limit + 1) (pending body)) as [got left] eqn:Er.
  cbn [fst snd] in *.
  assert (Hleft : len (pending body) - len left = len got).
  { rewrite <- Hsplit at 1. rewrite len_app. lia. }
  split; [exact Hspec|]. split; [|split].
  - unfold unread at 1. cbn [Body pending].
    destruct (effectiveLimitOf limit + 1 - len got <=? 0);
      [|destruct (failure body)]; cbn [snd unread Body pending]; lia.
  - intro Hbig.
    destruct (effectiveLimitOf limit + 1 - len got <=? 0) eqn:E; [reflexivity|].
    apply Z.leb_gt in E. lia.
  - intros Heq Hnofail.
    destruct (effectiveLimitOf limit + 1 - len got <=? 0) eqn:E.
    + apply Z.leb_le in E. lia.
    + rewrite Hnofail. cbn [fst].
      rewrite readUpTo_all in Er by lia. inversion Er. reflexivity.
Qed.

(** The read-write handler on a POST to a cursor endpoint whose body
    could not be inspected: the request goes upstream with an empty
    body. *)
Lemma ServeHTTP_rw_failed_peek
  (r : Request) (body : option Stream) (e : error) (st1 : PeekState) :
  Method r = MethodPost -> IsCursorPath (Path r) = true ->
  bodyReader 131072 (initialState body) = (PeekErr e, st1) ->
  newRequestFails (Method r) (buildUpstreamURL r) = false ->
  ServeHTTP AllowReadWrite r body =
    (Dispatched (mkUpstream (Method r) (buildUpstreamURL r) (Replay []) (Some 0)), st1).
Proof.
  intros Hm Hc Hp Hn.
  destruct (bodyReader_err_state 131072 (initialState body) eq_refl Hp) as [Hcons Hcache].
  cbn [initialState cachedBody] in Hcache.
  unfold ServeHTTP, AllowReadWrite, AllowReadOnly. rewrite Hm, Hc.
  change (gostring_eqb MethodPost MethodGet) with false.
  change (gostring_eqb MethodPost MethodHead) with false.
  change (gostring_eqb MethodPost MethodOptions) with false.
  change (gostring_eqb MethodPost MethodPost) with true.
  cbn [orb]. change (128 * 1024) with 131072. rewrite Hp. cbv iota beta.
  rewrite Hm in Hn. rewrite Hn, Hcons, Hcache. reflexivity.
Qed.

(** The read-only handler in the same situation: a 403 with the error of
    the peeker. *)
Lemma ServeHTTP_ro_failed_peek
  (r : Request) (body : option Stream) (e : error) (st1 : PeekState) :
  Method r = MethodPost -> IsCursorPath (Path r) = true ->
  bodyReader 131072 (initialState body) = (PeekErr e, st1) ->
  ServeHTTP AllowReadOnly r body = (ErrorReply StatusForbidden e, st1).
Proof.
  intros Hm Hc Hp.
  destruct (bodyReader_err_state 131072 (initialState body) eq_refl Hp) as [Hcons Hcache].
  unfold ServeHTTP, AllowReadOnly. rewrite Hm, Hc.
  change (gostring_eqb MethodPost MethodGet) with false.
  change (gostring_eqb MethodPost MethodHead) with false.
  change (gostring_eqb MethodPost MethodOptions) with false.
  change (gostring_eqb MethodPost MethodPost) with true.
  cbn [orb]. change (128 * 1024) with 131072. rewrite Hp. cbv iota beta.
  rewrite Hcons. cbn [negb]. destruct (Body st1); reflexivity.
Qed.

(** A body longer than 128 KiB makes the peek of the policies fail. *)
Lemma oversized_peek_fails (data : gostring) :
  131072 < len data ->
  bodyReader 131072 (initialState (wholeBody data)) =
    (PeekErr (exceedsError 131072),
     mkPeekState [] true
       (Some (mkStream (snd (readUpTo 131073 data)) None true))).
Proof.
  intro H. unfold initialState, wholeBody. rewrite bodyReader_first. cbv zeta.
  change (effectiveLimitOf 131072) with 131072. cbn [pending failure].
  change (131072 + 1) with 131073.
  pose proof (readUpTo_len 131073 data) as Hlen.
  destruct (131073 - len (fst (readUpTo 131073 data)) <=? 0) eqn:E; [reflexivity|].
  apply Z.leb_gt in E. lia.
Qed.

(** Both policies on a POST to a cursor endpoint whose body was peeked. *)
Lemma AllowReadOnly_peeked
  (r : Request) (st st1 : PeekState) (b : gostring) :
  Method r = MethodPost -> IsCursorPath (Path r) = true ->
  bodyReader 131072 st = (PeekOk b, st1) ->
  AllowReadOnly r bodyReader st = (inspectCursorBody b, st1).
Proof.
  intros Hm Hc Hp. unfold AllowReadOnly. rewrite Hm, Hc.
  change (gostring_eqb MethodPost MethodGet) with false.
  change (gostring_eqb MethodPost MethodHead) with false.
  change (gostring_eqb MethodPost MethodOptions) with false.
  change (gostring_eqb MethodPost MethodPost) with true.
  cbn [orb]. change (128 * 1024) with 131072. rewrite Hp. reflexivity.
Qed.

Lemma AllowReadWrite_peeked
  (r : Request) (st st1 : PeekState) (b : gostring) :
  Method r = MethodPost -> IsCursorPath (Path r) = true ->
  bodyReader 131072 st = (PeekOk b, st1) ->
  AllowReadWrite r bodyReader st = (None, st1).
Proof.
  intros Hm Hc Hp. unfold AllowReadWrite.
  rewrite (@AllowReadOnly_peeked r st st1 b Hm Hc Hp).
  destruct (inspectCursorBody b); [|reflexivity].
  rewrite Hm, Hc. reflexivity.
Qed.

Lemma ServeHTTP_allowed_peeked
  (allowFunc : AllowFunc) (r : Request) (body : option Stream)
  (st1 : PeekState) (b : gostring) :
  allowFunc PeekState r bodyReader (initialState body) = (None, st1) ->
  bodyConsumed st1 = true -> cachedBody st1 = b ->
  newRequestFails (Method r) (buildUpstreamURL r) = false ->
  ServeHTTP allowFunc r body =
    (Dispatched (mkUpstream (Method r) (buildUpstreamURL r) (Replay b) (Some (len b))),
     st1).
Proof.
  intros Ha Hcons Hcache Hn. unfold ServeHTTP. rewrite Ha, Hn, Hcons, Hcache.
  reflexivity.
Qed.

(** C8.  After the first successful peek of a request body every later
    peek, whatever its limit, returns the same bytes and leaves the
    locals and the stream as they are.  The snapshot is the whole body.
    When a handler allows a request whose body was consumed, the upstream
    request carries the cached snapshot and its content length is the
    length of the snapshot; for the two policies, on a POST to a cursor
    endpoint that is allowed, these are the bytes the peek returned. *)
Theorem C8_snapshot_replayed :
  (forall (limit : Z) (body : option Stream) (b : gostring) (st1 : PeekState),
      bodyReader limit (initialState body) = (PeekOk b, st1) ->
      (forall limit', bodyReader limit' st1 = (PeekOk b, st1)) /\
      (forall stream, body = Some stream -> b = pending stream /\ unread st1 = [])) /\
  (forall (allowFunc : AllowFunc) (r : Request) (body : option Stream)
          (req : UpstreamRequest) (st : PeekState),
      ServeHTTP allowFunc r body = (Dispatched req, st) ->
      bodyConsumed st = true ->
      uBody req = Replay (cachedBody st) /\
      uContentLength req = Some (len (cachedBody st))) /\
  (forall (r : Request) (body : option Stream) (b : gostring) (st1 : PeekState),
      Method r = MethodPost -> IsCursorPath (Path r) = true ->
      bodyReader 131072 (initialState body) = (PeekOk b, st1) ->
      newRequestFails (Method r) (buildUpstreamURL r) = false ->
      (inspectCursorBody b = None ->
       ServeHTTP AllowReadOnly r body =
         (Dispatched (mkUpstream (Method r) (buildUpstreamURL r) (Replay b) (Some (len b))),
          st1)) /\
      ServeHTTP AllowReadWrite r body =
        (Dispatched (mkUpstream (Method r) (buildUpstreamURL r) (Replay b) (Some (len b))),
         st1)).
Proof.
  split; [|split].
  - intros limit body b st1 Hp.
    destruct (@bodyReader_ok_state limit (initialState body) st1 b eq_refl eq_refl Hp)
      as [Hcons [Hcache Hb]].
    split.
    + intro limit'. rewrite (bodyReader_consumed limit' st1 Hcons), Hcache. reflexivity.
    + intros stream ->. destruct Hb as [[Hb Hu] | [Hb _]]; [|discriminate].
      split; [exact Hb | exact Hu].
  - intros allowFunc r body req st H Hcons. unfold ServeHTTP in H.
    destruct (allowFunc PeekState r bodyReader (initialState body)) as [[e|] st'].
    + inversion H.
    + destruct (newRequestFails (Method r) (buildUpstreamURL r)); inversion H; subst.
      cbn [uBody uContentLength]. rewrite Hcons. auto.
  - intros r body b st1 Hm Hc Hp Hn.
    destruct (@bodyReader_ok_state 131072 (initialState body) st1 b eq_refl eq_refl Hp)
      as [Hcons [Hcache _]].
    split.
    + intro Hi. apply ServeHTTP_allowed_peeked; auto.
      rewrite (@AllowReadOnly_peeked r _ st1 b Hm Hc Hp), Hi. reflexivity.
    + apply ServeHTTP_allowed_peeked; auto.
      apply (@AllowReadWrite_peeked r _ st1 b Hm Hc Hp).
Qed.

(** C10.  The body peeker does not cache an error.  When the first peek
    fails, the request is marked consumed all the same and the cache stays
    empty, so every later peek returns an empty result with no error, the
    very answer a request without a body gets; and a handler that goes on
    after the failure, as the read-write one does on a POST to a cursor
    endpoint, sends an empty body upstream with content length 0. *)
Theorem C10_failed_peek_not_cached :
  (forall (limit : Z) (body : option Stream) (e : error) (st1 : PeekState),
      bodyReader limit (initialState body) = (PeekErr e, st1) ->
      bodyConsumed st1 = true /\
      (forall limit', bodyReader limit' st1 = (PeekOk [], st1)) /\
      (forall limit', fst (bodyReader limit' st1) =
                      fst (bodyReader limit' (initialState None)))) /\
  (forall (r : Request) (body : option Stream) (e : error) (st1 : PeekState),
      Method r = MethodPost -> IsCursorPath (Path r) = true ->
      bodyReader 131072 (initialState body) = (PeekErr e, st1) ->
      newRequestFails (Method r) (buildUpstreamURL r) = false ->
      fst (ServeHTTP AllowReadWrite r body) =
        Dispatched (mkUpstream (Method r) (buildUpstreamURL r) (Replay []) (Some 0))).
Proof.
  split.
  - intros limit body e st1 Hp.
    destruct (@bodyReader_err_state limit (initialState body) st1 e eq_refl Hp) as [Hcons Hcache].
    cbn [initialState cachedBody] in Hcache.
    assert (Hagain : forall limit', bodyReader limit' st1 = (PeekOk [], st1)).
    { intro limit'. rewrite (bodyReader_consumed limit' st1 Hcons), Hcache. reflexivity. }
    split; [exact Hcons|]. split; [exact Hagain|].
    intro limit'. rewrite Hagain. reflexivity.
  - intros r body e st1 Hm Hc Hp Hn.
    rewrite (@ServeHTTP_rw_failed_peek r body e st1 Hm Hc Hp Hn). reflexivity.
Qed.

(* ================================================================ *)
(** ** The path matcher against the specification *)

(** C3, amended.  [HasAPIPathPrefix] returns true exactly when the raw
    path does not contain [..] anywhere (as an element or inside one) and
    the normalized path is the API path, or the API path followed at once
    by [/] or [?], either directly or after a prefix [/_db/<name>] whose
    name is a whole path element made of one or more characters of
    [[A-Za-z0-9_-]].  The match is at an element boundary:
    /_api/documentx does not match /_api/document, while /_api/document
    and /_api/document/x do. *)
Theorem C3_hasAPIPrefix_contract :
  (forall path apiPath : gostring,
      HasAPIPathPrefix path apiPath = true <->
      hasAPIPrefixSpec (fun p => Contains p "..") path apiPath) /\
  HasAPIPathPrefix "/_api/documentx" "/_api/document" = false /\
  HasAPIPathPrefix "/_api/document" "/_api/document" = true /\
  HasAPIPathPrefix "/_api/document/x" "/_api/document" = true.
Proof.
  split; [exact HasAPIPathPrefix_spec|].
  repeat split; vm_compute; reflexivity.
Qed.

(** C4.  For every path that has an element equal to [..] and every API
    path, [HasAPIPathPrefix] returns false. *)
Theorem C4_dotdot_segment_rejected (path apiPath : gostring) :
  hasDotDotSegment path = true -> HasAPIPathPrefix path apiPath = false.
Proof.
  intro H. rewrite HasAPIPathPrefix_unfold.
  rewrite (dotdot_segment_contains path H). reflexivity.
Qed.

(** C9, amended.  [IsCursorPath] returns true exactly when the whole path
    is an optional [/_db/<name>], then [/_api/cursor], then an optional
    [/<digits>], the name being one or more characters of
    [[A-Za-z0-9_-]]; a slash after the numeric id is not accepted.  For
    every database name that is empty or has a character outside the
    class, [IsCursorPath] rejects [/_db/<name>] followed by a cursor
    suffix.  [HasAPIPathPrefix] checks the name it finds in the normalized
    path: for the API paths of the policies it rejects
    [/_db/<name><suffix>] whenever the name, empty or with a character
    outside the class, has no slash in it. *)
Theorem C9_cursor_endpoint_and_names :
  (forall path : gostring, IsCursorPath path = true <-> cursorEndpointShape path) /\
  IsCursorPath "/_api/cursor/12/" = false /\
  (forall name suffix : gostring,
      invalidDBName name -> cursorSuffix suffix ->
      IsCursorPath ("/_db/" ++ name ++ suffix) = false) /\
  (forall name suffix apiPath : gostring,
      In apiPath AllowedRWAPIPaths ->
      invalidDBName name -> noSlash name = true ->
      matchesAPIPath suffix apiPath = true ->
      HasAPIPathPrefix ("/_db/" ++ name ++ suffix) apiPath = false).
Proof.
  split; [exact IsCursorPath_shape|].
  split; [vm_compute; reflexivity|].
  split; [exact IsCursorPath_invalid_name|].
  exact HasAPIPathPrefix_invalid_name.
Qed.

(* ================================================================ *)
(** ** More on the peeker, the policies and the handler *)


Lemma AllowReadWrite_state (St : Type) (r : Request) (peek : BodyPeeker St) (st : St) :
  snd (AllowReadWrite r peek st) = snd (AllowReadOnly r peek st).
Proof.
  unfold AllowReadWrite.
  destruct (AllowReadOnly r peek st) as [[e|] st']; [|reflexivity].
  destruct (gostring_eqb (Method r) MethodPost).
  - destruct (IsCursorPath (Path r)); [reflexivity|].
    destruct (existsb _ _); reflexivity.
  - destruct (_ || _); [|reflexivity].
    destruct (existsb _ _); reflexivity.
Qed.

(** X2.  The policies call the peeker only for a POST to a cursor
    endpoint, once, with the limit 131072: there the state they leave is
    the state that one call leaves; for every other request they leave the
    state of the peeker as it was. *)
Theorem X2_policies_peek_only_post_cursor
  (St : Type) (r : Request) (peek : BodyPeeker St) (st : St) :
  (Method r = MethodPost /\ IsCursorPath (Path r) = true ->
   snd (AllowReadOnly r peek st) = snd (peek 131072 st) /\
   snd (AllowReadWrite r peek st) = snd (peek 131072 st)) /\
  (~ (Method r = MethodPost /\ IsCursorPath (Path r) = true) ->
   snd (AllowReadOnly r peek st) = st /\ snd (AllowReadWrite r peek st) = st).
Proof.
  clear newRequestFails.
  rewrite AllowReadWrite_state.
  destruct (AllowReadOnly_cases r peek st)
    as [[Hm E] | [[Hm [Hc E]] | [[Hm [Hc E]] | [N1 [N2 [N3 E]]]]]]; rewrite E.
  - split; [|auto]. intros [Hp _]. exfalso. rewrite Hp in Hm.
    destruct Hm as [H | [H | H]]; vm_compute in H; discriminate.
  - split; [|auto]. intros [Hp _]. exfalso. rewrite Hp in Hm.
    vm_compute in Hm; discriminate.
  - split; [|intro N; exfalso; apply N; auto].
    intros _. change (128 * 1024) with 131072.
    destruct (peek 131072 st) as [[b|e] st']; auto.
  - split; [|auto]. intro H. contradiction.
Qed.

(** The first call on a body that is there leaves the request consumed
    and the stream closed, with the failure it had. *)
Lemma bodyReader_first_closes (limit : Z) (cached : gostring) (body : Stream) :
  exists s,
    snd (bodyReader limit (mkPeekState cached false (Some body))) =
      mkPeekState (cachedBody (snd (bodyReader limit (mkPeekState cached false (Some body)))))
                  true (Some s) /\
    closed s = true /\ failure s = failure body.
Proof.
  rewrite bodyReader_first. cbv zeta.
  destruct (_ <=? 0); [|destruct (failure body) eqn:Ef];
    cbn [snd cachedBody]; eexists; (split; [reflexivity|]); split; reflexivity.
Qed.

Lemma bodyReader_ok_len (limit : Z) (body : option Stream) (b : gostring) (st1 : PeekState) :
  bodyReader limit (initialState body) = (PeekOk b, st1) ->
  len b <= effectiveLimitOf limit.
Proof.
  pose proof (effectiveLimit_clamped limit) as [_ Hrange].
  destruct body as [body|]; unfold initialState.
  - rewrite bodyReader_first. cbv zeta.
    pose proof (readUpTo_len (effectiveLimitOf limit + 1) (pending body)) as Hlen.
    destruct (_ <=? 0) eqn:E; [discriminate|]. apply Z.leb_gt in E.
    destruct (failure body); [discriminate|].
    intro H. inversion H; subst. lia.
  - unfold bodyReader. cbn. intro H. inversion H; subst.
    change (len []) with 0. lia.
Qed.

(** A policy that leaves the peeker alone and allows: the stream goes
    upstream as it came. *)
Lemma ServeHTTP_allowed_unpeeked
  (allowFunc : AllowFunc) (r : Request) (body : option Stream) :
  allowFunc PeekState r bodyReader (initialState body) = (None, initialState body) ->
  newRequestFails (Method r) (buildUpstreamURL r) = false ->
  ServeHTTP allowFunc r body =
    (Dispatched (mkUpstream (Method r) (buildUpstreamURL r) (PassThrough body) None),
     initialState body).
Proof.
  intros Ha Hn. unfold ServeHTTP. rewrite Ha, Hn. reflexivity.
Qed.

(** X3.  A request that is allowed and is not a POST to a cursor endpoint
    goes upstream with its body stream untouched: nothing was read from
    it, it is not closed, no size limit applies to it and the handler sets
    no content length. *)
Theorem X3_uninspected_body_streams (r : Request) (body : option Stream) :
  ~ (Method r = MethodPost /\ IsCursorPath (Path r) = true) ->
  newRequestFails (Method r) (buildUpstreamURL r) = false ->
  (fst (AllowReadOnly r bodyReader (initialState body)) = None ->
   ServeHTTP AllowReadOnly r body =
     (Dispatched (mkUpstream (Method r) (buildUpstreamURL r) (PassThrough body) None),
      initialState body)) /\
  (fst (AllowReadWrite r bodyReader (initialState body)) = None ->
   ServeHTTP AllowReadWrite r body =
     (Dispatched (mkUpstream (Method r) (buildUpstreamURL r) (PassThrough body) None),
      initialState body)).
Proof.
  intros N Hn.
  assert (Hro : snd (AllowReadOnly r bodyReader (initialState body)) = initialState body).
  { destruct (AllowReadOnly_cases r bodyReader (initialState body))
      as [[Hm E] | [[Hm [Hc E]] | [[Hm [Hc E]] | [N1 [N2 [N3 E]]]]]];
      try (rewrite E; reflexivity).
    exfalso. apply N. auto. }
  split; intro Ha; apply ServeHTTP_allowed_unpeeked; try exact Hn.
  - rewrite <- Hro at 2. rewrite <- Ha. apply surjective_pairing.
  - rewrite <- Hro at 2. rewrite <- AllowReadWrite_state, <- Ha. apply surjective_pairing.
Qed.

(** X4.  What the read-only handler sends upstream.  A dispatched request
    has the method and the URL of the inbound one, and either it is a GET,
    HEAD or OPTIONS, or a DELETE to a cursor endpoint, with the body stream
    passed through unread; or it is a POST to a cursor endpoint whose
    upstream body is the snapshot that passed the keyword check, of at most
    131072 bytes, which is the whole inbound body, with the content length
    set to its length. *)
Theorem X4_readonly_dispatch
  (r : Request) (body : option Stream) (req : UpstreamRequest) (st : PeekState) :
  ServeHTTP AllowReadOnly r body = (Dispatched req, st) ->
  uMethod req = Method r /\ uURL req = buildUpstreamURL r /\
  (((Method r = MethodGet \/ Method r = MethodHead \/ Method r = MethodOptions \/
     (Method r = MethodDelete /\ IsCursorPath (Path r) = true)) /\
    uBody req = PassThrough body /\ uContentLength req = None /\
    st = initialState body) \/
   (Method r = MethodPost /\ IsCursorPath (Path r) = true /\
    exists b, uBody req = Replay b /\ uContentLength req = Some (len b) /\
              inspectCursorBody b = None /\ len b <= 131072 /\
              (forall stream, body = Some stream ->
                 b = pending stream /\ failure stream = None))).
Proof.
  unfold ServeHTTP.
  destruct (AllowReadOnly_cases r bodyReader (initialState body))
    as [[Hm E] | [[Hm [Hc E]] | [[Hm [Hc E]] | [N1 [N2 [N3 E]]]]]]; rewrite E.
  - cbn [initialState bodyConsumed cachedBody Body].
    destruct (newRequestFails _ _); intro H; inversion H; subst; cbn.
    split; [reflexivity|]. split; [reflexivity|]. left.
    repeat split; try reflexivity. destruct Hm as [H1 | [H1 | H1]]; auto.
  - cbn [initialState bodyConsumed cachedBody Body].
    destruct (newRequestFails _ _); intro H; inversion H; subst; cbn.
    split; [reflexivity|]. split; [reflexivity|]. left.
    repeat split; try reflexivity. auto.
  - change (128 * 1024) with 131072.
    destruct (bodyReader 131072 (initialState body)) as [[b|e] st1] eqn:Hp.
    + destruct (inspectCursorBody b) eqn:Hi; [intro H; inversion H|].
      destruct (@bodyReader_ok_state 131072 (initialState body) st1 b eq_refl eq_refl Hp)
        as [Hcons [Hcache Hb]].
      pose proof (bodyReader_ok_len _ _ Hp) as Hlen.
      change (effectiveLimitOf 131072) with 131072 in Hlen.
      rewrite Hcons, Hcache.
      destruct (newRequestFails _ _); intro H; inversion H; subst; cbn.
      split; [reflexivity|]. split; [reflexivity|]. right.
      split; [exact Hm|]. split; [exact Hc|].
      exists (cachedBody st). repeat split; try reflexivity; try assumption.
      * destruct Hb as [[Hb _] | [Hb _]]; [|rewrite H0 in Hb; discriminate].
        rewrite H0 in Hb. exact Hb.
      * rename H0 into Hbody. unfold initialState in Hp. rewrite Hbody in Hp.
        rewrite bodyReader_first in Hp. cbv zeta in Hp.
        destruct (_ <=? 0); [discriminate|].
        destruct (failure stream); [discriminate | reflexivity].
    + intro H. inversion H.
  - intro H. inversion H.
Qed.

(** The state a policy of the repository leaves: the initial one, or the
    one the single peek leaves. *)
Lemma policy_state (r : Request) (body : option Stream) :
  snd (AllowReadOnly r bodyReader (initialState body)) = initialState body \/
  snd (AllowReadOnly r bodyReader (initialState body)) =
    snd (bodyReader 131072 (initialState body)).
Proof.
  destruct (AllowReadOnly_cases r bodyReader (initialState body))
    as [[Hm E] | [[Hm [Hc E]] | [[Hm [Hc E]] | [N1 [N2 [N3 E]]]]]]; rewrite E;
    try (left; reflexivity).
  right. change (128 * 1024) with 131072.
  destruct (bodyReader 131072 (initialState body)) as [[b|e] st']; reflexivity.
Qed.

Lemma ServeHTTP_forbidden_closed
  (allowFunc : AllowFunc) (r : Request) (stream : Stream) (msg : gostring) (st : PeekState) :
  snd (allowFunc PeekState r bodyReader (initialState (Some stream))) =
    initialState (Some stream) \/
  snd (allowFunc PeekState r bodyReader (initialState (Some stream))) =
    snd (bodyReader 131072 (initialState (Some stream))) ->
  ServeHTTP allowFunc r (Some stream) = (ErrorReply StatusForbidden msg, st) ->
  exists s, Body st = Some s /\ closed s = true /\ failure s = failure stream.
Proof.
  intros Hst. unfold ServeHTTP.
  destruct (allowFunc PeekState r bodyReader (initialState (Some stream))) as [[e|] st0].
  - cbn [snd] in Hst. intro H. inversion H; subst. clear H.
    destruct Hst as [-> | ->].
    + cbn. eexists. split; [reflexivity|]. split; reflexivity.
    + destruct (bodyReader_first_closes 131072 [] stream) as [s [Hs [Hc Hf]]].
      unfold initialState. rewrite Hs. cbn. exists s. auto.
  - destruct (newRequestFails _ _); intro H; inversion H.
Qed.

(** X5.  Whenever one of the two handlers answers 403 to a request that
    has a body, the body stream is closed by then, be it by the peeker or
    by the handler itself. *)
Theorem X5_rejected_body_closed
  (r : Request) (stream : Stream) (msg : gostring) (st : PeekState) :
  (ServeHTTP AllowReadOnly r (Some stream) = (ErrorReply 403 msg, st) ->
   exists s, Body st = Some s /\ closed s = true) /\
  (ServeHTTP AllowReadWrite r (Some stream) = (ErrorReply 403 msg, st) ->
   exists s, Body st = Some s /\ closed s = true).
Proof.
  split; intro H.
  - destruct (@ServeHTTP_forbidden_closed AllowReadOnly r stream msg st
                (policy_state r (Some stream)) H) as [s [H1 [H2 _]]].
    exists s. auto.
  - pose proof (policy_state r (Some stream)) as Hst.
    rewrite <- !(AllowReadWrite_state r bodyReader (initialState (Some stream))) in Hst.
    destruct (@ServeHTTP_forbidden_closed AllowReadWrite r stream msg st Hst H)
      as [s [H1 [H2 _]]].
    exists s. auto.
Qed.

(** The tokens of a string occur in it. *)
Lemma token_contained (s t : gostring) :
  In t (FieldsFunc s notUpperLetter) -> Contains s t = true.
Proof.
  intro H. apply FieldsFunc_runs in H.
  destruct H as [_ [_ [before [after [-> _]]]]]. apply Contains_intro.
Qed.

(** X6.  The scan of the raw body is at least as strict as the scan of
    the tokens: a text in which the token scan finds a forbidden keyword
    is also denied by the raw scan.  It is strictly stricter: the raw scan
    denies doc.updatedAt, which the token scan lets through. *)
Theorem X6_raw_scan_stricter :
  (forall text : gostring, scanQuery text <> None -> scanRawBody text <> None) /\
  scanQuery "doc.updatedAt" = None /\
  scanRawBody "doc.updatedAt" =
    Some ("forbidden keyword " ++ dquote ++ "UPDATE" ++ dquote ++
          " detected in request body").
Proof.
  split; [|split; reflexivity].
  intros text H. apply scanQuery_denies in H. destruct H as [t [Hin Hf]].
  apply scanRawBody_denies. exists t. split; [exact Hf|].
  apply token_contained. exact Hin.
Qed.

(** X7.  A POST to a cursor endpoint that has no body: the peek returns an
    empty result and marks the request consumed, the read-write handler
    sends an empty body upstream with content length 0, and so does the
    read-only handler when decoding the empty input gives no query text,
    the raw scan finding no keyword in it. *)
Theorem X7_absent_body (r : Request) :
  Method r = MethodPost -> IsCursorPath (Path r) = true ->
  newRequestFails (Method r) (buildUpstreamURL r) = false ->
  ServeHTTP AllowReadWrite r None =
    (Dispatched (mkUpstream (Method r) (buildUpstreamURL r) (Replay []) (Some 0)),
     mkPeekState [] true None) /\
  (jsonUnmarshalQuery [] = None \/ jsonUnmarshalQuery [] = Some [] ->
   ServeHTTP AllowReadOnly r None =
     (Dispatched (mkUpstream (Method r) (buildUpstreamURL r) (Replay []) (Some 0)),
      mkPeekState [] true None)).
Proof.
  intros Hm Hc Hn.
  assert (Hp : bodyReader 131072 (initialState None) = (PeekOk [], mkPeekState [] true None))
    by reflexivity.
  split.
  - apply (@ServeHTTP_allowed_peeked AllowReadWrite r None (mkPeekState [] true None) []);
      try reflexivity; try exact Hn.
    apply (@AllowReadWrite_peeked r _ _ _ Hm Hc Hp).
  - intro Hj.
    apply (@ServeHTTP_allowed_peeked AllowReadOnly r None (mkPeekState [] true None) []);
      try reflexivity; try exact Hn.
    rewrite (@AllowReadOnly_peeked r _ _ _ Hm Hc Hp).
    rewrite (inspect_fallback Hj). reflexivity.
Qed.

(* ================================================================ *)
(** ** More on the path matcher *)

Lemma join_head_form (e : gostring) (es : list gostring) :
  exists tl, Filepath.join (e :: es) = e ++ tl /\ (tl = [] \/ exists x, tl = "/" ++ x).
Proof.
  destruct es as [|e' es].
  - exists []. split; [simpl; symmetry; apply app_nil_r | left; reflexivity].
  - exists ("/" ++ Filepath.join (e' :: es)). split; [reflexivity|].
    right. eexists. reflexivity.
Qed.

Lemma join_front (front : list gostring) (a e tl : gostring) (es : list gostring) :
  Filepath.join (e :: es) = e ++ tl ->
  Filepath.join (front ++ a :: e :: es) = Filepath.join (front ++ [a]) ++ "/" ++ e ++ tl.
Proof.
  intro H. induction front as [|f front IH].
  - change ([] ++ a :: e :: es) with (a :: e :: es).
    rewrite join_cons2, H. reflexivity.
  - destruct front as [|f' front].
    + change ([f] ++ a :: e :: es) with (f :: a :: e :: es).
      change ([f] ++ [a]) with (f :: [a]).
      change ([] ++ a :: e :: es) with (a :: e :: es) in IH.
      rewrite join_cons2, IH, join_cons2. rewrite <- !app_assoc. reflexivity.
    + change ((f :: f' :: front) ++ a :: e :: es)
        with (f :: f' :: (front ++ a :: e :: es)).
      change ((f :: f' :: front) ++ [a]) with (f :: f' :: (front ++ [a])).
      change ((f' :: front) ++ a :: e :: es) with (f' :: (front ++ a :: e :: es)) in IH.
      change ((f' :: front) ++ [a]) with (f' :: (front ++ [a])) in IH.
      rewrite join_cons2, IH, join_cons2. rewrite <- !app_assoc. reflexivity.
Qed.

(** The normalized form of a path under /_api/, with or without elements
    before it that [Clean] keeps: the element that starts with the API
    name is kept whole, and what follows it starts a new element. *)
Lemma normalize_api_element (c : ascii) (w' tail : gostring) (front : list gostring) (body : gostring) :
  in_range "a" "z" c = true -> noSlash (c :: w') = true ->
  Contains ("/" ++ body) ".." = false ->
  Filepath.elements body = front ++ lit "_api" :: Filepath.elements ((c :: w') ++ tail) ->
  forallb keptElement front = true ->
  exists tl,
    normalize ("/" ++ body) =
      "/" ++ Filepath.join (front ++ [lit "_api"]) ++ "/" ++ (c :: w') ++
      hd [] (Filepath.elements tail) ++ tl /\
    (tl = [] \/ exists x, tl = "/" ++ x).
Proof.
  intros Hc Hw Hdots He Hfront.
  rewrite elements_app_first in He by exact Hw.
  set (e0 := hd [] (Filepath.elements tail)) in *.
  set (es := tl (Filepath.elements tail)) in *.
  assert (Hclean : Filepath.Clean ("/" ++ body) =
                   "/" ++ Filepath.join (front ++ lit "_api" :: ((c :: w') ++ e0) ::
                                           filter keptElement es)).
  { rewrite (Clean_rooted_plain _ Hdots), He. f_equal. f_equal.
    rewrite filter_app. cbn [filter].
    change (keptElement (lit "_api")) with true. cbv iota.
    change ((c :: w') ++ e0) with (c :: (w' ++ e0)).
    rewrite letter_first_kept by exact Hc.
    f_equal. clear -Hfront. induction front as [|f front IH]; [reflexivity|].
    simpl in *. apply andb_true_iff in Hfront. destruct Hfront as [Hf Hr].
    rewrite Hf, (IH Hr). reflexivity. }
  destruct (join_head_form ((c :: w') ++ e0) (filter keptElement es)) as [tl [Htl Htlf]].
  exists tl. split; [|exact Htlf].
  unfold normalize. rewrite Hclean.
  pose proof (@join_front front (lit "_api") _ _ _ Htl) as Hj.
  change (HasPrefix (lit "/" ++ _) "/") with true. cbn [negb]. cbv iota.
  f_equal. etransitivity; [exact Hj|].
  rewrite <- !app_assoc. reflexivity.
Qed.

Lemma boundary_tail_head (tail : gostring) :
  boundaryTail tail ->
  hd [] (Filepath.elements tail) = [] \/ exists x, hd [] (Filepath.elements tail) = "?" ++ x.
Proof.
  intros [-> | [x [-> | ->]]].
  - left. reflexivity.
  - left. reflexivity.
  - right. pose proof (elements_nonempty x) as Hne.
    change (lit "?" ++ x) with ("?"%char :: x). cbn [Filepath.elements].
    change (Filepath.isSlash "?") with false. cbv iota.
    destruct (Filepath.elements x) as [|e es]; [contradiction|].
    exists e. reflexivity.
Qed.

Lemma normalize_api_path (c : ascii) (w' tail : gostring) (front : list gostring) (body : gostring) :
  in_range "a" "z" c = true -> noSlash (c :: w') = true -> boundaryTail tail ->
  Contains ("/" ++ body) ".." = false ->
  Filepath.elements body = front ++ lit "_api" :: Filepath.elements ((c :: w') ++ tail) ->
  forallb keptElement front = true ->
  exists rest,
    normalize ("/" ++ body) =
      "/" ++ Filepath.join (front ++ [lit "_api"]) ++ "/" ++ (c :: w') ++ rest /\
    boundaryTail rest.
Proof.
  intros Hc Hw Ht Hdots He Hfront.
  destruct (@normalize_api_element c w' tail front body Hc Hw Hdots He Hfront) as [tl [Hn Htl]].
  exists (hd [] (Filepath.elements tail) ++ tl). split; [exact Hn|].
  destruct (boundary_tail_head Ht) as [-> | [x ->]].
  - destruct Htl as [-> | [x ->]]; [left; reflexivity|].
    right. exists x. left. reflexivity.
  - right. exists (x ++ tl). right. rewrite <- app_assoc. reflexivity.
Qed.

Lemma boundaryTail_atBoundary (apiPath rest : gostring) :
  boundaryTail rest -> atBoundary (apiPath ++ rest) apiPath.
Proof.
  intros [-> | [x [-> | ->]]].
  - left. apply app_nil_r.
  - right. exists x. left. reflexivity.
  - right. exists x. right. reflexivity.
Qed.

Lemma name_kept (name : gostring) : validDBName name -> keptElement name = true.
Proof.
  intros [Hne Hv]. unfold keptElement.
  destruct name as [|a name]; [contradiction|].
  change (gostring_eqb (a :: name) "") with false.
  destruct (gostring_eqb (a :: name) ".") eqn:E; [|reflexivity].
  apply gostring_eqb_eq in E. inversion E; subst. vm_compute in Hv. discriminate.
Qed.

(** A path under an API path is matched, whatever [Clean] does to what
    follows the boundary. *)
Lemma HasAPIPathPrefix_direct (c : ascii) (w' tail : gostring) :
  in_range "a" "z" c = true -> noSlash (c :: w') = true -> boundaryTail tail ->
  Contains ("/_api/" ++ (c :: w') ++ tail) ".." = false ->
  HasAPIPathPrefix ("/_api/" ++ (c :: w') ++ tail) ("/_api/" ++ c :: w') = true.
Proof.
  intros Hc Hw Ht Hdots. apply HasAPIPathPrefix_spec. split; [exact Hdots|]. left.
  change (lit "/_api/" ++ (c :: w') ++ tail)
    with ("/" ++ (lit "_api" ++ "/" ++ (c :: w') ++ tail)) in *.
  destruct (@normalize_api_path c w' tail [] (lit "_api" ++ "/" ++ (c :: w') ++ tail)
              Hc Hw Ht Hdots) as [rest [Hn Hrest]].
  - rewrite elements_name_slash by reflexivity. reflexivity.
  - reflexivity.
  - rewrite Hn.
    change ("/" ++ Filepath.join ([] ++ [lit "_api"]) ++ "/" ++ (c :: w') ++ rest)
      with (("/_api/" ++ c :: w') ++ rest).
    apply boundaryTail_atBoundary. exact Hrest.
Qed.

Lemma HasAPIPathPrefix_db (name : gostring) (c : ascii) (w' tail : gostring) :
  validDBName name ->
  in_range "a" "z" c = true -> noSlash (c :: w') = true -> boundaryTail tail ->
  Contains ("/_db/" ++ name ++ "/_api/" ++ (c :: w') ++ tail) ".." = false ->
  HasAPIPathPrefix ("/_db/" ++ name ++ "/_api/" ++ (c :: w') ++ tail) ("/_api/" ++ c :: w')
    = true.
Proof.
  intros Hname Hc Hw Ht Hdots. apply HasAPIPathPrefix_spec. split; [exact Hdots|]. right.
  pose proof (@validDBName_no_slash name (proj2 Hname)) as Hns.
  change (lit "/_db/" ++ name ++ "/_api/" ++ (c :: w') ++ tail)
    with ("/" ++ (lit "_db" ++ "/" ++ name ++ "/" ++ lit "_api" ++ "/" ++ (c :: w') ++ tail))
    in *.
  destruct (@normalize_api_path c w' tail [lit "_db"; name]
              (lit "_db" ++ "/" ++ name ++ "/" ++ lit "_api" ++ "/" ++ (c :: w') ++ tail)
              Hc Hw Ht Hdots) as [rest [Hn Hrest]].
  - rewrite elements_name_slash by reflexivity.
    rewrite elements_name_slash by exact Hns.
    rewrite elements_name_slash by reflexivity. reflexivity.
  - cbn [forallb]. rewrite (name_kept Hname). reflexivity.
  - exists name, (("/_api/" ++ c :: w') ++ rest).
    split; [|split; [exact Hname | split; [reflexivity|]]].
    + rewrite Hn. change ([lit "_db"; name] ++ [lit "_api"]) with [lit "_db"; name; lit "_api"].
      rewrite !join_cons2. change (Filepath.join [lit "_api"]) with (lit "_api").
      rewrite <- !app_assoc. reflexivity.
    + apply boundaryTail_atBoundary. exact Hrest.
Qed.

(** X8.  Every path under a configured API path is matched: the API
    path, followed by nothing, by a slash or by a question mark and then
    by anything, with or without a database prefix whose name is valid,
    provided the raw path has no two dots in a row.  What [Clean] removes
    or collapses after the boundary does not matter. *)
Theorem X8_api_subpaths_matched (apiPath name tail : gostring) :
  In apiPath AllowedRWAPIPaths -> boundaryTail tail ->
  (Contains (apiPath ++ tail) ".." = false ->
   HasAPIPathPrefix (apiPath ++ tail) apiPath = true) /\
  (validDBName name -> Contains ("/_db/" ++ name ++ apiPath ++ tail) ".." = false ->
   HasAPIPathPrefix ("/_db/" ++ name ++ apiPath ++ tail) apiPath = true).
Proof.
  intros Hin Ht.
  destruct (@configured_api apiPath Hin) as [w [-> [Hw [c [w' [-> Hc]]]]]].
  rewrite <- !app_assoc. split.
  - intro Hdots. apply HasAPIPathPrefix_direct; assumption.
  - intros Hname Hdots. apply HasAPIPathPrefix_db; assumption.
Qed.

Lemma no_dot_no_dotdot (s : gostring) :
  forallb (fun c => negb (byte_eqb c ".")) s = true -> Contains s ".." = false.
Proof.
  intro H. destruct (Contains s "..") eqn:E; [|reflexivity].
  apply Contains_iff in E. destruct E as [a [b ->]].
  rewrite forallb_app in H. apply andb_true_iff in H. destruct H as [_ H].
  simpl in H. discriminate.
Qed.

Lemma name_char_no_dot (c : ascii) : isDBNameChar c = true -> negb (byte_eqb c ".") = true.
Proof.
  intro H. destruct (byte_eqb c ".") eqn:E; [|reflexivity].
  apply byte_eqb_eq in E. subst c. vm_compute in H. discriminate.
Qed.

Lemma digit_no_dot (c : ascii) : isDigit c = true -> negb (byte_eqb c ".") = true.
Proof.
  intro H. destruct (byte_eqb c ".") eqn:E; [|reflexivity].
  apply byte_eqb_eq in E. subst c. vm_compute in H. discriminate.
Qed.

Lemma forallb_impl (A : Type) (f g : A -> bool) (l : list A) :
  (forall x, f x = true -> g x = true) -> forallb f l = true -> forallb g l = true.
Proof.
  intros Hfg. induction l as [|x l IH]; [reflexivity|].
  simpl. intro H. apply andb_true_iff in H. destruct H as [Hx Hl].
  rewrite (Hfg x Hx), (IH Hl). reflexivity.
Qed.

Lemma cursor_path_no_dots (path : gostring) :
  cursorEndpointShape path -> Contains path ".." = false.
Proof.
  intros [prefix [suffix [-> [Hp Hs]]]]. apply no_dot_no_dotdot.
  rewrite forallb_app. apply andb_true_iff. split.
  - destruct Hp as [-> | [name [-> [_ Hv]]]]; [reflexivity|].
    rewrite forallb_app. apply andb_true_iff. split; [reflexivity|].
    exact (forallb_impl _ _ _ name_char_no_dot Hv).
  - destruct Hs as [-> | [id [-> [_ Hd]]]]; [reflexivity|].
    rewrite forallb_app. apply andb_true_iff. split; [reflexivity|].
    exact (forallb_impl _ _ _ digit_no_dot Hd).
Qed.

(** X9.  The two path matchers agree on the cursor endpoints: every path
    [IsCursorPath] accepts is also matched by [HasAPIPathPrefix] for
    /_api/cursor.  The converse fails: /_api/cursor/abc has the prefix and
    is no cursor endpoint. *)
Theorem X9_cursor_paths_have_prefix :
  (forall path : gostring,
     IsCursorPath path = true -> HasAPIPathPrefix path "/_api/cursor" = true) /\
  HasAPIPathPrefix "/_api/cursor/abc" "/_api/cursor" = true /\
  IsCursorPath "/_api/cursor/abc" = false.
Proof.
  split; [|split; vm_compute; reflexivity].
  intros path H. apply IsCursorPath_shape in H.
  pose proof (cursor_path_no_dots H) as Hdots.
  destruct H as [prefix [suffix [-> [Hp Hs]]]].
  assert (Hc : in_range "a" "z" "c" = true) by reflexivity.
  assert (Hw : noSlash (lit "cursor") = true) by reflexivity.
  assert (Hs' : exists tail, suffix = "/_api/" ++ lit "cursor" ++ tail /\ boundaryTail tail).
  { destruct Hs as [-> | [id [-> _]]].
    - exists []. split; [reflexivity | left; reflexivity].
    - exists ("/" ++ id). split; [reflexivity|]. right. exists id. left. reflexivity. }
  destruct Hs' as [tail [-> Ht]].
  destruct Hp as [-> | [name [-> Hname]]].
  - exact (@HasAPIPathPrefix_direct "c" (lit "ursor") tail Hc Hw Ht Hdots).
  - rewrite <- app_assoc in *.
    exact (@HasAPIPathPrefix_db name "c" (lit "ursor") tail Hname Hc Hw Ht Hdots).
Qed.

(** The first element of what follows, when that does not start with a
    slash. *)
Lemma elements_head_cons (d : ascii) (t : gostring) :
  d <> "/"%char ->
  hd [] (Filepath.elements (d :: t)) = d :: hd [] (Filepath.elements t).
Proof.
  intro Hd. cbn [Filepath.elements]. unfold Filepath.isSlash.
  destruct (byte_eqb d "/") eqn:E; [apply byte_eqb_eq in E; contradiction|].
  pose proof (elements_nonempty t) as Hne.
  destruct (Filepath.elements t); [contradiction | reflexivity].
Qed.

Lemma not_at_boundary (apiPath : gostring) (d : ascii) (x : gostring) :
  d <> "/"%char -> d <> "?"%char -> ~ atBoundary (apiPath ++ d :: x) apiPath.
Proof.
  intros H1 H2 [E | [t [E | E]]].
  - rewrite <- (app_nil_r apiPath) in E at 2. apply app_inv_head in E. discriminate.
  - apply app_inv_head in E. inversion E. contradiction.
  - apply app_inv_head in E. inversion E. contradiction.
Qed.

Lemma HasAPIPathPrefix_inside_element (c : ascii) (w' : gostring) (d : ascii) (t : gostring) :
  in_range "a" "z" c = true -> noSlash (c :: w') = true ->
  d <> "/"%char -> d <> "?"%char ->
  HasAPIPathPrefix ("/_api/" ++ (c :: w') ++ d :: t) ("/_api/" ++ c :: w') = false.
Proof.
  intros Hc Hw H1 H2.
  destruct (HasAPIPathPrefix _ _) eqn:E; [|reflexivity]. exfalso.
  apply HasAPIPathPrefix_spec in E. destruct E as [Hdots E].
  change (lit "/_api/" ++ (c :: w') ++ d :: t)
    with ("/" ++ (lit "_api" ++ "/" ++ (c :: w') ++ d :: t)) in *.
  destruct (@normalize_api_element c w' (d :: t) [] (lit "_api" ++ "/" ++ (c :: w') ++ d :: t)
              Hc Hw Hdots) as [tl [Hn _]].
  - rewrite elements_name_slash by reflexivity. reflexivity.
  - reflexivity.
  - rewrite elements_head_cons in Hn by exact H1. rewrite Hn in E.
    change ("/" ++ Filepath.join ([] ++ [lit "_api"]) ++ "/" ++ (c :: w') ++
            (d :: hd [] (Filepath.elements t)) ++ tl)
      with (("/_api/" ++ c :: w') ++ d :: (hd [] (Filepath.elements t) ++ tl)) in E.
    destruct E as [E | [name [rest [E _]]]].
    + exact (not_at_boundary _ H1 H2 E).
    + discriminate E.
Qed.

Lemma HasAPIPathPrefix_db_inside_element
  (name : gostring) (c : ascii) (w' : gostring) (d : ascii) (t : gostring) :
  validDBName name ->
  in_range "a" "z" c = true -> noSlash (c :: w') = true ->
  d <> "/"%char -> d <> "?"%char ->
  HasAPIPathPrefix ("/_db/" ++ name ++ "/_api/" ++ (c :: w') ++ d :: t) ("/_api/" ++ c :: w')
    = false.
Proof.
  intros Hname Hc Hw H1 H2.
  destruct (HasAPIPathPrefix _ _) eqn:E; [|reflexivity]. exfalso.
  apply HasAPIPathPrefix_spec in E. destruct E as [Hdots E].
  pose proof (@validDBName_no_slash name (proj2 Hname)) as Hns.
  change (lit "/_db/" ++ name ++ "/_api/" ++ (c :: w') ++ d :: t)
    with ("/" ++ (lit "_db" ++ "/" ++ name ++ "/" ++ lit "_api" ++ "/" ++ (c :: w') ++ d :: t))
    in *.
  destruct (@normalize_api_element c w' (d :: t) [lit "_db"; name]
              (lit "_db" ++ "/" ++ name ++ "/" ++ lit "_api" ++ "/" ++ (c :: w') ++ d :: t)
              Hc Hw Hdots) as [tl [Hn _]].
  - rewrite elements_name_slash by reflexivity.
    rewrite elements_name_slash by exact Hns.
    rewrite elements_name_slash by reflexivity. reflexivity.
  - cbn [forallb]. rewrite (name_kept Hname). reflexivity.
  - rewrite elements_head_cons in Hn by exact H1.
    change ([lit "_db"; name] ++ [lit "_api"]) with [lit "_db"; name; lit "_api"] in Hn.
    rewrite !join_cons2 in Hn. change (Filepath.join [lit "_api"]) with (lit "_api") in Hn.
    rewrite <- !app_assoc in Hn. rewrite Hn in E. clear Hn.
    destruct E as [E | [name' [rest [E [Hname' [Hp Hb]]]]]].
    + destruct E as [E | [x [E | E]]]; discriminate E.
    + apply HasPrefix_iff in Hp. destruct Hp as [r ->].
      change ("/" ++ lit "_db" ++ "/" ++ name ++ "/" ++ lit "_api" ++ "/" ++ (c :: w') ++
              (d :: hd [] (Filepath.elements t)) ++ tl)
        with ("/_db/" ++ name ++ "/" ++
              (lit "_api/" ++ (c :: w') ++ d :: (hd [] (Filepath.elements t) ++ tl))) in E.
      apply app_inv_head in E.
      pose proof (@validDBName_no_slash name' (proj2 Hname')) as Hns'.
      destruct (@first_slash_unique _ _ _ _ Hns Hns' E) as [_ <-].
      change ("/" ++ lit "_api/" ++ (c :: w') ++ d :: (hd [] (Filepath.elements t) ++ tl))
        with (("/_api/" ++ c :: w') ++ d :: (hd [] (Filepath.elements t) ++ tl)) in Hb.
      exact (not_at_boundary _ H1 H2 Hb).
Qed.

(** X10.  A configured API path matches at a path boundary only: when it
    is followed by a byte other than a slash and a question mark, the path
    is not matched for it, with or without a database prefix.  So
    /_api/documentx is no path under /_api/document. *)
Theorem X10_api_path_boundary (apiPath name : gostring) (d : ascii) (t : gostring) :
  In apiPath AllowedRWAPIPaths -> d <> "/"%char -> d <> "?"%char ->
  HasAPIPathPrefix (apiPath ++ d :: t) apiPath = false /\
  (validDBName name ->
   HasAPIPathPrefix ("/_db/" ++ name ++ apiPath ++ d :: t) apiPath = false).
Proof.
  intros Hin H1 H2.
  destruct (@configured_api apiPath Hin) as [w [-> [Hw [c [w' [-> Hc]]]]]].
  rewrite <- !app_assoc. split.
  - apply HasAPIPathPrefix_inside_element; assumption.
  - intro Hname. apply HasAPIPathPrefix_db_inside_element; assumption.
Qed.

End Proxy.

(* ================================================================== *)
(** ** Headers *)

Lemma upperByte_idem (c : ascii) : upperByte (upperByte c) = upperByte c.
Proof. destruct c as [[] [] [] [] [] [] [] []]; reflexivity. Qed.

Lemma lowerByte_idem (c : ascii) : lowerByte (lowerByte c) = lowerByte c.
Proof. destruct c as [[] [] [] [] [] [] [] []]; reflexivity. Qed.

Lemma upperByte_token (c : ascii) : isTokenChar (upperByte c) = isTokenChar c.
Proof. destruct c as [[] [] [] [] [] [] [] []]; reflexivity. Qed.

Lemma lowerByte_token (c : ascii) : isTokenChar (lowerByte c) = isTokenChar c.
Proof. destruct c as [[] [] [] [] [] [] [] []]; reflexivity. Qed.

Lemma canonicalCase_token (upper : bool) (a : gostring) :
  forallb isTokenChar (canonicalCase upper a) = forallb isTokenChar a.
Proof.
  revert upper. induction a as [|c a IH]; intro upper; [reflexivity|].
  cbn [canonicalCase forallb]. rewrite IH.
  destruct upper; [rewrite upperByte_token | rewrite lowerByte_token]; reflexivity.
Qed.

Lemma canonicalCase_idem (upper : bool) (a : gostring) :
  canonicalCase upper (canonicalCase upper a) = canonicalCase upper a.
Proof.
  revert upper. induction a as [|c a IH]; intro upper; [reflexivity|].
  cbn [canonicalCase].
  destruct upper; [rewrite upperByte_idem | rewrite lowerByte_idem];
    rewrite IH; reflexivity.
Qed.

(** A canonical key is its own canonical form. *)
Lemma CanonicalHeaderKey_idem (s : gostring) :
  CanonicalHeaderKey (CanonicalHeaderKey s) = CanonicalHeaderKey s.
Proof.
  unfold CanonicalHeaderKey.
  destruct (forallb isTokenChar s) eqn:E.
  - rewrite canonicalCase_token, E. apply canonicalCase_idem.
  - rewrite E. reflexivity.
Qed.

(** Entries filtered by their keys. *)
Lemma index_filter_key (p : gostring -> bool) (h : Header) (key : gostring) :
  index (filter (fun kv => p (fst kv)) h) key = if p key then index h key else [].
Proof.
  unfold index. induction h as [|[k vs] h IH]; [destruct (p key); reflexivity|].
  cbn [filter find fst snd].
  destruct (gostring_eqb k key) eqn:E.
  - apply gostring_eqb_eq in E. subst k.
    destruct (p key); [cbn [find fst snd]; rewrite gostring_eqb_refl; reflexivity|].
    rewrite IH. reflexivity.
  - destruct (p k); [cbn [find fst snd]; rewrite E|]; exact IH.
Qed.

Lemma delete_all (keys : list gostring) (h : Header) :
  fold_left delete keys h =
  filter (fun kv => negb (existsb (gostring_eqb (fst kv)) keys)) h.
Proof.
  revert h. induction keys as [|k keys IH]; intro h.
  - cbn [fold_left existsb negb]. induction h as [|kv h IHh]; [reflexivity|].
    cbn [filter]. rewrite <- IHh. reflexivity.
  - cbn [fold_left]. rewrite IH. unfold delete.
    induction h as [|kv h IHh]; [reflexivity|].
    cbn [filter existsb].
    destruct (gostring_eqb (fst kv) k); cbn [negb orb]; [exact IHh|].
    cbn [filter]. destruct (negb (existsb (gostring_eqb (fst kv)) keys)); [f_equal|];
      exact IHh.
Qed.

Lemma cloneHeader_same (src : Header) : cloneHeader src = src.
Proof.
  unfold cloneHeader. induction src as [|[k vs] src IH]; [reflexivity|].
  cbn [map fst snd]. rewrite firstn_all, IH. reflexivity.
Qed.

Lemma index_appendAt (h : Header) (key value k : gostring) :
  index (appendAt h key value) k =
  if gostring_eqb key k then index h k ++ [value] else index h k.
Proof.
  unfold index. induction h as [|[k0 vs] h IH].
  - cbn [appendAt find fst snd]. destruct (gostring_eqb key k); reflexivity.
  - cbn [appendAt]. destruct (gostring_eqb k0 key) eqn:E0.
    + apply gostring_eqb_eq in E0. subst k0. cbn [find fst snd].
      destruct (gostring_eqb key k); reflexivity.
    + cbn [find fst snd]. destruct (gostring_eqb k0 k) eqn:E1; [|exact IH].
      apply gostring_eqb_eq in E1. subst k0.
      destruct (gostring_eqb key k) eqn:E2; [|reflexivity].
      apply gostring_eqb_eq in E2. subst key. rewrite gostring_eqb_refl in E0. discriminate.
Qed.

Lemma index_cons (k0 : gostring) (vs : list gostring) (h : Header) (k : gostring) :
  index ((k0, vs) :: h) k = if gostring_eqb k0 k then vs else index h k.
Proof. unfold index. cbn [find fst snd]. destruct (gostring_eqb k0 k); reflexivity. Qed.

Lemma index_absent (h : Header) (k : gostring) :
  ~ In k (map fst h) -> index h k = [].
Proof.
  unfold index. induction h as [|[k0 vs] h IH]; intro H; [reflexivity|].
  cbn [find fst snd]. destruct (gostring_eqb k0 k) eqn:E.
  - apply gostring_eqb_eq in E. exfalso. apply H. left. exact E.
  - apply IH. intro Hin. apply H. right. exact Hin.
Qed.

Section HeaderFacts.

Variable TrimSpace : gostring -> gostring.

Lemma strip_tokens (tokens : list gostring) (h : Header) :
  fold_left (stripToken TrimSpace) tokens h =
  fold_left delete
    (map (fun token => CanonicalHeaderKey (CanonicalHeaderKey (TrimSpace token)))
         (filter (fun token => negb (gostring_eqb (TrimSpace token) "")) tokens)) h.
Proof.
  revert h. induction tokens as [|t tokens IH]; intro h; [reflexivity|].
  cbn [fold_left filter]. unfold stripToken at 2.
  destruct (gostring_eqb (TrimSpace t) ""); cbn [negb]; [apply IH|].
  cbn [map fold_left]. apply IH.
Qed.

(** [stripHopHeaders] keeps, in their order, the entries whose key is not
    one of the keys it deletes. *)
Lemma stripHopHeaders_filter (h : Header) :
  stripHopHeaders TrimSpace h =
  filter (fun kv => negb (existsb (gostring_eqb (fst kv)) (strippedKeys TrimSpace h))) h.
Proof.
  unfold stripHopHeaders, strippedKeys, nominatedKeys. cbv zeta.
  rewrite <- delete_all, fold_left_app.
  assert (Hhop : forall d, fold_left Del hopByHopHeaders d =
                           fold_left delete (map CanonicalHeaderKey hopByHopHeaders) d)
    by (intro d; reflexivity).
  rewrite Hhop. f_equal.
  generalize (Values h "Connection") as values. intro values. revert h.
  induction values as [|v values IH]; intro h; [reflexivity|].
  cbn [fold_left flat_map]. rewrite filter_app, map_app, fold_left_app.
  rewrite IH, strip_tokens. reflexivity.
Qed.

Lemma In_strippedKeys (header : Header) (key : gostring) :
  In key (strippedKeys TrimSpace header) <->
  (exists hop, In hop hopByHopHeaders /\ key = CanonicalHeaderKey hop) \/
  (exists value token,
     In value (Values header "Connection") /\ In token (Split value ",") /\
     TrimSpace token <> [] /\ key = CanonicalHeaderKey (TrimSpace token)).
Proof.
  unfold strippedKeys, nominatedKeys. rewrite in_app_iff, !in_map_iff. split.
  - intros [[token [<- Hin]] | [hop [<- Hin]]].
    + right. apply filter_In in Hin. destruct Hin as [Hin Hne].
      apply in_flat_map in Hin. destruct Hin as [value [Hv Ht]].
      exists value, token. split; [exact Hv|]. split; [exact Ht|]. split.
      * intro E. rewrite E in Hne. discriminate.
      * apply CanonicalHeaderKey_idem.
    + left. exists hop. auto.
  - intros [[hop [Hin ->]] | [value [token [Hv [Ht [Hne ->]]]]]].
    + right. exists hop. auto.
    + left. exists token. split; [apply CanonicalHeaderKey_idem|].
      apply filter_In. split.
      * apply in_flat_map. exists value. auto.
      * destruct (gostring_eqb (TrimSpace token) "") eqn:E; [|reflexivity].
        apply gostring_eqb_eq in E. contradiction.
Qed.

Lemma index_strip (header : Header) (key : gostring) :
  (In key (strippedKeys TrimSpace header) ->
   index (stripHopHeaders TrimSpace header) key = []) /\
  (~ In key (strippedKeys TrimSpace header) ->
   index (stripHopHeaders TrimSpace header) key = index header key).
Proof.
  rewrite stripHopHeaders_filter.
  rewrite (index_filter_key
             (fun k => negb (existsb (gostring_eqb k) (strippedKeys TrimSpace header)))).
  destruct (existsb (gostring_eqb key) (strippedKeys TrimSpace header)) eqn:E; cbn [negb].
  - split; [reflexivity|]. intro N. exfalso. apply N.
    apply existsb_exists in E. destruct E as [x [Hx E]].
    apply gostring_eqb_eq in E. subst x. exact Hx.
  - split; [|reflexivity]. intro Hin. exfalso.
    assert (existsb (gostring_eqb key) (strippedKeys TrimSpace header) = true).
    { apply existsb_exists. exists key. split; [exact Hin | apply gostring_eqb_refl]. }
    congruence.
Qed.

Lemma Values_strip_hop (header : Header) (hop : gostring) :
  In hop hopByHopHeaders -> Values (stripHopHeaders TrimSpace header) hop = [].
Proof.
  intro Hin. unfold Values. apply index_strip. apply In_strippedKeys.
  left. exists hop. auto.
Qed.

(** X11.  What [stripHopHeaders] leaves.  Looking up one of the seven
    hop-by-hop headers gives nothing afterwards, and neither does looking
    up a header that a value of Connection names between its commas, the
    white space around the name trimmed.  Every other key keeps its list
    of values: a key that is neither the canonical form of a hop-by-hop
    header nor the canonical form of a name in Connection. *)
Theorem X11_hop_headers_stripped (header : Header) :
  (forall hop, In hop hopByHopHeaders ->
     Values (stripHopHeaders TrimSpace header) hop = []) /\
  (forall value token,
     In value (Values header "Connection") -> In token (Split value ",") ->
     TrimSpace token <> [] ->
     Values (stripHopHeaders TrimSpace header) (TrimSpace token) = []) /\
  (forall key,
     (forall hop, In hop hopByHopHeaders -> key <> CanonicalHeaderKey hop) ->
     (forall value token,
        In value (Values header "Connection") -> In token (Split value ",") ->
        TrimSpace token <> [] -> key <> CanonicalHeaderKey (TrimSpace token)) ->
     index (stripHopHeaders TrimSpace header) key = index header key).
Proof.
  split; [|split].
  - intros hop Hin. apply Values_strip_hop. exact Hin.
  - intros value token Hv Ht Hne. unfold Values. apply index_strip.
    apply In_strippedKeys. right. exists value, token. auto.
  - intros key Hhop Hnom. apply index_strip. intro Hin.
    apply In_strippedKeys in Hin.
    destruct Hin as [[hop [Hin E]] | [value [token [Hv [Ht [Hne E]]]]]].
    + exact (Hhop hop Hin E).
    + exact (Hnom value token Hv Ht Hne E).
Qed.

Lemma delete_absent (h : Header) (key : gostring) :
  hasKey h key = false -> delete h key = h.
Proof.
  unfold hasKey, delete. induction h as [|kv h IH]; [reflexivity|].
  cbn [existsb filter]. intro H. apply orb_false_iff in H. destruct H as [H1 H2].
  rewrite H1. cbn [negb]. rewrite (IH H2). reflexivity.
Qed.

(** The first loop of [copyHeaders] empties a map whose keys are
    canonical. *)
Lemma clear_canonical (dst : Header) :
  canonicalKeys dst ->
  fold_left (fun d key => if hasKey d key then Del d key else d) (map fst dst) dst = [].
Proof.
  intro Hc.
  assert (Hfold : forall keys d,
             (forall key, In key keys -> CanonicalHeaderKey key = key) ->
             fold_left (fun d key => if hasKey d key then Del d key else d) keys d =
             fold_left delete keys d).
  { induction keys as [|k keys IH]; intros d Hk; [reflexivity|].
    cbn [fold_left].
    assert (E : (if hasKey d k then Del d k else d) = delete d k).
    { unfold Del. rewrite (Hk k (or_introl eq_refl)).
      destruct (hasKey d k) eqn:Eh; [reflexivity|].
      symmetry. apply delete_absent. exact Eh. }
    rewrite E. apply IH. intros key Hin. apply Hk. right. exact Hin. }
  rewrite (Hfold _ _ Hc), delete_all.
  assert (Hall : forall l : Header,
             incl l dst ->
             filter (fun kv => negb (existsb (gostring_eqb (fst kv)) (map fst dst))) l = []).
  { induction l as [|kv l IH]; intro Hincl; [reflexivity|].
    cbn [filter].
    assert (Hin : existsb (gostring_eqb (fst kv)) (map fst dst) = true).
    { apply existsb_exists. exists (fst kv). split; [|apply gostring_eqb_refl].
      apply in_map. apply Hincl. left. reflexivity. }
    rewrite Hin. cbn [negb]. apply IH. intros x Hx. apply Hincl. right. exact Hx. }
  apply Hall. apply incl_refl.
Qed.

Lemma index_add_values (key : gostring) (values : list gostring) (d : Header) (k : gostring) :
  index (fold_left (fun d value => appendAt d key value) values d) k =
  if gostring_eqb key k then index d k ++ values else index d k.
Proof.
  revert d. induction values as [|v values IH]; intro d.
  - cbn [fold_left]. destruct (gostring_eqb key k); [rewrite app_nil_r|]; reflexivity.
  - cbn [fold_left]. rewrite IH, index_appendAt.
    destruct (gostring_eqb key k); [rewrite <- app_assoc|]; reflexivity.
Qed.

(** The second loop of [copyHeaders], on entries with canonical keys, no
    key twice. *)
Lemma index_fill (cleaned d : Header) (k : gostring) :
  canonicalKeys cleaned -> NoDup (map fst cleaned) ->
  index (fold_left (fun d kv => fold_left (fun d value => Add d (fst kv) value) (snd kv) d)
                   cleaned d) k =
  index d k ++ index cleaned k.
Proof.
  revert d. induction cleaned as [|[k0 vs] cleaned IH]; intros d Hc Hnd.
  - cbn [fold_left]. change (index [] k) with (@nil gostring).
    rewrite app_nil_r. reflexivity.
  - cbn [fold_left fst snd]. inversion Hnd as [|x l Hnotin Hnd']; subst.
    rewrite IH; [|intros key Hin; apply Hc; right; exact Hin | exact Hnd'].
    unfold Add. rewrite (Hc k0 (or_introl eq_refl)).
    rewrite index_add_values, index_cons.
    destruct (gostring_eqb k0 k) eqn:E.
    + apply gostring_eqb_eq in E. subst k0.
      rewrite (@index_absent cleaned k Hnotin), app_nil_r. reflexivity.
    + reflexivity.
Qed.

Lemma filter_keys (p : gostring * list gostring -> bool) (h : Header) :
  (canonicalKeys h -> canonicalKeys (filter p h)) /\
  (NoDup (map fst h) -> NoDup (map fst (filter p h))).
Proof.
  split.
  - intros Hc key Hin. apply Hc. apply in_map_iff in Hin.
    destruct Hin as [kv [<- Hin]]. apply filter_In in Hin. apply in_map. apply Hin.
  - induction h as [|kv h IH]; intro Hnd; [constructor|].
    cbn [map] in Hnd. inversion Hnd as [|x l Hnotin Hnd']; subst.
    cbn [filter]. destruct (p kv); [|exact (IH Hnd')].
    cbn [map]. constructor; [|exact (IH Hnd')].
    intro Hin. apply Hnotin. apply in_map_iff in Hin.
    destruct Hin as [kv' [E Hin]]. apply filter_In in Hin.
    rewrite <- E. apply in_map. apply Hin.
Qed.

Lemma index_copyHeaders (dst src : Header) (key : gostring) :
  canonicalKeys src -> NoDup (map fst src) -> canonicalKeys dst ->
  index (copyHeaders TrimSpace dst src) key = index (stripHopHeaders TrimSpace src) key.
Proof.
  intros Hsrc Hnd Hdst. unfold copyHeaders. cbv zeta.
  rewrite cloneHeader_same, (clear_canonical Hdst).
  rewrite index_fill; [reflexivity | |]; rewrite stripHopHeaders_filter; apply filter_keys;
    assumption.
Qed.

(** X12.  What [copyHeaders] leaves in the destination, when the keys of
    both maps are in canonical form: whatever the destination held is
    gone, and every key has the values it has in the source once
    [stripHopHeaders] has run on it; so looking up a hop-by-hop header
    gives nothing.  The canonical form is needed: a source that has the
    key connection in lower case hands its values on under Connection. *)
Theorem X12_copyHeaders_content :
  (forall dst src : Header,
     canonicalKeys src -> NoDup (map fst src) -> canonicalKeys dst ->
     (forall key, index (copyHeaders TrimSpace dst src) key =
                  index (stripHopHeaders TrimSpace src) key) /\
     (forall hop, In hop hopByHopHeaders ->
                  Values (copyHeaders TrimSpace dst src) hop = [])) /\
  (forall value : gostring,
     Values (copyHeaders TrimSpace [] [(lit "connection", [value])]) "Connection" = [value]).
Proof.
  split.
  - intros dst src Hsrc Hnd Hdst. split.
    + intro key. apply index_copyHeaders; assumption.
    + intros hop Hin. unfold Values. rewrite index_copyHeaders by assumption.
      apply Values_strip_hop. exact Hin.
  - intro value. reflexivity.
Qed.

End HeaderFacts.

(* ================================================================== *)
(** ** The upstream URL and the log line *)

(** A path without a question mark, followed by nothing or by a question
    mark and a query, is read back in one way only. *)
Lemma path_query_unique (p1 p2 q1 q2 : gostring) :
  ~ In "?"%char p1 -> ~ In "?"%char p2 ->
  (q1 = [] \/ exists x, q1 = "?" ++ x) -> (q2 = [] \/ exists x, q2 = "?" ++ x) ->
  p1 ++ q1 = p2 ++ q2 -> p1 = p2 /\ q1 = q2.
Proof.
  revert p2. induction p1 as [|c p1 IH]; intros p2 H1 H2 Hq1 Hq2 E.
  - destruct p2 as [|c2 p2]; [auto|]. exfalso. cbn [app] in E.
    destruct Hq1 as [-> | [x ->]]; [discriminate|].
    inversion E; subst. apply H2. left. reflexivity.
  - destruct p2 as [|c2 p2].
    + exfalso. cbn [app] in E.
      destruct Hq2 as [-> | [x ->]]; [discriminate|].
      inversion E; subst. apply H1. left. reflexivity.
    + cbn [app] in E. inversion E; subst.
      destruct (IH p2) as [-> ->]; auto.
      * intro Hin. apply H1. right. exact Hin.
      * intro Hin. apply H2. right. exact Hin.
Qed.

Lemma query_suffix (q : gostring) :
  (if negb (gostring_eqb q []) then "?" ++ q else []) = [] \/
  exists x, (if negb (gostring_eqb q []) then "?" ++ q else []) = "?" ++ x.
Proof.
  destruct q as [|c q]; [left; reflexivity|]. right. exists (c :: q). reflexivity.
Qed.

(** X13.  The upstream URL tells the path and the query apart as long as
    the path has no question mark: two requests whose paths have none and
    whose upstream URLs are equal have the same path and the same query.
    A question mark in the path breaks this, the path being written as it
    is: the path /a?b without a query and the path /a with the query b
    give the same URL. *)
Theorem X13_upstream_url_injective :
  (forall r1 r2 : Request,
     ~ In "?"%char (Path r1) -> ~ In "?"%char (Path r2) ->
     buildUpstreamURL r1 = buildUpstreamURL r2 ->
     Path r1 = Path r2 /\ RawQuery r1 = RawQuery r2) /\
  (forall method : gostring,
     buildUpstreamURL (mkRequest method "/a?b" []) =
     buildUpstreamURL (mkRequest method "/a" "b")).
Proof.
  split; [|reflexivity].
  intros r1 r2 H1 H2 E. unfold buildUpstreamURL in E. apply app_inv_head in E.
  destruct (@path_query_unique _ _ _ _ H1 H2 (query_suffix (RawQuery r1))
              (query_suffix (RawQuery r2)) E) as [Hp Hq].
  split; [exact Hp|].
  destruct (RawQuery r1) as [|a q1], (RawQuery r2) as [|b q2];
    cbn in Hq; try discriminate; [reflexivity|].
  inversion Hq. reflexivity.
Qed.

(** X14.  The log line of [LogRequests] shows of the query only whether
    there is one: two requests with the same method and path, both with a
    query or both without, are logged alike; and a request with a query is
    logged as its method, its path and the fixed suffix. *)
Theorem X14_log_line_hides_query :
  (forall r1 r2 : Request,
     Method r1 = Method r2 -> Path r1 = Path r2 ->
     (RawQuery r1 = [] <-> RawQuery r2 = []) ->
     loggedLine r1 = loggedLine r2) /\
  (forall r : Request,
     RawQuery r <> [] -> loggedLine r = Method r ++ " " ++ Path r ++ "?<redacted>").
Proof.
  split.
  - intros r1 r2 Hm Hp Hq. unfold loggedLine, loggedPath. rewrite Hm, Hp.
    destruct (RawQuery r1) as [|a q1], (RawQuery r2) as [|b q2]; try reflexivity.
    + destruct Hq as [Hq _]. specialize (Hq eq_refl). discriminate.
    + destruct Hq as [_ Hq]. specialize (Hq eq_refl). discriminate.
  - intros r Hq. unfold loggedLine, loggedPath.
    destruct (RawQuery r) as [|a q]; [contradiction | reflexivity].
Qed.



(* ================================================================== *)
(** ** The tests of the repository, replayed on the embedding *)

Example test_readonly_read_methods :
  map (fun m => readOnlyVerdict asciiToUpper Json.unmarshalQuery m "/_api/version" "")
    [lit "GET"; lit "HEAD"; lit "OPTIONS"] = [None; None; None].
Proof. vm_compute. reflexivity. Qed.

Example test_readonly_read_queries :
  map (fun q => readOnlyVerdict asciiToUpper Json.unmarshalQuery "POST" "/_api/cursor"
                  (queryPayload q))
    [lit "FOR doc IN collection RETURN doc";
     lit "FOR doc IN collection FILTER doc.name == 'test' RETURN doc";
     lit "RETURN 1 + 1";
     lit "FOR i IN 1..10 RETURN i";
     lit "LET x = (FOR doc IN coll RETURN doc) RETURN x";
     lit "FOR doc IN collection RETURN doc.updatedAt";
     lit "FOR doc IN collection FILTER doc.insertTime > 0 RETURN doc";
     lit "FOR doc IN collection RETURN doc.removeFlag"]
  = [None; None; None; None; None; None; None; None].
Proof. vm_compute. reflexivity. Qed.

Example test_readonly_write_queries :
  map (fun q => readOnlyVerdict asciiToUpper Json.unmarshalQuery "POST" "/_api/cursor"
                  (queryPayload q))
    [lit "INSERT {name: 'test'} INTO collection";
     lit "FOR doc IN collection UPDATE doc WITH {x: 1} IN collection";
     lit "UPSERT {_key: '1'} INSERT {} UPDATE {} IN collection";
     lit "FOR doc IN collection REMOVE doc IN collection";
     lit "REPLACE {_key: '1'} WITH {x: 1} IN collection";
     lit "TRUNCATE something"; lit "DROP something";
     lit "insert {x:1} INTO coll"; lit "Insert {x:1} Into coll";
     lit "iNsErT {x:1} INTO coll"]
  = map (fun k => Some ("forbidden keyword " ++ dquote ++ k ++ dquote ++ " detected in AQL"))
      [lit "INSERT"; lit "UPDATE"; lit "UPSERT"; lit "REMOVE"; lit "REPLACE";
       lit "TRUNCATE"; lit "DROP"; lit "INSERT"; lit "INSERT"; lit "INSERT"].
Proof. vm_compute. reflexivity. Qed.

Example test_readonly_fallback :
  map (fun b => readOnlyVerdict asciiToUpper Json.unmarshalQuery "POST" "/_api/cursor" b)
    [lit "not valid json but contains INSERT";
     "{" ++ dquote ++ "broken: " ++ dquote ++ "INSERT INTO collection" ++ dquote ++ "}"]
  = [Some ("forbidden keyword " ++ dquote ++ "INSERT" ++ dquote ++ " detected in request body");
     Some ("forbidden keyword " ++ dquote ++ "INSERT" ++ dquote ++ " detected in request body")].
Proof. vm_compute. reflexivity. Qed.

Example test_readonly_denied :
  map (fun mp => readOnlyVerdict asciiToUpper Json.unmarshalQuery (fst mp) (snd mp) "")
    [(lit "PUT", lit "/_api/cursor/12345"); (lit "POST", lit "/_api/document/collection");
     (lit "POST", lit "/_api/import"); (lit "DELETE", lit "/_api/document/collection/key");
     (lit "PUT", lit "/_api/version"); (lit "PATCH", lit "/_api/document/coll/key")]
  = map (fun mp => Some ("method " ++ fst mp ++ " not permitted on " ++ snd mp))
    [(lit "PUT", lit "/_api/cursor/12345"); (lit "POST", lit "/_api/document/collection");
     (lit "POST", lit "/_api/import"); (lit "DELETE", lit "/_api/document/collection/key");
     (lit "PUT", lit "/_api/version"); (lit "PATCH", lit "/_api/document/coll/key")].
Proof. vm_compute. reflexivity. Qed.

Example test_readonly_delete_cursor :
  map (fun p => readOnlyVerdict asciiToUpper Json.unmarshalQuery "DELETE" p "")
    [lit "/_api/cursor/12345"; lit "/_db/mydb/_api/cursor/67890"] = [None; None].
Proof. vm_compute. reflexivity. Qed.

Example test_IsCursorPath :
  map IsCursorPath
    [lit "/_api/cursor"; lit "/_api/cursor/12345"; lit "/_db/mydb/_api/cursor";
     lit "/_db/mydb/_api/cursor/12345"; lit "/_db/test_db/_api/cursor";
     lit "/_db/my-db/_api/cursor/999";
     lit "/_api/cursor/"; lit "/_api/cursor/abc"; lit "/_api/cursorx"; lit "/_api/document";
     lit "/_db/../_api/cursor"; lit "/_db/my.db/_api/cursor"; lit "/_db/my/db/_api/cursor";
     lit "/prefix/_api/cursor"]
  = [true; true; true; true; true; true;
     false; false; false; false; false; false; false; false].
Proof. vm_compute. reflexivity. Qed.

Example test_HasAPIPathPrefix :
  map (fun pa => HasAPIPathPrefix (fst pa) (snd pa))
    [(lit "/_api/document/collection/key", lit "/_api/document");
     (lit "/_api/collection", lit "/_api/collection");
     (lit "/_api/index/collection/12345", lit "/_api/index");
     (lit "/_api/import", lit "/_api/import");
     (lit "/_db/mydb/_api/document/coll", lit "/_api/document");
     (lit "/_db/test_db/_api/collection", lit "/_api/collection");
     (lit "/_db/my-db/_api/index", lit "/_api/index");
     (lit "/_api/version", lit "/_api/document");
     (lit "/_api/documentx", lit "/_api/document");
     (lit "/_db/../_api/document", lit "/_api/document");
     (lit "/foo/_api/document", lit "/_api/document");
     (lit "/foo/_api/document/bar", lit "/_api/document");
     (lit "/_db/my.db/_api/document", lit "/_api/document");
     (lit "/_db/my/db/_api/document", lit "/_api/document");
     (lit "/_db//_api/document", lit "/_api/document")]
  = [true; true; true; true; true; true; true;
     false; false; false; false; false; false; false; false].
Proof. vm_compute. reflexivity. Qed.

Example test_readwrite_allowed :
  map (fun mp => readWriteVerdict asciiToUpper Json.unmarshalQuery (fst mp) (snd mp) "")
    [(lit "POST", lit "/_api/document/collection");
     (lit "POST", lit "/_db/mydb/_api/document/collection");
     (lit "PUT", lit "/_db/mydb/_api/document/collection/key");
     (lit "PATCH", lit "/_api/document/collection/key");
     (lit "DELETE", lit "/_db/mydb/_api/collection/myCollection");
     (lit "PUT", lit "/_api/collection/myCollection/properties");
     (lit "DELETE", lit "/_api/index/collection/12345");
     (lit "POST", lit "/_db/mydb/_api/import");
     (lit "PATCH", lit "/_api/index/collection/12345");
     (lit "GET", lit "/_admin/shutdown"); (lit "DELETE", lit "/_api/cursor/12345")]
  = [None; None; None; None; None; None; None; None; None; None; None].
Proof. vm_compute. reflexivity. Qed.

Example test_readwrite_denied :
  map (fun mp => readWriteVerdict asciiToUpper Json.unmarshalQuery (fst mp) (snd mp) "")
    [(lit "POST", lit "/_db/../_api/document/collection");
     (lit "POST", lit "/_db/mydb/../admin/_api/document");
     (lit "POST", lit "/foo/_api/document/bar");
     (lit "POST", lit "/../_api/document/collection");
     (lit "POST", lit "/_admin/echo"); (lit "PUT", lit "/_admin/log/level");
     (lit "DELETE", lit "/_admin/shutdown"); (lit "POST", lit "/_api/user");
     (lit "PUT", lit "/_api/database"); (lit "DELETE", lit "/_api/tasks");
     (lit "PUT", lit "/_api/import");
     (lit "POST", lit "/_db/my.db/_api/document/collection");
     (lit "POST", lit "/_db/my/db/_api/document/collection");
     (lit "POST", lit "/_db//_api/document/collection")]
  = map (fun mp => Some ("method " ++ fst mp ++ " not permitted on " ++ snd mp))
    [(lit "POST", lit "/_db/../_api/document/collection");
     (lit "POST", lit "/_db/mydb/../admin/_api/document");
     (lit "POST", lit "/foo/_api/document/bar");
     (lit "POST", lit "/../_api/document/collection");
     (lit "POST", lit "/_admin/echo"); (lit "PUT", lit "/_admin/log/level");
     (lit "DELETE", lit "/_admin/shutdown"); (lit "POST", lit "/_api/user");
     (lit "PUT", lit "/_api/database"); (lit "DELETE", lit "/_api/tasks");
     (lit "PUT", lit "/_api/import");
     (lit "POST", lit "/_db/my.db/_api/document/collection");
     (lit "POST", lit "/_db/my/db/_api/document/collection");
     (lit "POST", lit "/_db//_api/document/collection")].
Proof. vm_compute. reflexivity. Qed.

Example test_readwrite_write_query :
  readWriteVerdict asciiToUpper Json.unmarshalQuery "POST" "/_api/cursor"
    (queryPayload "INSERT {name: 'test'} INTO collection") = None.
Proof. vm_compute. reflexivity. Qed.

Example test_BodyPeeker :
  let body := queryPayload "FOR doc IN collection RETURN doc" in
  let first := bodyReader 1024 (initialState (wholeBody body)) in
  fst first = PeekOk body /\ fst (bodyReader 1024 (snd first)) = PeekOk body /\
  fst (bodyReader 100 (initialState (wholeBody (repeat "x"%char 1000)))) =
    PeekErr (exceedsError 100).
Proof. vm_compute. repeat split; reflexivity. Qed.

Example test_BuildUpstreamURL :
  buildUpstreamURL (mkRequest "GET" "/_api/version" "") = "http://arangodb/_api/version" /\
  buildUpstreamURL (mkRequest "GET" "/_api/cursor" "batchSize=100") =
    "http://arangodb/_api/cursor?batchSize=100" /\
  buildUpstreamURL (mkRequest "GET" "/_db/mydb/_api/document/collection" "") =
    "http://arangodb/_db/mydb/_api/document/collection" /\
  buildUpstreamURL (mkRequest "GET" "/_api/cursor/12345" "waitForSync=true&returnNew=true") =
    "http://arangodb/_api/cursor/12345?waitForSync=true&returnNew=true".
Proof. vm_compute. repeat split; reflexivity. Qed.

Example test_StripHopHeaders :
  stripHopHeaders asciiTrimSpace
    [(lit "Connection", [lit "keep-alive"]); (lit "Keep-Alive", [lit "timeout=5"]);
     (lit "Transfer-Encoding", [lit "chunked"]);
     (lit "Content-Type", [lit "application/json"])] =
    [(lit "Content-Type", [lit "application/json"])] /\
  stripHopHeaders asciiTrimSpace
    [(lit "Connection", [lit "X-Custom-Header, X-Another"]);
     (lit "X-Custom-Header", [lit "value1"]); (lit "X-Another", [lit "value2"]);
     (lit "X-Preserved", [lit "value3"])] =
    [(lit "X-Preserved", [lit "value3"])].
Proof. vm_compute. split; reflexivity. Qed.

Example test_CopyHeaders :
  let dst :=
    copyHeaders asciiTrimSpace
      [(lit "X-Old-Header", [lit "old-value"])]
      [(lit "Content-Type", [lit "application/json"]);
       (lit "X-Custom", [lit "value1"; lit "value2"]);
       (lit "Connection", [lit "keep-alive"]); (lit "Transfer-Encoding", [lit "chunked"])] in
  Values dst "Content-Type" = [lit "application/json"] /\
  Values dst "X-Custom" = [lit "value1"; lit "value2"] /\
  Values dst "Connection" = [] /\ Values dst "Transfer-Encoding" = [] /\
  Values dst "X-Old-Header" = [].
Proof. vm_compute. repeat split; reflexivity. Qed.

Example test_CanonicalHeaderKey :
  CanonicalHeaderKey "content-type" = "Content-Type" /\
  CanonicalHeaderKey "TE" = "Te" /\
  CanonicalHeaderKey "x custom" = "x custom" /\
  CanonicalHeaderKey "uSER-aGENT" = "User-Agent".
Proof. vm_compute. repeat split; reflexivity. Qed.

(* ================================================================== *)
(** ** Instances at concrete requests *)

(** C2 as the specification words it does not hold: on /_admin/echo the
    method HEAD, which is not GET, is allowed by the read-write policy. *)
Lemma C2_counterexample :
  lit "HEAD" <> lit "GET" /\
  HasPrefix "/_admin/echo" "/_admin/" = true /\
  fst (AllowReadWrite asciiToUpper Json.unmarshalQuery
         (mkRequest "HEAD" "/_admin/echo" "") emptyBodyPeeker tt) = None.
Proof. split; [discriminate|]. split; vm_compute; reflexivity. Qed.

(** C3 as the specification words it does not hold: /_api/document/a..b has no element
    equal to [..] and its normalized form is /_api/document followed by a
    slash, yet [HasAPIPathPrefix] returns false. *)
Lemma C3_counterexample :
  hasAPIPrefixSpec hasDotDotSegment "/_api/document/a..b" "/_api/document" /\
  HasAPIPathPrefix "/_api/document/a..b" "/_api/document" = false.
Proof.
  split; [|vm_compute; reflexivity].
  split; [vm_compute; reflexivity|].
  left. right. exists (lit "a..b"). left. vm_compute. reflexivity.
Qed.

(** C9 as the specification words it does not hold: the name [x/] has a character outside
    the class and the suffix /_api/document matches, yet
    [HasAPIPathPrefix] accepts /_db/x//_api/document; and with an empty
    name it accepts /_db//a/a for the API path /a. *)
Lemma C9_counterexample :
  (invalidDBName "x/" /\
   matchesAPIPath "/_api/document" "/_api/document" = true /\
   HasAPIPathPrefix ("/_db/" ++ "x/" ++ "/_api/document") "/_api/document" = true) /\
  (invalidDBName "" /\
   matchesAPIPath "/a/a" "/a" = true /\
   HasAPIPathPrefix ("/_db/" ++ "" ++ "/a/a") "/a" = true).
Proof.
  split; (split; [|split; vm_compute; reflexivity]).
  - right. vm_compute. reflexivity.
  - left. reflexivity.
Qed.

(** C6, the code at a body the policies cannot inspect: a POST to
    /_api/cursor with a body of 131073 bytes.  The read-only handler
    rejects it with a 403 that carries the error of the peeker.  The
    read-write handler does not reject it: it dispatches the request
    upstream with an empty body and content length 0. *)
Theorem C6_rw_handler_forwards_after_failed_inspection :
  let r := mkRequest "POST" "/_api/cursor" "" in
  let body := wholeBody (repeat "x"%char (Z.to_nat 131073)) in
  fst (ServeHTTP referenceNewRequestFails
         (AllowReadOnly asciiToUpper Json.unmarshalQuery) r body) =
    ErrorReply 403 "request body exceeds inspection limit (131072 bytes)" /\
  fst (ServeHTTP referenceNewRequestFails
         (AllowReadWrite asciiToUpper Json.unmarshalQuery) r body) =
    Dispatched (mkUpstream "POST" "http://arangodb/_api/cursor" (Replay []) (Some 0)).
Proof.
  intros r body.
  assert (Hlen : 131072 < len (repeat "x"%char (Z.to_nat 131073))).
  { unfold len. rewrite repeat_length. rewrite Z2Nat.id; lia. }
  pose proof (oversized_peek_fails _ Hlen) as Hp.
  split.
  - rewrite (@ServeHTTP_ro_failed_peek asciiToUpper Json.unmarshalQuery
               referenceNewRequestFails r body _ _ eq_refl eq_refl Hp).
    reflexivity.
  - rewrite (@ServeHTTP_rw_failed_peek asciiToUpper Json.unmarshalQuery
               referenceNewRequestFails r body _ _ eq_refl eq_refl Hp eq_refl).
    reflexivity.
Qed.

(** C1 at PUT /_api/cursor/12345: denied, with the method and the path in
    the reason. *)
Lemma C1_witness :
  AllowReadOnly asciiToUpper Json.unmarshalQuery
    (mkRequest "PUT" "/_api/cursor/12345" "") emptyBodyPeeker tt =
  (Some (lit "method PUT not permitted on /_api/cursor/12345"), tt).
Proof.
  apply (proj2 (C1_AllowReadOnly_decision asciiToUpper Json.unmarshalQuery
                  (mkRequest "PUT" "/_api/cursor/12345" "") emptyBodyPeeker tt)).
  - intros [H | [H | H]]; vm_compute in H; discriminate.
  - intros [H _]; vm_compute in H; discriminate.
  - intros [H _]; vm_compute in H; discriminate.
Defined.

(** C2 at POST /_admin/shutdown: denied. *)
Lemma C2_witness :
  fst (AllowReadWrite asciiToUpper Json.unmarshalQuery
         (mkRequest "POST" "/_admin/shutdown" "") emptyBodyPeeker tt) =
  Some (lit "method POST not permitted on /_admin/shutdown").
Proof.
  apply (proj2 (proj2 (proj2 (proj2
           (C2_AllowReadWrite_decision asciiToUpper Json.unmarshalQuery
              (mkRequest "POST" "/_admin/shutdown" "") emptyBodyPeeker tt))))).
  - reflexivity.
  - intro H; vm_compute in H; discriminate.
  - intro H; vm_compute in H; discriminate.
  - intro H; vm_compute in H; discriminate.
Defined.

(** C4 at the traversal attempt of the tests. *)
Lemma C4_witness :
  hasDotDotSegment "/_db/../_api/document" = true /\
  HasAPIPathPrefix "/_db/../_api/document" "/_api/document" = false.
Proof.
  split; [reflexivity|].
  apply (C4_dotdot_segment_rejected "/_db/../_api/document" "/_api/document").
  reflexivity.
Defined.

(** C5 at a body whose query spells the keyword in lower case. *)
Lemma C5_witness :
  exists k,
    maximalLetterRun k (ToUpper asciiToUpper "insert {x:1} INTO coll") /\
    In k ForbiddenAQLKeywords /\
    lit "forbidden keyword " ++ dquote ++ lit "INSERT" ++ dquote ++ lit " detected in AQL" =
    "forbidden keyword " ++ dquote ++ k ++ dquote ++ " detected in AQL".
Proof.
  destruct (C5_keyword_check asciiToUpper Json.unmarshalQuery
              (queryPayload "insert {x:1} INTO coll")) as [_ [H _]].
  destruct (H (lit "insert {x:1} INTO coll")) as [_ [_ H3]].
  - vm_compute. reflexivity.
  - discriminate.
  - apply H3. vm_compute. reflexivity.
Defined.

(** C7 with a limit of 4 bytes: five bytes fail, four succeed. *)
Lemma C7_witness :
  fst (bodyReader 4 (initialState (wholeBody "abcde"))) = PeekErr (exceedsError 4) /\
  fst (bodyReader 4 (initialState (wholeBody "abcd"))) = PeekOk (lit "abcd").
Proof.
  split.
  - pose proof (C7_peek_limit 4 (mkStream "abcde" None false)) as H.
    cbv zeta in H. destruct H as [_ [_ [H _]]]. apply H. vm_compute. reflexivity.
  - pose proof (C7_peek_limit 4 (mkStream "abcd" None false)) as H.
    cbv zeta in H. destruct H as [_ [_ [_ H]]]. apply H; reflexivity.
Defined.

(** C8 at a write query sent through the read-write handler. *)
Lemma C8_witness :
  fst (ServeHTTP referenceNewRequestFails
         (AllowReadWrite asciiToUpper Json.unmarshalQuery)
         (mkRequest "POST" "/_api/cursor" "")
         (wholeBody (queryPayload "INSERT {} INTO c"))) =
  Dispatched (mkUpstream "POST" "http://arangodb/_api/cursor"
                (Replay (queryPayload "INSERT {} INTO c")) (Some 29)).
Proof.
  destruct (C8_snapshot_replayed asciiToUpper Json.unmarshalQuery referenceNewRequestFails)
    as [_ [_ H]].
  destruct (H (mkRequest "POST" "/_api/cursor" "")
              (wholeBody (queryPayload "INSERT {} INTO c"))
              (queryPayload "INSERT {} INTO c")
              (mkPeekState (queryPayload "INSERT {} INTO c") true
                 (Some (mkStream [] None true)))) as [_ H2].
  - reflexivity.
  - reflexivity.
  - vm_compute. reflexivity.
  - reflexivity.
  - rewrite H2. reflexivity.
Defined.

(** C9 at the name with a dot of the tests. *)
Lemma C9_witness :
  IsCursorPath ("/_db/" ++ "my.db" ++ "/_api/cursor") = false /\
  HasAPIPathPrefix ("/_db/" ++ "my.db" ++ "/_api/document") "/_api/document" = false.
Proof.
  destruct C9_cursor_endpoint_and_names as [_ [_ [H1 H2]]]. split.
  - apply H1.
    + right. reflexivity.
    + left. reflexivity.
  - apply H2.
    + left. reflexivity.
    + right. reflexivity.
    + reflexivity.
    + reflexivity.
Defined.

(** C10 at a body of five bytes peeked with a limit of four, then peeked
    again; and at the read-write handler on a body that fails to read. *)
Lemma C10_witness :
  bodyReader 99 (mkPeekState [] true (Some (mkStream [] None true))) =
    (PeekOk [], mkPeekState [] true (Some (mkStream [] None true))) /\
  fst (ServeHTTP referenceNewRequestFails
         (AllowReadWrite asciiToUpper Json.unmarshalQuery)
         (mkRequest "POST" "/_api/cursor" "")
         (Some (mkStream "{" (Some (lit "unexpected EOF")) false))) =
  Dispatched (mkUpstream "POST" "http://arangodb/_api/cursor" (Replay []) (Some 0)).
Proof.
  destruct (C10_failed_peek_not_cached asciiToUpper Json.unmarshalQuery
              referenceNewRequestFails) as [H1 H2].
  split.
  - destruct (H1 4 (wholeBody "abcde") (exceedsError 4)
                (mkPeekState [] true (Some (mkStream [] None true)))) as [_ [H _]].
    + vm_compute. reflexivity.
    + apply H.
  - apply (H2 (mkRequest "POST" "/_api/cursor" "")
              (Some (mkStream "{" (Some (lit "unexpected EOF")) false))
              (lit "unexpected EOF")
              (mkPeekState [] true (Some (mkStream [] (Some (lit "unexpected EOF")) true)))).
    + reflexivity.
    + reflexivity.
    + vm_compute. reflexivity.
    + reflexivity.
Defined.

(* ================================================================== *)
(** ** Instances of the further properties *)


(** X2 with a peeker that counts its calls. *)
Lemma X2_witness :
  snd (AllowReadOnly asciiToUpper Json.unmarshalQuery
         (mkRequest "POST" "/_api/cursor" "")
         (fun (_ : Z) (n : nat) => (PeekOk [], S n)) 0%nat) = 1%nat /\
  snd (AllowReadWrite asciiToUpper Json.unmarshalQuery
         (mkRequest "PUT" "/_api/document/c/1" "")
         (fun (_ : Z) (n : nat) => (PeekOk [], S n)) 0%nat) = 0%nat.
Proof.
  split.
  - destruct (proj1 (X2_policies_peek_only_post_cursor asciiToUpper Json.unmarshalQuery
                       (mkRequest "POST" "/_api/cursor" "")
                       (fun (_ : Z) (n : nat) => (PeekOk [], S n)) 0%nat)
                    (conj eq_refl eq_refl)) as [H _].
    exact H.
  - destruct (proj2 (X2_policies_peek_only_post_cursor asciiToUpper Json.unmarshalQuery
                       (mkRequest "PUT" "/_api/document/c/1" "")
                       (fun (_ : Z) (n : nat) => (PeekOk [], S n)) 0%nat)) as [_ H].
    + intros [H _]. vm_compute in H. discriminate.
    + exact H.
Defined.

(** X3 at a PUT of a document through the read-write handler. *)
Lemma X3_witness :
  ServeHTTP referenceNewRequestFails (AllowReadWrite asciiToUpper Json.unmarshalQuery)
    (mkRequest "PUT" "/_api/document/c/1" "") (wholeBody "{}") =
  (Dispatched (mkUpstream "PUT" "http://arangodb/_api/document/c/1"
                 (PassThrough (wholeBody "{}")) None),
   initialState (wholeBody "{}")).
Proof.
  destruct (X3_uninspected_body_streams asciiToUpper Json.unmarshalQuery
              referenceNewRequestFails
              (mkRequest "PUT" "/_api/document/c/1" "") (wholeBody "{}")) as [_ H].
  - intros [H _]. vm_compute in H. discriminate.
  - reflexivity.
  - apply H. reflexivity.
Defined.

(** X4 at the deletion of a cursor. *)
Lemma X4_witness :
  uMethod (mkUpstream "DELETE" "http://arangodb/_api/cursor/7" (PassThrough None) None) =
    "DELETE" /\
  uURL (mkUpstream "DELETE" "http://arangodb/_api/cursor/7" (PassThrough None) None) =
    buildUpstreamURL (mkRequest "DELETE" "/_api/cursor/7" "").
Proof.
  destruct (@X4_readonly_dispatch asciiToUpper Json.unmarshalQuery referenceNewRequestFails
              (mkRequest "DELETE" "/_api/cursor/7" "") None
              (mkUpstream "DELETE" "http://arangodb/_api/cursor/7" (PassThrough None) None)
              (initialState None) eq_refl) as [H1 [H2 _]].
  split; [exact H1 | exact H2].
Defined.

(** X5 at a PUT that the read-only handler rejects. *)
Lemma X5_witness :
  exists s,
    Body (mkPeekState [] false (Some (mkStream "abc" None true))) = Some s /\
    closed s = true.
Proof.
  apply (proj1 (X5_rejected_body_closed asciiToUpper Json.unmarshalQuery
                  referenceNewRequestFails
                  (mkRequest "PUT" "/_api/document/c/1" "") (mkStream "abc" None false)
                  (lit "method PUT not permitted on /_api/document/c/1")
                  (mkPeekState [] false (Some (mkStream "abc" None true))))).
  reflexivity.
Defined.

(** X6 at a text with a keyword as a token. *)
Lemma X6_witness : scanRawBody asciiToUpper "drop it" <> None.
Proof.
  apply (proj1 (X6_raw_scan_stricter asciiToUpper) (lit "drop it")).
  vm_compute. discriminate.
Defined.

(** X7 at a POST to the cursor endpoint without a body. *)
Lemma X7_witness :
  ServeHTTP referenceNewRequestFails (AllowReadWrite asciiToUpper Json.unmarshalQuery)
    (mkRequest "POST" "/_api/cursor" "") None =
  (Dispatched (mkUpstream "POST" "http://arangodb/_api/cursor" (Replay []) (Some 0)),
   mkPeekState [] true None).
Proof.
  apply (proj1 (X7_absent_body asciiToUpper Json.unmarshalQuery referenceNewRequestFails
                  (mkRequest "POST" "/_api/cursor" "") eq_refl eq_refl eq_refl)).
Defined.

(** X8 at a path with a doubled slash and a slash at the end. *)
Lemma X8_witness :
  HasAPIPathPrefix ("/_db/" ++ "mydb" ++ "/_api/document" ++ "/coll//key/") "/_api/document"
    = true.
Proof.
  apply (proj2 (X8_api_subpaths_matched (apiPath := "/_api/document") (lit "mydb")
                  (tail := "/coll//key/")
                  (or_introl eq_refl)
                  (or_intror (ex_intro _ (lit "coll//key/") (or_introl eq_refl))))).
  - split; [discriminate | reflexivity].
  - reflexivity.
Defined.

(** X9 at a cursor with a database prefix. *)
Lemma X9_witness : HasAPIPathPrefix "/_db/mydb/_api/cursor/12" "/_api/cursor" = true.
Proof.
  apply (proj1 X9_cursor_paths_have_prefix (lit "/_db/mydb/_api/cursor/12")).
  reflexivity.
Defined.

(** X10 at /_api/documentx. *)
Lemma X10_witness :
  HasAPIPathPrefix ("/_api/document" ++ "x"%char :: []) "/_api/document" = false.
Proof.
  apply (proj1 (X10_api_path_boundary (apiPath := "/_api/document") (lit "mydb")
                  (d := "x"%char) []
                  (or_introl eq_refl)
                  ltac:(discriminate) ltac:(discriminate))).
Defined.

(** X11 at the header of the tests that names two headers in Connection. *)
Lemma X11_witness :
  Values (stripHopHeaders asciiTrimSpace
            [(lit "Connection", [lit "X-Custom-Header, X-Another"]);
             (lit "X-Custom-Header", [lit "value1"]); (lit "X-Another", [lit "value2"]);
             (lit "X-Preserved", [lit "value3"])])
         (asciiTrimSpace " X-Another") = [].
Proof.
  apply (proj1 (proj2 (X11_hop_headers_stripped asciiTrimSpace
                         [(lit "Connection", [lit "X-Custom-Header, X-Another"]);
                          (lit "X-Custom-Header", [lit "value1"]);
                          (lit "X-Another", [lit "value2"]);
                          (lit "X-Preserved", [lit "value3"])]))
               (lit "X-Custom-Header, X-Another") (lit " X-Another")).
  - left. reflexivity.
  - right. left. reflexivity.
  - vm_compute. discriminate.
Defined.

(** X12 at a destination that holds an old header. *)
Lemma X12_witness :
  Values (copyHeaders asciiTrimSpace
            [(lit "X-Old-Header", [lit "old-value"])]
            [(lit "Content-Type", [lit "application/json"]);
             (lit "Connection", [lit "keep-alive"])])
         "Connection" = [].
Proof.
  apply (proj2 (proj1 (X12_copyHeaders_content asciiTrimSpace)
                  [(lit "X-Old-Header", [lit "old-value"])]
                  [(lit "Content-Type", [lit "application/json"]);
                   (lit "Connection", [lit "keep-alive"])]
                  ltac:(intros key [<- | [<- | []]]; reflexivity)
                  ltac:(constructor;
                        [intros [H | []]; discriminate H
                        | constructor; [intros [] | constructor]])
                  ltac:(intros key [<- | []]; reflexivity))).
  left. reflexivity.
Defined.

(** X13 at two requests that differ in the method only. *)
Lemma X13_witness :
  Path (mkRequest "GET" "/a" "b=1") = Path (mkRequest "POST" "/a" "b=1") /\
  RawQuery (mkRequest "GET" "/a" "b=1") = RawQuery (mkRequest "POST" "/a" "b=1").
Proof.
  apply (proj1 X13_upstream_url_injective
           (mkRequest "GET" "/a" "b=1") (mkRequest "POST" "/a" "b=1")).
  - intros [H | [H | []]]; discriminate H.
  - intros [H | [H | []]]; discriminate H.
  - reflexivity.
Defined.

(** X14 at two requests with different queries. *)
Lemma X14_witness :
  loggedLine (mkRequest "GET" "/_api/cursor" "token=1") =
  loggedLine (mkRequest "GET" "/_api/cursor" "token=2").
Proof.
  apply (proj1 X14_log_line_hides_query
           (mkRequest "GET" "/_api/cursor" "token=1")
           (mkRequest "GET" "/_api/cursor" "token=2")).
  - reflexivity.
  - reflexivity.
  - split; discriminate.
Defined.
